(** * Transaction log domain (searchlib/transactionlog/domain.cpp)

    A shallow embedding of [search::transactionlog::Domain]: the supervisor
    that owns the ordered map of segments ([DomainPart]s), the active
    [Chunk], the visiting sessions, and the executors it dispatches to.

    The embedding is sequential.  Every member function of [Domain] becomes
    a function on an explicit [Domain] state; an exception is an [Outcome]
    of its own, so that the state at the throw can be inspected.  The
    executors are task queues inside the state, and "waiting" for another
    thread is running the tasks that thread has queued. *)

From Stdlib Require Import ZArith NArith Ascii String Lia Sorted Permutation.
From stdpp Require Import gmap list sorting.

Local Open Scope N_scope.

(** ** Serial numbers, ranges, packets *)

(** [SerialNum] is [uint64_t]; the code only compares and copies serials. *)
Abbreviation SerialNum := N.

(** Points of the steady clock and durations, in nanoseconds.  Byte counts
    ([size_t]) are [N]: the code adds and compares them, far from 2^64. *)
Abbreviation Time := Z.
Abbreviation duration := Z.

Record SerialNumRange := {
  from : SerialNum;
  to : SerialNum
}.

(** Modelled from the spec: [Packet] and [Packet::Entry] (common.h), which
    the sources do not include.  A packet is an ordered batch of
    (serial, payload) records together with the range it covers; its byte
    size is the size of the payloads; two packets merge by appending the
    records of the second, the merged range ending where the second ends. *)
Record Entry := {
  serial : SerialNum;
  payload : list Byte.byte
}.

Record Packet := {
  range : SerialNumRange;
  entries : list Entry
}.

Module Packet.
Definition new : Packet :=
  {| range := {| from := 0; to := 0 |}; entries := [] |}.

Definition empty (p : Packet) : bool :=
  match entries p with [] => true | _ :: _ => false end.

Definition size (p : Packet) : N := N.of_nat (length (entries p)).

Definition entryBytes (e : Entry) : N := N.of_nat (length (payload e)).

Definition sizeBytes (p : Packet) : N :=
  fold_right (fun e acc => entryBytes e + acc) 0 (entries p).

Definition merge (p q : Packet) : Packet :=
  {| range := {| from := if empty p then from (range q) else from (range p);
                 to := to (range q) |};
     entries := entries p ++ entries q |}.

(** The serial of the first record, what [Entry::deserialize] reads from
    the head of the packet's buffer. *)
Definition firstSerial (p : Packet) : option SerialNum :=
  match entries p with [] => None | e :: _ => Some (serial e) end.
End Packet.

(** ** Chunk *)

(** A completion callback is opaque to the domain: it is stored and, when
    the chunk dies, released.  It is identified by a number. *)
Definition DoneCallback := N.

Record Chunk := {
  _data : Packet;
  _callBacks : list DoneCallback;
  _firstArrivalTime : Time
}.

Module Chunk.
Definition new : Chunk :=
  {| _data := Packet.new; _callBacks := []; _firstArrivalTime := 0%Z |}.

Definition add (now : Time) (packet : Packet) (onDone : DoneCallback)
    (c : Chunk) : Chunk :=
  {| _data := Packet.merge (_data c) packet;
     _callBacks := _callBacks c ++ [onDone];
     _firstArrivalTime :=
       match _callBacks c with
       | [] => now
       | _ :: _ => _firstArrivalTime c
       end |}.

Definition age (now : Time) (c : Chunk) : duration :=
  match _callBacks c with
  | [] => 0%Z
  | _ :: _ => (now - _firstArrivalTime c)%Z
  end.

Definition getPacket (c : Chunk) : Packet := _data c.
Definition sizeBytes (c : Chunk) : N := Packet.sizeBytes (_data c).
Definition getNumCallBacks (c : Chunk) : N := N.of_nat (length (_callBacks c)).
End Chunk.

(** ** Configuration *)

Record DomainConfig := {
  getChunkSizeLimit : N;
  getChunkAgeLimit : duration;
  getPartSizeLimit : N;
  getFSyncOnCommit : bool
}.

(** ** Segments *)

(** Modelled from the spec: [DomainPart] (domainpart.h/.cpp), which the
    sources do not include.  A segment is an append-only file addressed by
    a serial range.  [commit] is valid only while the segment is open and
    extends the range to the packet's last serial; [sync] makes everything
    written so far durable; [erase to] deletes the backing store when the
    whole range lies below [to] and otherwise shrinks the range from below;
    [close] makes the segment immutable. *)
Record DomainPart := {
  dp_range : SerialNumRange;
  dp_size : N;
  dp_byteSize : N;
  dp_synced : SerialNum;
  dp_closed : bool;
  dp_deleted : bool
}.

Module DomainPart.
Definition new (start : SerialNum) : DomainPart :=
  {| dp_range := {| from := start; to := start |};
     dp_size := 0; dp_byteSize := 0; dp_synced := 0;
     dp_closed := false; dp_deleted := false |}.

Definition commit (firstSerial : SerialNum) (packet : Packet)
    (dp : DomainPart) : option DomainPart :=
  if dp_closed dp then None
  else Some {| dp_range := {| from := from (dp_range dp);
                              to := to (range packet) |};
               dp_size := dp_size dp + Packet.size packet;
               dp_byteSize := dp_byteSize dp + Packet.sizeBytes packet;
               dp_synced := dp_synced dp;
               dp_closed := false;
               dp_deleted := dp_deleted dp |}.

Definition sync (dp : DomainPart) : DomainPart :=
  {| dp_range := dp_range dp; dp_size := dp_size dp;
     dp_byteSize := dp_byteSize dp;
     dp_synced := to (dp_range dp);
     dp_closed := dp_closed dp; dp_deleted := dp_deleted dp |}.

Definition close (dp : DomainPart) : DomainPart :=
  {| dp_range := dp_range dp; dp_size := dp_size dp;
     dp_byteSize := dp_byteSize dp; dp_synced := dp_synced dp;
     dp_closed := true; dp_deleted := dp_deleted dp |}.

Definition erase (upto : SerialNum) (dp : DomainPart) : DomainPart :=
  if to (dp_range dp) <? upto then
    {| dp_range := dp_range dp; dp_size := dp_size dp;
       dp_byteSize := dp_byteSize dp; dp_synced := dp_synced dp;
       dp_closed := true; dp_deleted := true |}
  else
    {| dp_range := {| from := N.max upto (from (dp_range dp));
                      to := to (dp_range dp) |};
       dp_size := dp_size dp; dp_byteSize := dp_byteSize dp;
       dp_synced := dp_synced dp;
       dp_closed := dp_closed dp; dp_deleted := dp_deleted dp |}.

Definition getSynced (dp : DomainPart) : SerialNum := dp_synced dp.
Definition isClosed (dp : DomainPart) : bool := dp_closed dp.
Definition byteSize (dp : DomainPart) : N := dp_byteSize dp.
End DomainPart.

(** [DomainPartList] is [std::map<SerialNum, DomainPart::SP>]: the code
    walks it in key order ([begin], [rbegin], [upper_bound]), so it is an
    association list kept sorted by key.  An iterator is a position. *)
Abbreviation DomainPartList := (list (SerialNum * DomainPart)).

Module PartMap.
(** [_parts[k] = v] *)
Fixpoint assign (k : SerialNum) (v : DomainPart) (m : DomainPartList)
    : DomainPartList :=
  match m with
  | [] => [(k, v)]
  | (k', v') :: m' =>
      if k <? k' then (k, v) :: m
      else if k =? k' then (k, v) :: m'
      else (k', v') :: assign k v m'
  end.

(** [_parts.upper_bound(s)]: the position of the first key above [s],
    the length of the map ([end()]) when there is none. *)
Fixpoint upper_bound (s : SerialNum) (m : DomainPartList) : nat :=
  match m with
  | [] => O
  | (k, _) :: m' => if s <? k then O else S (upper_bound s m')
  end.

(** Replace the value stored under an existing key (a mutation through
    the shared pointer the map holds). *)
Fixpoint update (k : SerialNum) (f : DomainPart -> DomainPart)
    (m : DomainPartList) : DomainPartList :=
  match m with
  | [] => []
  | (k', v') :: m' =>
      if k =? k' then (k', f v') :: m' else (k', v') :: update k f m'
  end.

Definition keys (m : DomainPartList) : list SerialNum := map fst m.

(** Keys strictly increasing: what [std::map] guarantees. *)
Definition ordered (m : DomainPartList) : Prop :=
  StronglySorted N.lt (keys m).
End PartMap.

(** ** Sessions and executors *)

(** Modelled from the spec: [Session] (session.h), which the sources do not
    include; only the accessors [Domain] calls are kept. *)
Record Session := {
  s_id : Z;
  s_range : SerialNumRange;
  s_startTime : Time;
  s_inSync : bool;
  s_finished : bool;
  s_visitRunning : bool
}.

Definition setStartTime (t : Time) (s : Session) : Session :=
  {| s_id := s_id s; s_range := s_range s; s_startTime := t;
     s_inSync := s_inSync s; s_finished := s_finished s;
     s_visitRunning := s_visitRunning s |}.

(** Modelled from the spec: [vespalib::Executor].  [execute] queues the task
    and returns null, or hands the task back when the executor does not
    accept it (it has been shut down). *)
Record Executor (T : Type) := {
  ex_tasks : list T;
  ex_closed : bool
}.
Arguments ex_tasks {T} _.
Arguments ex_closed {T} _.

Module Executor.
Definition execute {T} (t : T) (ex : Executor T) : Executor T * option T :=
  if ex_closed ex then (ex, Some t)
  else ({| ex_tasks := ex_tasks ex ++ [t]; ex_closed := false |}, None).

Definition shutdown {T} (ex : Executor T) : Executor T :=
  {| ex_tasks := ex_tasks ex; ex_closed := true |}.
End Executor.

(** What reaches the file system, in the order it happens. *)
Inductive IOEvent :=
| EvOpen (part : SerialNum)
| EvWrite (part : SerialNum) (first : SerialNum)
| EvSync (part : SerialNum)
| EvClose (part : SerialNum)
| EvErase (part : SerialNum) (upto : SerialNum)
| EvDirSync.

(** ** The domain *)

Record Domain := {
  _config : DomainConfig;
  _currentChunk : Chunk;
  _lastSerial : SerialNum;
  _singleCommiter : Executor Chunk;       (* tasks: doCommit(chunk) *)
  _commitExecutor : Executor SerialNum;   (* tasks: Sync of the part with this key *)
  _sessionExecutor : Executor Z;          (* tasks: run the session with this id *)
  _sessionId : Z;
  _pendingSync : bool;
  _parts : DomainPartList;
  _sessions : gmap Z Session;
  io : list IOEvent                       (* ghost: the I/O performed so far *)
}.

Definition with_config c d :=
  {| _config := c; _currentChunk := _currentChunk d;
     _lastSerial := _lastSerial d; _singleCommiter := _singleCommiter d;
     _commitExecutor := _commitExecutor d;
     _sessionExecutor := _sessionExecutor d; _sessionId := _sessionId d;
     _pendingSync := _pendingSync d; _parts := _parts d;
     _sessions := _sessions d; io := io d |}.

Definition with_currentChunk c d :=
  {| _config := _config d; _currentChunk := c;
     _lastSerial := _lastSerial d; _singleCommiter := _singleCommiter d;
     _commitExecutor := _commitExecutor d;
     _sessionExecutor := _sessionExecutor d; _sessionId := _sessionId d;
     _pendingSync := _pendingSync d; _parts := _parts d;
     _sessions := _sessions d; io := io d |}.

Definition with_lastSerial s d :=
  {| _config := _config d; _currentChunk := _currentChunk d;
     _lastSerial := s; _singleCommiter := _singleCommiter d;
     _commitExecutor := _commitExecutor d;
     _sessionExecutor := _sessionExecutor d; _sessionId := _sessionId d;
     _pendingSync := _pendingSync d; _parts := _parts d;
     _sessions := _sessions d; io := io d |}.

Definition with_singleCommiter e d :=
  {| _config := _config d; _currentChunk := _currentChunk d;
     _lastSerial := _lastSerial d; _singleCommiter := e;
     _commitExecutor := _commitExecutor d;
     _sessionExecutor := _sessionExecutor d; _sessionId := _sessionId d;
     _pendingSync := _pendingSync d; _parts := _parts d;
     _sessions := _sessions d; io := io d |}.

Definition with_commitExecutor e d :=
  {| _config := _config d; _currentChunk := _currentChunk d;
     _lastSerial := _lastSerial d; _singleCommiter := _singleCommiter d;
     _commitExecutor := e;
     _sessionExecutor := _sessionExecutor d; _sessionId := _sessionId d;
     _pendingSync := _pendingSync d; _parts := _parts d;
     _sessions := _sessions d; io := io d |}.

Definition with_sessionExecutor e d :=
  {| _config := _config d; _currentChunk := _currentChunk d;
     _lastSerial := _lastSerial d; _singleCommiter := _singleCommiter d;
     _commitExecutor := _commitExecutor d;
     _sessionExecutor := e; _sessionId := _sessionId d;
     _pendingSync := _pendingSync d; _parts := _parts d;
     _sessions := _sessions d; io := io d |}.

Definition with_pendingSync b d :=
  {| _config := _config d; _currentChunk := _currentChunk d;
     _lastSerial := _lastSerial d; _singleCommiter := _singleCommiter d;
     _commitExecutor := _commitExecutor d;
     _sessionExecutor := _sessionExecutor d; _sessionId := _sessionId d;
     _pendingSync := b; _parts := _parts d;
     _sessions := _sessions d; io := io d |}.

Definition with_parts p d :=
  {| _config := _config d; _currentChunk := _currentChunk d;
     _lastSerial := _lastSerial d; _singleCommiter := _singleCommiter d;
     _commitExecutor := _commitExecutor d;
     _sessionExecutor := _sessionExecutor d; _sessionId := _sessionId d;
     _pendingSync := _pendingSync d; _parts := p;
     _sessions := _sessions d; io := io d |}.

Definition with_sessions s d :=
  {| _config := _config d; _currentChunk := _currentChunk d;
     _lastSerial := _lastSerial d; _singleCommiter := _singleCommiter d;
     _commitExecutor := _commitExecutor d;
     _sessionExecutor := _sessionExecutor d; _sessionId := _sessionId d;
     _pendingSync := _pendingSync d; _parts := _parts d;
     _sessions := s; io := io d |}.

Definition emit (e : list IOEvent) d :=
  {| _config := _config d; _currentChunk := _currentChunk d;
     _lastSerial := _lastSerial d; _singleCommiter := _singleCommiter d;
     _commitExecutor := _commitExecutor d;
     _sessionExecutor := _sessionExecutor d; _sessionId := _sessionId d;
     _pendingSync := _pendingSync d; _parts := _parts d;
     _sessions := _sessions d; io := io d ++ e |}.

(** ** Results of a member function *)

Inductive Error :=
| SerialNotIncreasing (incoming last : SerialNum)  (* the runtime_error of commit *)
| EmptyPacket                                      (* deserialize on an empty buffer *)
| PartClosed (part : SerialNum)                    (* write to a closed segment *)
| NoPart.                                          (* begin()/rbegin() of an empty map
                                                      dereferenced: undefined in C++ *)

(** A call returns a value, throws, or waits for ever on a monitor nobody
    will signal; each time with the state it leaves behind. *)
Inductive Outcome (A : Type) :=
| Returned (a : A) (d : Domain)
| Thrown (e : Error) (d : Domain)
| Blocked (d : Domain).
Arguments Returned {A} _ _.
Arguments Thrown {A} _ _.
Arguments Blocked {A} _.

Definition M (A : Type) := Domain -> Outcome A.

Definition ret {A} (a : A) : M A := fun d => Returned a d.

Definition bind {A B} (m : M A) (k : A -> M B) : M B :=
  fun d =>
    match m d with
    | Returned a d' => k a d'
    | Thrown e d' => Thrown e d'
    | Blocked d' => Blocked d'
    end.

Definition throw {A} (e : Error) : M A := fun d => Thrown e d.
Definition get {A} (f : Domain -> A) : M A := fun d => Returned (f d) d.
Definition modify (f : Domain -> Domain) : M unit := fun d => Returned tt (f d).

Declare Scope dom_scope.
Delimit Scope dom_scope with dom.
Notation "'let*' x ':=' m 'in' k" := (bind m (fun x => k))
  (at level 10, x binder, m at level 100, k at level 200) : dom_scope.
Local Open Scope dom_scope.

Definition stateOf {A} (o : Outcome A) : Domain :=
  match o with Returned _ d | Thrown _ d | Blocked d => d end.

(** ** Committing *)

(** [Domain::grabCurrentChunk] *)
Definition grabCurrentChunk : M Chunk :=
  let* chunk := get _currentChunk in
  let* _ := modify (with_currentChunk Chunk.new) in
  ret chunk.

(** [Domain::commitChunk]: the write is queued on the single committer as a
    task that will call [doCommit chunk]; what [execute] returns is
    dropped. *)
Definition commitChunk (chunk : Chunk) : M bool :=
  if negb (Packet.empty (Chunk.getPacket chunk)) then
    let* _ := modify (fun d =>
      with_singleCommiter
        (fst (Executor.execute chunk (_singleCommiter d))) d) in
    ret true
  else ret false.

(** [Domain::commitIfFull] *)
Definition commitIfFull : M unit :=
  let* chunk := get _currentChunk in
  let* limit := get (fun d => getChunkSizeLimit (_config d)) in
  if limit <? Chunk.sizeBytes chunk then
    let* completed := grabCurrentChunk in
    let* _ := commitChunk completed in
    ret tt
  else ret tt.

(** [Domain::commit] *)
Definition commit (now : Time) (packet : Packet) (onDone : DoneCallback)
    : M unit :=
  let* last := get _lastSerial in
  let* _ :=
    if from (range packet) <=? last
    then throw (SerialNotIncreasing (from (range packet)) last)
    else modify (with_lastSerial (to (range packet))) in
  let* _ := modify (fun d =>
    with_currentChunk (Chunk.add now packet onDone (_currentChunk d)) d) in
  commitIfFull.

(** [Domain::commitIfStale] *)
Definition commitIfStale (now : Time) : M bool :=
  let* chunk := get _currentChunk in
  let* limit := get (fun d => getChunkAgeLimit (_config d)) in
  if (limit <? Chunk.age now chunk)%Z
     && negb (Packet.empty (Chunk.getPacket chunk))
  then let* completed := grabCurrentChunk in commitChunk completed
  else ret false.

(** ** Syncing *)

(** [Sync::run], the task [triggerSyncNow] queues on the commit executor.
    The task holds the segment it was created for; the segment is named by
    its key. *)
Definition runSync (part : SerialNum) (d : Domain) : Domain :=
  with_pendingSync false
    (emit [EvSync part]
       (with_parts (PartMap.update part DomainPart.sync (_parts d)) d)).

(** [Domain::triggerSyncNow] *)
Definition triggerSyncNow : M unit :=
  let* pending := get _pendingSync in
  if negb pending then
    let* _ := modify (with_pendingSync true) in
    let* tail := get (fun d => last (_parts d)) in
    match tail with
    | None => throw NoPart
    | Some (key, _) =>
        modify (fun d =>
          with_commitExecutor
            (fst (Executor.execute key (_commitExecutor d))) d)
    end
  else ret tt.

(** [waitPendingSync]: [while (pendingSync) guard.wait()].  The waiting
    thread gets on when the commit executor has run the queued [Sync]; with
    the flag up and nothing queued, nobody will ever lower it. *)
Fixpoint awaitSync (queued : list SerialNum) (d : Domain) : Outcome unit :=
  if negb (_pendingSync d) then Returned tt d
  else
    match queued with
    | [] => Blocked d
    | part :: rest =>
        awaitSync rest
          (runSync part
             (with_commitExecutor
                {| ex_tasks := rest;
                   ex_closed := ex_closed (_commitExecutor d) |} d))
    end.

Definition waitPendingSync : M unit :=
  fun d => awaitSync (ex_tasks (_commitExecutor d)) d.

(** ** Sessions *)

(** [Domain::cleanSessions] *)
Definition cleanSessions : M unit :=
  modify (fun d =>
    with_sessions
      (filter (fun kv : Z * Session =>
                 s_inSync (snd kv) = false /\ s_finished (snd kv) = false)
              (_sessions d)) d).

(** [Domain::startSession].  [Domain::execute] forwards the task to the
    session executor. *)
Definition startSession (now : Time) (sessionId : Z) : M Z :=
  let* found := get (fun d => _sessions d !! sessionId) in
  match found with
  | Some s =>
      let* _ := modify (fun d =>
        with_sessions (<[sessionId := setStartTime now s]> (_sessions d)) d) in
      let* rejected := (fun d =>
        let r := Executor.execute sessionId (_sessionExecutor d) in
        Returned (snd r) (with_sessionExecutor (fst r) d)) in
      match rejected with
      | None => ret 0%Z
      | Some _ =>
          let* _ := modify (fun d =>
            with_sessions (delete sessionId (_sessions d)) d) in
          ret (-1)%Z
      end
  | None => ret (-1)%Z
  end.

(** ** The single writer *)

(** [Domain::doCommit] *)
Definition doCommit (chunk : Chunk) : M unit :=
  let packet := Chunk.getPacket chunk in
  let* tail := get (fun d => last (_parts d)) in
  match tail, Packet.firstSerial packet with
  | None, _ => throw NoPart
  | _, None => throw EmptyPacket
  | Some (key, dp), Some first =>
      let* limit := get (fun d => getPartSizeLimit (_config d)) in
      let* _ :=
        if limit <? DomainPart.byteSize dp then
          let* _ := waitPendingSync in
          let* _ := triggerSyncNow in
          let* _ := waitPendingSync in
          let* _ := modify (fun d =>
            emit [EvClose key]
              (with_parts (PartMap.update key DomainPart.close (_parts d)) d)) in
          let* _ := modify (fun d =>
            emit [EvOpen first]
              (with_parts
                 (PartMap.assign first (DomainPart.new first) (_parts d)) d)) in
          modify (emit [EvDirSync])
        else ret tt in
      let* tail := get (fun d => last (_parts d)) in
      match tail with
      | None => throw NoPart
      | Some (key, dp) =>
          match DomainPart.commit first packet dp with
          | None => throw (PartClosed key)
          | Some dp' =>
              let* _ := modify (fun d =>
                emit [EvWrite key first]
                  (with_parts (PartMap.update key (fun _ => dp') (_parts d)) d)) in
              let* fsync := get (fun d => getFSyncOnCommit (_config d)) in
              let* _ :=
                if fsync then
                  modify (fun d =>
                    emit [EvSync key]
                      (with_parts
                         (PartMap.update key DomainPart.sync (_parts d)) d))
                else ret tt in
              cleanSessions
          end
      end
  end.

(** One task of the single committer: take the oldest queued chunk and
    write it.  Returns whether there was one. *)
Definition writerStep : M bool :=
  let* queue := get (fun d => ex_tasks (_singleCommiter d)) in
  match queue with
  | [] => ret false
  | chunk :: rest =>
      let* _ := modify (fun d =>
        with_singleCommiter
          {| ex_tasks := rest;
             ex_closed := ex_closed (_singleCommiter d) |} d) in
      let* _ := doCommit chunk in
      ret true
  end.

Fixpoint drain (fuel : nat) : M unit :=
  match fuel with
  | O => ret tt
  | S fuel' =>
      let* more := writerStep in
      if more then drain fuel' else ret tt
  end.

(** [_singleCommiter->sync()]: wait until every queued write has run.  No
    write queues another, so the length of the queue is fuel enough. *)
Definition syncCommitter : M unit :=
  fun d => drain (length (ex_tasks (_singleCommiter d))) d.

(** [Domain::~Domain], up to the shutdown of the writer, and whole. *)
Definition flushOnDestroy : M bool :=
  let* chunk := grabCurrentChunk in
  commitChunk chunk.

Definition destroy : M unit :=
  let* _ := flushOnDestroy in
  let* _ := modify (fun d =>
    with_singleCommiter (Executor.shutdown (_singleCommiter d)) d) in
  syncCommitter.

(** ** Reading the segment map *)

(** [Domain::begin] and [Domain::end] *)
Definition begin (d : Domain) : SerialNum :=
  match head (_parts d) with
  | Some (_, dp) => from (dp_range dp)
  | None => 0
  end.

Definition end_ (d : Domain) : SerialNum :=
  match last (_parts d) with
  | Some (_, dp) => to (dp_range dp)
  | None => 0
  end.

(** [Domain::getSynced] *)
Definition getSynced (d : Domain) : SerialNum :=
  let parts := _parts d in
  match parts with
  | [] => 0
  | _ :: _ =>
      let it := (length parts - 1)%nat in
      let s := from_option (fun e => DomainPart.getSynced (snd e)) 0 (parts !! it) in
      if (s =? 0) && negb (Nat.eqb it 0) then
        from_option (fun e => DomainPart.getSynced (snd e)) 0
          (parts !! (it - 1)%nat)
      else s
  end.

(** [Domain::findPart] *)
Definition findPart (s : SerialNum) (d : Domain) : option DomainPart :=
  let parts := _parts d in
  let it := PartMap.upper_bound s parts in
  let before :=
    if negb (Nat.eqb (length parts) 0) && negb (Nat.eqb it 0) then
      match parts !! (it - 1)%nat with
      | Some (_, prev) =>
          if s <? to (dp_range prev) then Some prev else None
      | None => None
      end
    else None in
  match before with
  | Some prev => Some prev
  | None =>
      if negb (Nat.eqb it (length parts)) then snd <$> parts !! it
      else None
  end.

(** ** Pruning *)

(** The loop of [Domain::erase]: drop the first segment while another one
    remains and its range ends below [upto]. *)
Fixpoint eraseLoop (upto : SerialNum) (parts : DomainPartList)
    : DomainPartList * list IOEvent :=
  match parts with
  | (key, dp) :: ((_ :: _) as rest) =>
      if to (dp_range dp) <? upto then
        let r := eraseLoop upto rest in
        (fst r, EvErase key upto :: EvDirSync :: snd r)
      else (parts, [])
  | _ => (parts, [])
  end.

(** [Domain::erase].  The modelled [DomainPart.erase] cannot fail, so
    [retval] stays true. *)
Definition erase (upto : SerialNum) : M bool :=
  let* _ := modify (fun d =>
    let r := eraseLoop upto (_parts d) in
    emit (snd r) (with_parts (fst r) d)) in
  let* first := get (fun d => head (_parts d)) in
  match first with
  | None => throw NoPart
  | Some (key, dp) =>
      let* _ :=
        if upto <=? to (dp_range dp) then
          modify (fun d =>
            emit [EvErase key upto]
              (with_parts
                 (PartMap.update key (DomainPart.erase upto) (_parts d)) d))
        else ret tt in
      ret true
  end.

(** ** Scanning the directory *)

(** C strings: the characters before the terminating NUL, as a list. *)
Abbreviation cstring := (list ascii).

Module C.
Definition NUL : ascii := Ascii.zero.

(** [strcmp(a, b) == 0] *)
Fixpoint streq (a b : cstring) : bool :=
  match a, b with
  | [], [] => true
  | x :: a', y :: b' => Ascii.eqb x y && streq a' b'
  | _, _ => false
  end.

(** [strncmp(a, b, n) == 0]: at most [n] characters are compared, and the
    comparison stops at the NUL that ends both strings. *)
Fixpoint strneq (a b : cstring) (n : nat) {struct n} : bool :=
  match n with
  | O => true
  | S n' =>
      match a, b with
      | [], [] => true
      | x :: a', y :: b' => Ascii.eqb x y && strneq a' b' n'
      | _, _ => false
      end
  end.

(** [s[i]], for [i] up to the length of the string *)
Definition at_ (s : cstring) (i : nat) : ascii := nth i s NUL.

Definition isspace (c : ascii) : bool :=
  let n := N_of_ascii c in (n =? 32) || ((9 <=? n) && (n <=? 13)).

Definition digit (c : ascii) : option N :=
  let n := N_of_ascii c in
  if (48 <=? n) && (n <=? 57) then Some (n - 48) else None.

Definition digitChar (v : N) : ascii := ascii_of_N (48 + v).

Definition ULLONG_MAX : N := 18446744073709551615.

Fixpoint skipSpaces (s : cstring) : cstring :=
  match s with
  | c :: s' => if isspace c then skipSpaces s' else s
  | [] => []
  end.

(** The number spelled by the longest prefix of decimal digits. *)
Fixpoint digitsValue (s : cstring) (acc : N) : N :=
  match s with
  | c :: s' =>
      match digit c with
      | Some v => digitsValue s' (10 * acc + v)
      | None => acc
      end
  | [] => acc
  end.

(** [strtoull(s, NULL, 10)]: white space, an optional sign, digits.  A
    number that does not fit gives [ULLONG_MAX]; a minus sign negates
    modulo 2^64; no digits give 0. *)
Definition strtoull (s : cstring) : N :=
  let s1 := skipSpaces s in
  let signed :=
    match s1 with
    | c :: r =>
        if Ascii.eqb c "-" then (true, r)
        else if Ascii.eqb c "+" then (false, r)
        else (false, s1)
    | [] => (false, s1)
    end in
  let v := digitsValue (snd signed) 0 in
  if ULLONG_MAX <? v then ULLONG_MAX
  else if fst signed then (2 ^ 64 - v) mod 2 ^ 64
  else v.

(** The decimal digits of [n], most significant first; [fuel] bounds
    their number. *)
Fixpoint decimalDigits (fuel : nat) (n : N) : list N :=
  match fuel with
  | O => []
  | S fuel' =>
      if n <? 10 then [n]
      else decimalDigits fuel' (n / 10) ++ [n mod 10]
  end.

(** ["%016" PRIu64]: the decimal digits of a 64-bit number, padded with
    zeros on the left to a width of 16. *)
Definition fmt016 (n : N) : cstring :=
  let digits := decimalDigits 64 n in
  map digitChar (repeat 0 (16 - length digits) ++ digits).
End C.

(** [fmt("%s-%016" PRIu64, _name.c_str(), num)] *)
Definition partFileName (name : cstring) (num : N) : cstring :=
  name ++ "-"%char :: C.fmt016 num.

(** The body of the loop of [Domain::scanDir] for one directory entry:
    the serial number pushed, if any. *)
Definition scanEntry (name ename : cstring) : option SerialNum :=
  let wantPrefixLen := length name in
  if C.streq ename ["."%char] || C.streq ename ["."%char; "."%char] then None
  else if negb (C.strneq ename name wantPrefixLen) then None
  else if negb (Ascii.eqb (C.at_ ename wantPrefixLen) "-") then None
  else
    let p := drop (wantPrefixLen + 1) ename in
    let num := C.strtoull p in
    if negb (C.streq (partFileName name num) ename) then None
    else Some num.

(** [Domain::scanDir], given [_name] and the entries the directory scan
    yields, in the order it yields them. *)
Definition scanDir (name : cstring) (listing : list cstring)
    : list SerialNum :=
  merge_sort N.le (omap (scanEntry name) listing).

(** ** The domain at work *)

(** The domain at work: what the threads around it do, one action at a
    time.  Producers commit, a timer calls [commitIfStale], the single
    committer runs its oldest task, the commit executor runs its oldest
    task. *)
Inductive Action :=
| ACommit (now : Time) (packet : Packet) (onDone : DoneCallback)
| AStale (now : Time)
| AWrite
| ASync.

Definition syncStep : M unit :=
  fun d =>
    match ex_tasks (_commitExecutor d) with
    | [] => Returned tt d
    | part :: rest =>
        Returned tt
          (runSync part
             (with_commitExecutor
                {| ex_tasks := rest;
                   ex_closed := ex_closed (_commitExecutor d) |} d))
    end.

Definition step (a : Action) : M unit :=
  match a with
  | ACommit now packet onDone => commit now packet onDone
  | AStale now => let* _ := commitIfStale now in ret tt
  | AWrite => let* _ := writerStep in ret tt
  | ASync => syncStep
  end.

Fixpoint run (acts : list Action) : M unit :=
  match acts with
  | [] => ret tt
  | a :: rest => let* _ := step a in run rest
  end.

(** A packet a producer may commit: it holds a record, its range starts at
    or before its first record and ends at or after it. *)
Definition wfPacket (p : Packet) : Prop :=
  exists first,
    Packet.firstSerial p = Some first
    /\ from (range p) <= first /\ first <= to (range p).

(** Every commit of the sequence passes the check of [commit]: its [from]
    is above the [to] of the commit before it ([last] for the first). *)
Fixpoint commitsValid (acts : list Action) (last : SerialNum) : Prop :=
  match acts with
  | [] => True
  | ACommit _ p _ :: rest =>
      wfPacket p /\ last < from (range p) /\ commitsValid rest (to (range p))
  | _ :: rest => commitsValid rest last
  end.

(** The [to] of the last packet committed, [last] when there is none. *)
Fixpoint lastTo (acts : list Action) (last : SerialNum) : SerialNum :=
  match acts with
  | [] => last
  | ACommit _ p _ :: rest => lastTo rest (to (range p))
  | _ :: rest => lastTo rest last
  end.

(** The chunks not yet written, oldest first: those queued on the single
    committer, then the active one if it holds a record. *)
Definition pendingChunks (d : Domain) : list Chunk :=
  ex_tasks (_singleCommiter d)
  ++ (if Packet.empty (_data (_currentChunk d)) then []
      else [_currentChunk d]).

(** The chunks still to be written continue the log: each starts above
    the keys ([lo]) and above the end of the one before it, and the last
    one ends at [last]; with none left the log itself ends ([e]) at
    [last]. *)
Fixpoint chain (lo e : SerialNum) (pend : list Chunk) (last : SerialNum)
    : Prop :=
  match pend with
  | [] => lo <= last /\ e = last
  | c :: rest =>
      exists first,
        Packet.firstSerial (_data c) = Some first
        /\ lo < first /\ first <= to (range (_data c))
        /\ chain (to (range (_data c))) (to (range (_data c))) rest last
  end.

(** The invariant of a running domain. *)
Definition consistent (d : Domain) : Prop :=
  exists init key tail,
    _parts d = init ++ [(key, tail)]
    /\ Forall (fun e => fst e < key) init
    /\ dp_closed tail = false
    /\ ex_closed (_commitExecutor d) = false
    /\ (exists k, ex_tasks (_commitExecutor d)
                  = if _pendingSync d then [k] else [])
    /\ ex_closed (_singleCommiter d) = false
    /\ chain key (to (dp_range tail)) (pendingChunks d) (_lastSerial d).

(** ** Vocabulary of the properties *)

(** Chunks as [commit] builds them: from the empty chunk, by adding packets
    that hold at least one record. *)
Inductive ChunkBuilt : Chunk -> Prop :=
| built_new : ChunkBuilt Chunk.new
| built_add now p cb c :
    ChunkBuilt c -> Packet.empty p = false ->
    ChunkBuilt (Chunk.add now p cb c).

(** The invariants of the segment map that the bounds of [erase] rest on:
    every range is well formed, and consecutive segments are contiguous
    (the next range starts where the previous one ends, or right after). *)
Definition validRange (e : SerialNum * DomainPart) : Prop :=
  from (dp_range (snd e)) <= to (dp_range (snd e)).

Fixpoint contiguous (m : DomainPartList) : Prop :=
  match m with
  | (_, p) :: (((_, q) :: _) as rest) =>
      (to (dp_range p) <= from (dp_range q)
       /\ from (dp_range q) <= to (dp_range p) + 1)
      /\ contiguous rest
  | _ => True
  end.

Definition endsBelow (upto : SerialNum) (e : SerialNum * DomainPart) : Prop :=
  to (dp_range (snd e)) < upto.

Definition firstFrom (m : DomainPartList) : SerialNum :=
  match head m with
  | Some (_, dp) => from (dp_range dp)
  | None => 0
  end.

(** The number spelled by a list of decimal digits, after [acc]. *)
Definition digitsNumber (ds : list N) (acc : N) : N :=
  fold_left (fun a v => 10 * a + v) ds acc.

(** What a write leaves alone. *)
Definition writeFrame (d d' : Domain) : Prop :=
  _config d' = _config d
  /\ _currentChunk d' = _currentChunk d
  /\ _lastSerial d' = _lastSerial d
  /\ _singleCommiter d' = _singleCommiter d
  /\ ex_closed (_commitExecutor d') = ex_closed (_commitExecutor d).

(** ** Sessions: visit and findOldestActiveVisit *)

Definition with_sessionId i d :=
  {| _config := _config d; _currentChunk := _currentChunk d;
     _lastSerial := _lastSerial d; _singleCommiter := _singleCommiter d;
     _commitExecutor := _commitExecutor d;
     _sessionExecutor := _sessionExecutor d; _sessionId := i;
     _pendingSync := _pendingSync d; _parts := _parts d;
     _sessions := _sessions d; io := io d |}.

(** Modelled from the spec: the constructor of [Session] (session.h).  A
    session is created in state CREATED: it has its id and range, and is
    neither running, nor in sync, nor finished. *)
Definition newSession (id : Z) (range : SerialNumRange) : Session :=
  {| s_id := id; s_range := range; s_startTime := 0%Z;
     s_inSync := false; s_finished := false; s_visitRunning := false |}.

(** [_sessionId] is an [int]; [_sessionId++] past [INT_MAX] is written out
    as the two's complement wrap. *)
Definition INT_MAX : Z := 2147483647.

Definition wrapInt (z : Z) : Z := ((z + 2 ^ 31) mod 2 ^ 32 - 2 ^ 31)%Z.

(** [Domain::visit]; the destination is handed to the session unseen. *)
Definition visit (lo hi : SerialNum) : M Z :=
  let* _ := cleanSessions in
  let* id := get _sessionId in
  let* _ := modify (with_sessionId (wrapInt (id + 1))) in
  let* _ := modify (fun d =>
    with_sessions
      (<[id := newSession id {| from := lo; to := hi |}]> (_sessions d)) d) in
  ret id.

(** [Domain::findOldestActiveVisit].  The loop takes a minimum, so the
    order in which the sessions are met does not matter. *)
Definition findOldestActiveVisit (d : Domain) : SerialNum :=
  map_fold
    (fun (_ : Z) (session : Session) (oldestActive : SerialNum) =>
       if negb (s_inSync session)
       then N.min oldestActive (from (s_range session))
       else oldestActive)
    C.ULLONG_MAX (_sessions d).

(** ** Sizes *)

(** [Domain::size] and [Domain::byteSize] *)
Definition size (d : Domain) : N :=
  fold_left (fun sz part => sz + dp_size (snd part)) (_parts d) 0.

Definition byteSize (d : Domain) : N :=
  fold_left (fun sz part => sz + DomainPart.byteSize (snd part)) (_parts d) 0.

(** ** Construction *)

(** What the constructor ends in: a domain, or one of its two
    [runtime_error]s, or the failed [assert] of [addPart]. *)
Inductive Construction :=
| Built (d : Domain)
| BaseDirFailed (retval : Z)
| DomainDirFailed (retval : Z)
| EmptyPartNotLast (partId : SerialNum).

Section Construct.

(** The constructor of [DomainPart] reads the segment's file, which the
    sources do not show.  What it yields is a parameter: [openPart] for the
    files [addPart] opens, [reopenPart] for the segment the constructor of
    [Domain] opens last, on the directory as [addPart] left it. *)
Variable openPart : SerialNum -> bool -> DomainPart.
Variable reopenPart : SerialNum -> DomainPart.

(** [Domain::addPart]; [None] is the failed [assert(isLastPart)]. *)
Definition addPart (partId : SerialNum) (isLastPart : bool) (d : Domain)
    : option Domain :=
  let dp := openPart partId isLastPart in
  if dp_size dp =? 0 then
    if isLastPart then
      Some (emit [EvOpen partId;
                  EvErase partId ((to (dp_range dp) + 1) mod 2 ^ 64)] d)
    else None
  else
    let d1 := emit [EvOpen partId]
                (with_parts (PartMap.assign partId dp (_parts d)) d) in
    Some (if negb isLastPart
          then emit [EvClose partId]
                 (with_parts
                    (PartMap.update partId DomainPart.close (_parts d1)) d1)
          else d1).

(** The [addPart] tasks the session executor has taken, run to the end
    ([_sessionExecutor.sync()]); the id of the offending part when an
    assertion fails. *)
Fixpoint addParts (lastPart : SerialNum) (partIds : list SerialNum)
    (d : Domain) : Domain + SerialNum :=
  match partIds with
  | [] => inl d
  | partId :: rest =>
      match addPart partId (partId =? lastPart) d with
      | Some d' => addParts lastPart rest d'
      | None => inr partId
      end
  end.

(** [Domain::Domain].  [mkBase] and [mkDomain] are what [makeDirectory]
    returns for the base and the domain directory; [listing] is what the
    scan of the domain directory yields. *)
Definition construct (name : cstring) (cfg : DomainConfig)
    (commitExecutor : Executor SerialNum) (sessionExecutor : Executor Z)
    (mkBase mkDomain : Z) (listing : list cstring) : Construction :=
  let d0 :=
    {| _config := cfg; _currentChunk := Chunk.new; _lastSerial := 0;
       _singleCommiter := {| ex_tasks := []; ex_closed := false |};
       _commitExecutor := commitExecutor;
       _sessionExecutor := sessionExecutor; _sessionId := 1%Z;
       _pendingSync := false; _parts := []; _sessions := ∅; io := [] |} in
  if negb (mkBase =? 0)%Z then BaseDirFailed mkBase
  else if negb (mkDomain =? 0)%Z then DomainDirFailed mkDomain
  else
    let partIdVector := scanDir name listing in
    let lastPart := List.last partIdVector 0 in
    let wanted :=
      List.filter (fun partId => negb (partId =? C.ULLONG_MAX)) partIdVector in
    let taken := if ex_closed sessionExecutor then [] else wanted in
    match addParts lastPart taken d0 with
    | inr partId => EmptyPartNotLast partId
    | inl d1 =>
        let d2 :=
          if match last (_parts d1) with
             | None => true
             | Some (_, dp) => DomainPart.isClosed dp
             end
          then emit [EvOpen lastPart; EvDirSync]
                 (with_parts
                    (PartMap.assign lastPart (reopenPart lastPart) (_parts d1))
                    d1)
          else d1 in
        Built (with_lastSerial (end_ d2) d2)
    end.

End Construct.

(** ** More vocabulary *)

(** At most one [Sync] is in flight: the flag is up exactly while one is
    queued. *)
Definition oneSyncInFlight (d : Domain) : Prop :=
  exists part,
    ex_tasks (_commitExecutor d) = if _pendingSync d then [part] else [].

(** Every session id in use is below the next id to hand out. *)
Definition idsBelowNext (d : Domain) : Prop :=
  forall id s, _sessions d !! id = Some s -> (id < _sessionId d)%Z.

(** What the segments of a map hold and what a list of chunks holds, for
    a measure of segments and one of packets (records, or bytes). *)
Definition storedIn (measure : DomainPart -> N) (m : DomainPartList) : N :=
  fold_left (fun sz part => sz + measure (snd part)) m 0.

Definition waitingIn (measure : Packet -> N) (chunks : list Chunk) : N :=
  fold_right (fun c acc => measure (_data c) + acc) 0 chunks.

(** What the packets committed by a sequence of actions carry. *)
Fixpoint committedIn (measure : Packet -> N) (acts : list Action) : N :=
  match acts with
  | [] => 0
  | ACommit _ p _ :: rest => measure p + committedIn measure rest
  | _ :: rest => committedIn measure rest
  end.

(** A chunk with the packets added to it, each with its time of arrival. *)
Fixpoint addAll (adds : list (Time * Packet * DoneCallback)) (c : Chunk)
    : Chunk :=
  match adds with
  | [] => c
  | (now, p, cb) :: rest => addAll rest (Chunk.add now p cb c)
  end.

(** What loading the segments leaves alone. *)
Definition loadFrame (d d' : Domain) : Prop :=
  _config d' = _config d
  /\ _currentChunk d' = _currentChunk d
  /\ _lastSerial d' = _lastSerial d
  /\ _singleCommiter d' = _singleCommiter d
  /\ _commitExecutor d' = _commitExecutor d
  /\ _pendingSync d' = _pendingSync d
  /\ _sessions d' = _sessions d.

(** The segment [addPart] leaves in the map for a file that holds
    records: closed unless it is the last one. *)
Definition loadedPart (openPart : SerialNum -> bool -> DomainPart)
    (lastPart partId : SerialNum) : DomainPart :=
  if negb (partId =? lastPart)
  then DomainPart.close (openPart partId (partId =? lastPart))
  else openPart partId (partId =? lastPart).

(** ** Sample values *)

Module Sample.
Definition config : DomainConfig :=
  {| getChunkSizeLimit := 4; getChunkAgeLimit := 100%Z;
     getPartSizeLimit := 6; getFSyncOnCommit := true |}.

Definition idle {T} : Executor T := {| ex_tasks := []; ex_closed := false |}.
Definition stopped {T} : Executor T := {| ex_tasks := []; ex_closed := true |}.

Definition part (lo hi : SerialNum) (closed : bool) : DomainPart :=
  {| dp_range := {| from := lo; to := hi |}; dp_size := hi - lo;
     dp_byteSize := 3 * (hi - lo); dp_synced := 0;
     dp_closed := closed; dp_deleted := false |}.

Definition session (id : Z) (lo hi : SerialNum) : Session :=
  {| s_id := id; s_range := {| from := lo; to := hi |}; s_startTime := 0%Z;
     s_inSync := false; s_finished := false; s_visitRunning := false |}.

Definition entry (s : SerialNum) : Entry :=
  {| serial := s; payload := [Byte.x78; Byte.x79; Byte.x7a] |}.

(** A packet holding the records [lo .. hi]. *)
Definition packet (lo hi : SerialNum) : Packet :=
  {| range := {| from := lo; to := hi |};
     entries := map (fun i => entry (lo + N.of_nat i))
                    (seq 0 (N.to_nat (hi + 1 - lo))) |}.

Definition domain (parts : DomainPartList) (last : SerialNum) : Domain :=
  {| _config := config; _currentChunk := Chunk.new; _lastSerial := last;
     _singleCommiter := idle; _commitExecutor := idle;
     _sessionExecutor := idle; _sessionId := 1%Z; _pendingSync := false;
     _parts := parts; _sessions := ∅; io := [] |}.

(** A log of one open segment holding the serials up to 5. *)
Definition log5 : Domain := domain [(0, part 0 5 false)] 5.

(** A chunk holding one packet, which arrived at time 7. *)
Definition chunk6 : Chunk := Chunk.add 7%Z (packet 6 6) 1 Chunk.new.

(** [log5] with [chunk6] as its active chunk. *)
Definition staged : Domain := with_currentChunk chunk6 log5.

(** [log5] with one session, of id 3, registered. *)
Definition visited : Domain :=
  with_sessions {[ 3%Z := session 3 0 9 ]} log5.

(** Two segments, 1..5 closed and 6..9 open. *)
Definition two : Domain := domain [(1, part 1 5 true); (6, part 6 9 false)] 9.

(** One segment, of key 10 and range 10..20. *)
Definition lone : Domain := domain [(10, part 10 20 false)] 20.
End Sample.

(** ** Sample segment files *)

Module SampleFiles.
Definition name : cstring := list_ascii_of_string "dom".

(** A directory with the files of the segments 5 and 1. *)
Definition listing : list cstring :=
  [list_ascii_of_string "dom-0000000000000005";
   list_ascii_of_string "dom-0000000000000001"].

(** Every segment file holds four records, from its id on. *)
Definition openPart (partId : SerialNum) (isLastPart : bool) : DomainPart :=
  {| dp_range := {| from := partId; to := partId + 3 |};
     dp_size := 4; dp_byteSize := 12; dp_synced := partId + 3;
     dp_closed := false; dp_deleted := false |}.

Definition reopenPart (partId : SerialNum) : DomainPart :=
  DomainPart.new partId.
End SampleFiles.

(** * Properties *)

Ltac simpl_fields :=
  cbn [_config _currentChunk _lastSerial _singleCommiter _commitExecutor
       _sessionExecutor _sessionId _pendingSync _parts _sessions io
       with_config with_currentChunk with_lastSerial with_singleCommiter
       with_commitExecutor with_sessionExecutor with_pendingSync with_parts
       with_sessions emit fst snd] in *.

Ltac unfoldM :=
  unfold flushOnDestroy, commit, commitIfFull, commitIfStale, commitChunk,
    grabCurrentChunk, startSession, erase, cleanSessions, triggerSyncNow,
    waitPendingSync, bind, get, modify, ret, throw in *.

(** ** Packets and chunks *)

Lemma Packet_empty_sizeBytes p :
  Packet.empty p = true -> Packet.sizeBytes p = 0.
Proof.
  unfold Packet.empty, Packet.sizeBytes.
  destruct (entries p); [reflexivity | discriminate].
Qed.

Lemma Packet_over_limit_nonempty p limit :
  limit < Packet.sizeBytes p -> Packet.empty p = false.
Proof.
  intros Hlt. destruct (Packet.empty p) eqn:E; [|reflexivity].
  apply Packet_empty_sizeBytes in E. lia.
Qed.

Lemma ChunkBuilt_empty c :
  ChunkBuilt c -> Packet.empty (_data c) = true -> _callBacks c = [].
Proof.
  intros H. destruct H as [|now p cb c Hc Hp]; [reflexivity|].
  unfold Packet.empty in *. simpl.
  destruct (entries (_data c)); simpl; [|discriminate].
  destruct (entries p); [discriminate Hp | discriminate].
Qed.

(** ** C1: commit *)

(** C1. A packet whose [from] is not above [_lastSerial] makes [commit]
    throw, the whole domain (so [_lastSerial] and the segments) as it was.
    A packet whose [from] is above it makes [commit] return with
    [_lastSerial] at the packet's [to] and the segments untouched; the
    packet's records are appended to the active chunk's and the callback to
    its callbacks; and that chunk is handed to the single committer,
    a fresh one taking its place, exactly when its byte size exceeds the
    chunk size limit. *)
Theorem commit_spec (now : Time) (packet : Packet) (onDone : DoneCallback)
    (d : Domain) :
  (from (range packet) <= _lastSerial d ->
     commit now packet onDone d
     = Thrown (SerialNotIncreasing (from (range packet)) (_lastSerial d)) d)
  /\
  (_lastSerial d < from (range packet) ->
     let chunk := Chunk.add now packet onDone (_currentChunk d) in
     exists d',
       commit now packet onDone d = Returned tt d'
       /\ _lastSerial d' = to (range packet)
       /\ _parts d' = _parts d
       /\ entries (Chunk.getPacket chunk)
          = entries (Chunk.getPacket (_currentChunk d)) ++ entries packet
       /\ _callBacks chunk = _callBacks (_currentChunk d) ++ [onDone]
       /\ (getChunkSizeLimit (_config d) < Chunk.sizeBytes chunk ->
             _currentChunk d' = Chunk.new
             /\ _singleCommiter d'
                = fst (Executor.execute chunk (_singleCommiter d)))
       /\ (Chunk.sizeBytes chunk <= getChunkSizeLimit (_config d) ->
             _currentChunk d' = chunk
             /\ _singleCommiter d' = _singleCommiter d)).
Proof.
  split.
  - intros Hle. unfoldM.
    apply N.leb_le in Hle. now rewrite Hle.
  - intros Hlt chunk. unfoldM. cbn beta.
    assert (Hleb : (from (range packet) <=? _lastSerial d) = false)
      by (apply N.leb_gt; exact Hlt).
    rewrite Hleb. cbn [_currentChunk with_currentChunk with_lastSerial _config].
    fold chunk.
    destruct (getChunkSizeLimit (_config d) <? Chunk.sizeBytes chunk) eqn:Hfull.
    + apply N.ltb_lt in Hfull.
      assert (Hne : Packet.empty (Chunk.getPacket chunk) = false)
        by (eapply Packet_over_limit_nonempty; exact Hfull).
      cbn [_currentChunk with_currentChunk with_lastSerial _config].
      rewrite Hne. cbn [negb].
      eexists. split; [reflexivity|]. simpl_fields.
      split; [reflexivity|]. split; [reflexivity|]. split; [reflexivity|].
      split; [reflexivity|]. split; [intros _; split; reflexivity|].
      intros Hle. lia.
    + apply N.ltb_ge in Hfull.
      eexists. split; [reflexivity|]. simpl_fields.
      split; [reflexivity|]. split; [reflexivity|]. split; [reflexivity|].
      split; [reflexivity|]. split; [|intros _; split; reflexivity].
      intros Hlt'. lia.
Qed.

Lemma commit_spec_witness :
  commit 7%Z (Sample.packet 3 4) 1 (Sample.domain [(0, Sample.part 0 5 false)] 5)
  = Thrown (SerialNotIncreasing 3 5)
      (Sample.domain [(0, Sample.part 0 5 false)] 5)
  /\ exists d',
       commit 7%Z (Sample.packet 6 7) 1
         (Sample.domain [(0, Sample.part 0 5 false)] 5) = Returned tt d'
       /\ _lastSerial d' = 7
       /\ _currentChunk d' = Chunk.new
       /\ ex_tasks (_singleCommiter d')
          = [Chunk.add 7%Z (Sample.packet 6 7) 1 Chunk.new].
Proof.
  split.
  - apply (proj1 (commit_spec 7%Z (Sample.packet 3 4) 1
                    (Sample.domain [(0, Sample.part 0 5 false)] 5))).
    vm_compute. discriminate.
  - assert (Habove : _lastSerial (Sample.domain [(0, Sample.part 0 5 false)] 5)
                      < from (range (Sample.packet 6 7)))
      by (vm_compute; reflexivity).
    destruct (proj2 (commit_spec 7%Z (Sample.packet 6 7) 1
                       (Sample.domain [(0, Sample.part 0 5 false)] 5)) Habove)
      as (d' & Hrun & Hlast & _ & _ & _ & Hfull & _).
    exists d'.
    destruct Hfull as [Hc Hq]; [vm_compute; reflexivity|].
    repeat split; try assumption. rewrite Hq. reflexivity.
Defined.

(** ** C7: commitIfStale and the age of a chunk *)

(** C7. [commitIfStale] hands the active chunk to the single committer and
    returns true exactly when the chunk's packet holds a record and the
    chunk is older than the age limit; otherwise, and in particular for
    every chunk with an empty packet, it returns false and changes nothing.
    A chunk nothing was added to (the new one, any one without callbacks,
    any one built from non-empty packets whose packet is empty) has age
    zero. *)
Theorem commitIfStale_spec (now : Time) (d : Domain) :
  let chunk := _currentChunk d in
  let stale :=
    Packet.empty (Chunk.getPacket chunk) = false
    /\ (getChunkAgeLimit (_config d) < Chunk.age now chunk)%Z in
  (stale ->
     commitIfStale now d
     = Returned true
         (with_singleCommiter
            (fst (Executor.execute chunk (_singleCommiter d)))
            (with_currentChunk Chunk.new d)))
  /\ (~ stale -> commitIfStale now d = Returned false d)
  /\ (Packet.empty (Chunk.getPacket chunk) = true ->
        commitIfStale now d = Returned false d)
  /\ Chunk.age now Chunk.new = 0%Z
  /\ (forall c, _callBacks c = [] -> Chunk.age now c = 0%Z)
  /\ (forall c, ChunkBuilt c -> Packet.empty (Chunk.getPacket c) = true ->
        Chunk.age now c = 0%Z).
Proof.
  intros chunk stale. subst stale.
  assert (Hnot : ~ (Packet.empty (Chunk.getPacket chunk) = false
                    /\ (getChunkAgeLimit (_config d) < Chunk.age now chunk)%Z) ->
                 commitIfStale now d = Returned false d).
  { intros Hn. unfoldM. fold chunk.
    destruct (getChunkAgeLimit (_config d) <? Chunk.age now chunk)%Z eqn:Hage;
      [|reflexivity].
    destruct (Packet.empty (Chunk.getPacket chunk)) eqn:He; [reflexivity|].
    exfalso. apply Hn. split; [reflexivity|]. now apply Z.ltb_lt. }
  split; [|split; [exact Hnot|split; [|split; [reflexivity|split]]]].
  - intros [He Hage]. unfoldM. fold chunk.
    apply Z.ltb_lt in Hage. rewrite Hage, He. cbn [andb negb].
    simpl_fields. fold chunk. rewrite He. reflexivity.
  - intros He. apply Hnot. intros [He' _]. congruence.
  - intros c Hc. unfold Chunk.age. now rewrite Hc.
  - intros c Hb He. unfold Chunk.age.
    now rewrite (ChunkBuilt_empty c Hb He).
Qed.

Lemma commitIfStale_spec_witness :
  commitIfStale 200%Z Sample.staged
  = Returned true
      (with_singleCommiter
         (fst (Executor.execute Sample.chunk6 (_singleCommiter Sample.staged)))
         (with_currentChunk Chunk.new Sample.staged))
  /\ commitIfStale 50%Z Sample.staged = Returned false Sample.staged
  /\ commitIfStale 200%Z Sample.log5 = Returned false Sample.log5
  /\ Chunk.age 200%Z Chunk.new = 0%Z.
Proof.
  split; [|split; [|split]].
  - destruct (commitIfStale_spec 200%Z Sample.staged) as (H & _). apply H.
    vm_compute. split; reflexivity.
  - destruct (commitIfStale_spec 50%Z Sample.staged) as (_ & H & _). apply H.
    vm_compute. intros [_ Hage]. discriminate Hage.
  - destruct (commitIfStale_spec 200%Z Sample.log5) as (_ & _ & H & _).
    apply H. reflexivity.
  - destruct (commitIfStale_spec 200%Z Sample.log5)
      as (_ & _ & _ & _ & _ & H).
    apply H; [constructor | reflexivity].
Defined.

(** ** C10: commitChunk and the destructor *)

(** C10. [commitChunk] queues the write of a chunk on the single committer
    and returns true when the chunk's packet holds a record; for a chunk
    with an empty packet it returns false and leaves the domain, so the
    committer's queue, as it was.  Hence the destructor, run on a domain
    whose active chunk has an empty packet, reaches the shutdown of the
    committer with the queue it started with. *)
Theorem commitChunk_spec (chunk : Chunk) (d : Domain) :
  (Packet.empty (Chunk.getPacket chunk) = false ->
     commitChunk chunk d
     = Returned true
         (with_singleCommiter
            (fst (Executor.execute chunk (_singleCommiter d))) d))
  /\ (Packet.empty (Chunk.getPacket chunk) = true ->
        commitChunk chunk d = Returned false d)
  /\ (forall d', commitChunk chunk d = Returned true d' ->
        Packet.empty (Chunk.getPacket chunk) = false)
  /\ (Packet.empty (Chunk.getPacket (_currentChunk d)) = true ->
        flushOnDestroy d = Returned false (with_currentChunk Chunk.new d)
        /\ _singleCommiter (stateOf (flushOnDestroy d)) = _singleCommiter d).
Proof.
  split; [|split; [|split]].
  - intros He. unfoldM. now rewrite He.
  - intros He. unfoldM. now rewrite He.
  - intros d'. unfoldM.
    destruct (Packet.empty (Chunk.getPacket chunk)); [discriminate|reflexivity].
  - intros He.
    assert (Hrun : flushOnDestroy d
                   = Returned false (with_currentChunk Chunk.new d))
      by (unfoldM; simpl_fields; now rewrite He).
    split; [exact Hrun|]. rewrite Hrun. reflexivity.
Qed.

Lemma commitChunk_spec_witness :
  (exists d', commitChunk Sample.chunk6 Sample.log5 = Returned true d'
              /\ ex_tasks (_singleCommiter d') = [Sample.chunk6])
  /\ commitChunk Chunk.new Sample.log5 = Returned false Sample.log5
  /\ ex_tasks (_singleCommiter (stateOf (flushOnDestroy Sample.log5))) = [].
Proof.
  split; [|split].
  - eexists. split.
    + apply (commitChunk_spec Sample.chunk6 Sample.log5). reflexivity.
    + reflexivity.
  - apply (commitChunk_spec Chunk.new Sample.log5). reflexivity.
  - destruct (commitChunk_spec Chunk.new Sample.log5) as (_ & _ & _ & H).
    destruct H as [_ H]; [reflexivity|]. rewrite H. reflexivity.
Defined.

(** ** C9: startSession *)

(** C9. For an id the session map does not hold, [startSession] returns -1
    and the domain is as it was.  For an id it holds: when the session
    executor hands the task back, the session is removed from the map and
    -1 returned; when it takes the task, 0 is returned, the session (with
    its start time set) stays in the map and its task is queued.  No case
    throws. *)
Theorem startSession_spec (now : Time) (sessionId : Z) (d : Domain) :
  (_sessions d !! sessionId = None ->
     startSession now sessionId d = Returned (-1)%Z d)
  /\ (forall s, _sessions d !! sessionId = Some s ->
        snd (Executor.execute sessionId (_sessionExecutor d)) <> None ->
        exists d',
          startSession now sessionId d = Returned (-1)%Z d'
          /\ _sessions d' = delete sessionId (_sessions d)
          /\ _sessionExecutor d'
             = fst (Executor.execute sessionId (_sessionExecutor d)))
  /\ (forall s, _sessions d !! sessionId = Some s ->
        snd (Executor.execute sessionId (_sessionExecutor d)) = None ->
        exists d',
          startSession now sessionId d = Returned 0%Z d'
          /\ _sessions d' = <[sessionId := setStartTime now s]> (_sessions d)
          /\ _sessionExecutor d'
             = fst (Executor.execute sessionId (_sessionExecutor d))).
Proof.
  split; [|split].
  - intros Hnone. unfoldM. now rewrite Hnone.
  - intros s Hs Hrej. unfoldM. rewrite Hs. simpl_fields.
    destruct (snd (Executor.execute sessionId (_sessionExecutor d))) eqn:Hex;
      [|congruence].
    eexists. split; [reflexivity|]. simpl_fields.
    split; [apply delete_insert_eq | reflexivity].
  - intros s Hs Hacc. unfoldM. rewrite Hs. simpl_fields. rewrite Hacc.
    eexists. split; [reflexivity|]. simpl_fields. split; reflexivity.
Qed.

Lemma startSession_spec_witness :
  startSession 11%Z 4%Z Sample.visited = Returned (-1)%Z Sample.visited
  /\ (exists d', startSession 11%Z 3%Z
                   (with_sessionExecutor Sample.stopped Sample.visited)
                 = Returned (-1)%Z d'
                 /\ _sessions d' = delete 3%Z (_sessions Sample.visited))
  /\ (exists d', startSession 11%Z 3%Z Sample.visited = Returned 0%Z d'
                 /\ ex_tasks (_sessionExecutor d') = [3%Z]).
Proof.
  split; [|split].
  - apply (startSession_spec 11%Z 4%Z Sample.visited). reflexivity.
  - destruct (startSession_spec 11%Z 3%Z
                (with_sessionExecutor Sample.stopped Sample.visited))
      as (_ & H & _).
    destruct (H (Sample.session 3 0 9)) as (d' & Hrun & Hs & _).
    + reflexivity.
    + discriminate.
    + exists d'. split; [exact Hrun | exact Hs].
  - destruct (startSession_spec 11%Z 3%Z Sample.visited) as (_ & _ & H).
    destruct (H (Sample.session 3 0 9)) as (d' & Hrun & _ & Hex).
    + reflexivity.
    + reflexivity.
    + exists d'. split; [exact Hrun|]. rewrite Hex. reflexivity.
Defined.

(** ** C5: getSynced *)

(** C5. With no segment [getSynced] is 0.  Otherwise it is the synced mark
    of the last segment when that is not zero; when it is zero and a segment
    precedes the last one, it is the synced mark of that preceding segment;
    when it is zero and the last segment is the only one, it is 0. *)
Theorem getSynced_spec (d : Domain) :
  (_parts d = [] -> getSynced d = 0)
  /\ (forall ps k tail,
        _parts d = ps ++ [(k, tail)] ->
        (DomainPart.getSynced tail <> 0 ->
           getSynced d = DomainPart.getSynced tail)
        /\ (DomainPart.getSynced tail = 0 -> ps = [] -> getSynced d = 0)
        /\ (forall ps' k' prev,
              DomainPart.getSynced tail = 0 -> ps = ps' ++ [(k', prev)] ->
              getSynced d = DomainPart.getSynced prev)).
Proof.
  split.
  - intros Hnil. unfold getSynced. now rewrite Hnil.
  - intros ps k tail Hparts.
    assert (Hrun : getSynced d
                   = if (DomainPart.getSynced tail =? 0)
                        && negb (Nat.eqb (length ps) 0)
                     then from_option
                            (fun e => DomainPart.getSynced (snd e)) 0
                            ((ps ++ [(k, tail)]) !! (length ps - 1)%nat)
                     else DomainPart.getSynced tail).
    { unfold getSynced. rewrite Hparts.
      destruct (ps ++ [(k, tail)]) eqn:Happ;
        [destruct ps; discriminate Happ|].
      rewrite <- Happ.
      replace (length (ps ++ [(k, tail)]) - 1)%nat with (length ps)
        by (rewrite length_app; simpl; lia).
      assert (Hmid : (ps ++ [(k, tail)]) !! length ps = Some (k, tail))
        by (apply list_lookup_middle; reflexivity).
      rewrite Hmid. reflexivity. }
    split; [|split].
    + intros Hnz. rewrite Hrun.
      apply N.eqb_neq in Hnz. now rewrite Hnz.
    + intros Hz Hps. rewrite Hrun, Hz, Hps. reflexivity.
    + intros ps' k' prev Hz Hps. rewrite Hrun, Hz, Hps.
      rewrite length_app. simpl length.
      replace (length ps' + 1 - 1)%nat with (length ps') by lia.
      replace (Nat.eqb (length ps' + 1) 0) with false
        by (symmetry; apply Nat.eqb_neq; lia).
      rewrite <- app_assoc.
      assert (Hmid : (ps' ++ [(k', prev)] ++ [(k, tail)]) !! length ps'
                     = Some (k', prev))
        by (apply list_lookup_middle; reflexivity).
      rewrite Hmid. reflexivity.
Qed.

Lemma getSynced_spec_witness :
  getSynced (Sample.domain [] 0) = 0
  /\ getSynced (Sample.domain
                  [(0, DomainPart.sync (Sample.part 0 5 true));
                   (6, DomainPart.sync (Sample.part 6 9 false))] 9) = 9
  /\ getSynced (Sample.domain [(6, Sample.part 6 9 false)] 9) = 0
  /\ getSynced (Sample.domain
                  [(0, DomainPart.sync (Sample.part 0 5 true));
                   (6, Sample.part 6 9 false)] 9) = 5.
Proof.
  split; [|split; [|split]].
  - apply (getSynced_spec (Sample.domain [] 0)). reflexivity.
  - destruct (getSynced_spec
                (Sample.domain
                   [(0, DomainPart.sync (Sample.part 0 5 true));
                    (6, DomainPart.sync (Sample.part 6 9 false))] 9))
      as [_ H].
    destruct (H [(0, DomainPart.sync (Sample.part 0 5 true))] 6
                (DomainPart.sync (Sample.part 6 9 false)) eq_refl)
      as (Hnz & _).
    apply Hnz. vm_compute. discriminate.
  - destruct (getSynced_spec (Sample.domain [(6, Sample.part 6 9 false)] 9))
      as [_ H].
    destruct (H [] 6 (Sample.part 6 9 false) eq_refl) as (_ & Hz & _).
    apply Hz; reflexivity.
  - destruct (getSynced_spec
                (Sample.domain
                   [(0, DomainPart.sync (Sample.part 0 5 true));
                    (6, Sample.part 6 9 false)] 9))
      as [_ H].
    destruct (H [(0, DomainPart.sync (Sample.part 0 5 true))] 6
                (Sample.part 6 9 false) eq_refl)
      as (_ & _ & Hprev).
    apply (Hprev [] 0 (DomainPart.sync (Sample.part 0 5 true)));
      reflexivity.
Defined.

(** ** C6: findPart *)

Lemma upper_bound_split (s : SerialNum) (m : DomainPartList) :
  PartMap.ordered m ->
  exists l r,
    m = l ++ r
    /\ length l = PartMap.upper_bound s m
    /\ Forall (fun e => fst e <= s) l
    /\ Forall (fun e => s < fst e) r.
Proof.
  unfold PartMap.ordered, PartMap.keys.
  induction m as [|[k v] m IH]; intros Hord.
  - exists [], []. repeat split; constructor.
  - simpl in Hord. apply StronglySorted_inv in Hord as [Hsorted Hall].
    simpl. destruct (s <? k) eqn:Hsk.
    + apply N.ltb_lt in Hsk.
      exists [], ((k, v) :: m). repeat split; [constructor|].
      constructor; [exact Hsk|].
      apply (proj1 (List.Forall_map fst (N.lt k) m)) in Hall.
      revert Hall. apply List.Forall_impl. intros [k' v']. simpl. lia.
    + apply N.ltb_ge in Hsk.
      destruct (IH Hsorted) as (l & r & Hm & Hlen & Hl & Hr).
      exists ((k, v) :: l), r. repeat split.
      * simpl. now rewrite Hm.
      * simpl. now rewrite Hlen.
      * constructor; [exact Hsk | exact Hl].
      * exact Hr.
Qed.

Lemma lookup_at_split {A} (l r : list A) :
  (l ++ r) !! length l = head r.
Proof.
  rewrite lookup_app_r by lia.
  rewrite Nat.sub_diag. destruct r; reflexivity.
Qed.

(** C6, as the code has it.  Split the segments, in key order, into those
    whose key is at most [s] and those whose key is above [s].  [findPart s]
    is the last segment of the first group when that segment's range ends
    strictly above [s]; otherwise it is the first segment of the second
    group, none when that group is empty. *)
Theorem findPart_spec (s : SerialNum) (d : Domain) :
  PartMap.ordered (_parts d) ->
  exists l r,
    _parts d = l ++ r
    /\ Forall (fun e => fst e <= s) l
    /\ Forall (fun e => s < fst e) r
    /\ findPart s d
       = match last l with
         | Some (_, prev) =>
             if s <? to (dp_range prev) then Some prev else snd <$> head r
         | None => snd <$> head r
         end.
Proof.
  intros Hord.
  destruct (upper_bound_split s (_parts d) Hord) as (l & r & Hm & Hlen & Hl & Hr).
  exists l, r. split; [exact Hm|]. split; [exact Hl|]. split; [exact Hr|].
  unfold findPart. rewrite <- Hlen. rewrite Hm. clear Hm Hlen Hord Hl Hr.
  destruct l as [|x l'] using rev_ind.
  - simpl. destruct r as [|y r]; reflexivity.
  - clear IHl'. rewrite last_snoc. destruct x as [k prev].
    rewrite !length_app. simpl length.
    replace (Nat.eqb (length l' + 1 + length r) 0) with false
      by (symmetry; apply Nat.eqb_neq; lia).
    replace (Nat.eqb (length l' + 1) 0) with false
      by (symmetry; apply Nat.eqb_neq; lia).
    cbn [negb andb].
    replace (length l' + 1 - 1)%nat with (length l') by lia.
    rewrite <- app_assoc.
    assert (Hmid : (l' ++ [(k, prev)] ++ r) !! length l' = Some (k, prev))
      by (apply list_lookup_middle; reflexivity).
    rewrite Hmid.
    destruct (s <? to (dp_range prev)); [reflexivity|].
    assert (Hnext : (l' ++ [(k, prev)] ++ r) !! (length l' + 1)%nat = head r).
    { rewrite app_assoc.
      replace (length l' + 1)%nat with (length (l' ++ [(k, prev)]))
        by (rewrite length_app; reflexivity).
      apply lookup_at_split. }
    rewrite Hnext.
    destruct r as [|y r]; simpl.
    + replace (Nat.eqb (length l' + 1) (length l' + 1 + 0)) with true
        by (symmetry; apply Nat.eqb_eq; lia).
      reflexivity.
    + replace (Nat.eqb (length l' + 1) (length l' + 1 + S (length r)))
        with false by (symmetry; apply Nat.eqb_neq; lia).
      reflexivity.
Qed.

Lemma findPart_spec_witness :
  exists l r,
    _parts Sample.two = l ++ r
    /\ Forall (fun e => fst e <= 5) l
    /\ Forall (fun e => 5 < fst e) r
    /\ findPart 5 Sample.two
       = match last l with
         | Some (_, prev) =>
             if 5 <? to (dp_range prev) then Some prev else snd <$> head r
         | None => snd <$> head r
         end
    /\ findPart 5 Sample.two = Some (Sample.part 6 9 false)
    /\ findPart 3 Sample.two = Some (Sample.part 1 5 true)
    /\ findPart 9 Sample.two = None.
Proof.
  assert (Hord : PartMap.ordered (_parts Sample.two)).
  { unfold PartMap.ordered. simpl. repeat constructor. }
  destruct (findPart_spec 5 Sample.two Hord) as (l & r & Hm & Hl & Hr & Hrun).
  exists l, r. split; [exact Hm|]. split; [exact Hl|]. split; [exact Hr|].
  split; [exact Hrun|]. repeat split.
Defined.

(** C6 fails as stated.  With one segment, of key 10 and range 10..20,
    [findPart 3] returns that segment although no range holds 3 (not even
    with both bounds counted in), and [findPart 20] returns none although
    20 is the upper bound of the segment's range. *)
Lemma findPart_not_containment :
  (findPart 3 Sample.lone = Some (Sample.part 10 20 false)
   /\ forall k dp, In (k, dp) (_parts Sample.lone) ->
        ~ (from (dp_range dp) <= 3 <= to (dp_range dp)))
  /\ (findPart 20 Sample.lone = None
      /\ exists k dp, In (k, dp) (_parts Sample.lone)
           /\ from (dp_range dp) < 20 <= to (dp_range dp)).
Proof.
  split; split.
  - reflexivity.
  - intros k dp [Hin|[]]. inversion Hin; subst. vm_compute.
    intros [H _]. apply H. reflexivity.
  - reflexivity.
  - exists 10, (Sample.part 10 20 false). split; [left; reflexivity|].
    vm_compute. split; [reflexivity | discriminate].
Qed.

(** ** C4: erase *)

Lemma eraseLoop_split (upto : SerialNum) (parts : DomainPartList) :
  parts <> [] ->
  exists removed kept,
    parts = removed ++ kept
    /\ fst (eraseLoop upto parts) = kept
    /\ kept <> []
    /\ Forall (endsBelow upto) removed
    /\ (match kept with
        | e :: _ :: _ => upto <= to (dp_range (snd e))
        | _ => True
        end).
Proof.
  induction parts as [|[k dp] rest IH]; intros Hne; [congruence|].
  destruct rest as [|e2 rest'].
  - exists [], [(k, dp)]. simpl. repeat split; [congruence | constructor].
  - cbn [eraseLoop].
    destruct (to (dp_range dp) <? upto) eqn:Hlt.
    + apply N.ltb_lt in Hlt.
      destruct IH as (removed & kept & Hsplit & Hkept & Hk & Hrem & Hhead);
        [congruence|].
      exists ((k, dp) :: removed), kept. cbn [fst].
      split; [simpl; now rewrite Hsplit|]. split; [exact Hkept|].
      split; [exact Hk|]. split; [|exact Hhead].
      constructor; [exact Hlt | exact Hrem].
    + apply N.ltb_ge in Hlt.
      exists [], ((k, dp) :: e2 :: rest'). cbn [fst app].
      repeat split; [congruence | constructor | exact Hlt].
Qed.

Lemma contiguous_tail e m : contiguous (e :: m) -> contiguous m.
Proof. destruct e, m as [|[] ?]; simpl; tauto. Qed.

Lemma contiguous_app_r l r : contiguous (l ++ r) -> contiguous r.
Proof.
  induction l as [|e l IH]; [trivial|].
  intros H. apply IH. exact (contiguous_tail e _ H).
Qed.

(** Along a contiguous map of valid ranges, range starts never decrease. *)
Lemma contiguous_firstFrom l e r :
  Forall validRange (l ++ e :: r) -> contiguous (l ++ e :: r) ->
  firstFrom (l ++ e :: r) <= from (dp_range (snd e)).
Proof.
  induction l as [|[k p] l IH]; intros Hv Hc.
  - destruct e. unfold firstFrom. simpl. lia.
  - assert (Hstep : from (dp_range p) <= firstFrom (l ++ e :: r)).
    { apply Forall_inv in Hv. unfold validRange in Hv. simpl in Hv.
      destruct l as [|[k' q] l]; [destruct e as [k' q]|];
        simpl in Hc |- *; unfold firstFrom; simpl; lia. }
    assert (IH' := IH (Forall_inv_tail Hv) (contiguous_tail _ _ Hc)).
    change (firstFrom (((k, p) :: l) ++ e :: r)) with (from (dp_range p)).
    lia.
Qed.

(** Along a contiguous map of valid ranges, range ends never decrease. *)
Lemma contiguous_ends e m :
  Forall validRange (e :: m) -> contiguous (e :: m) ->
  Forall (fun x => to (dp_range (snd e)) <= to (dp_range (snd x))) m.
Proof.
  revert e. induction m as [|[k q] m IH]; intros [k0 p] Hv Hc; [constructor|].
  assert (Hq : to (dp_range p) <= to (dp_range q)).
  { apply Forall_inv_tail, Forall_inv in Hv. unfold validRange in Hv.
    simpl in Hv, Hc. simpl. lia. }
  constructor; [exact Hq|].
  specialize (IH (k, q) (Forall_inv_tail Hv) (contiguous_tail _ _ Hc)).
  simpl in IH |- *. revert IH. apply List.Forall_impl. intros x. lia.
Qed.

(** The segment that follows a removed one starts at most one past the end
    of the removed one. *)
Lemma contiguous_boundary l x e r :
  contiguous ((l ++ [x]) ++ e :: r) ->
  from (dp_range (snd e)) <= to (dp_range (snd x)) + 1.
Proof.
  rewrite <- app_assoc. intros H. apply contiguous_app_r in H.
  destruct x, e. simpl in H |- *. lia.
Qed.

Lemma update_head (k : SerialNum) (f : DomainPart -> DomainPart)
    (dp : DomainPart) (rest : DomainPartList) :
  PartMap.update k f ((k, dp) :: rest) = (k, f dp) :: rest.
Proof. simpl. now rewrite N.eqb_refl. Qed.

Lemma erase_from (upto : SerialNum) (dp : DomainPart) :
  upto <= to (dp_range dp) ->
  dp_range (DomainPart.erase upto dp)
  = {| from := N.max upto (from (dp_range dp)); to := to (dp_range dp) |}.
Proof.
  intros H. unfold DomainPart.erase.
  apply N.ltb_ge in H. now rewrite H.
Qed.

(** C4, as the code has it.  On a domain with at least one segment, whose
    ranges are valid and contiguous, [erase upto] returns, having removed a
    prefix of the segments, each ending below [upto]; of the segments kept
    every one but the last ends at or above [upto]; at least one segment is
    kept; the first one kept is shrunk to start at [upto] (or where it
    started, if that is above) when its range ends at or above [upto], and
    is left alone otherwise.  The first range start does not decrease, and
    is at most the greater of [upto] and its value before, so at most
    [upto] whenever it was at most [upto] before. *)
Theorem erase_spec (upto : SerialNum) (d : Domain) :
  _parts d <> [] ->
  Forall validRange (_parts d) ->
  contiguous (_parts d) ->
  exists removed k h rest d',
    erase upto d = Returned true d'
    /\ _parts d = removed ++ (k, h) :: rest
    /\ Forall (endsBelow upto) removed
    /\ Forall (fun e => upto <= to (dp_range (snd e)))
         (removelast ((k, h) :: rest))
    /\ _parts d'
       = (k, if upto <=? to (dp_range h)
             then DomainPart.erase upto h else h) :: rest
    /\ begin d'
       = (if upto <=? to (dp_range h)
          then N.max upto (from (dp_range h)) else from (dp_range h))
    /\ begin d <= begin d'
    /\ begin d' <= N.max upto (begin d)
    /\ (begin d <= upto -> begin d' <= upto).
Proof.
  intros Hne Hvalid Hcont.
  destruct (eraseLoop_split upto (_parts d) Hne)
    as (removed & kept & Hsplit & Hloop & Hk & Hrem & Hhead).
  destruct kept as [|[k h] rest]; [congruence|]. clear Hk.
  assert (Hbegin : begin d <= from (dp_range h)).
  { change (begin d) with (firstFrom (_parts d)). rewrite Hsplit.
    apply (contiguous_firstFrom removed (k, h) rest); rewrite <- Hsplit;
      assumption. }
  assert (Hafter : removed <> [] -> from (dp_range h) <= upto).
  { intros Hr. destruct removed as [|x removed'] using rev_ind; [congruence|].
    clear IHremoved'.
    rewrite Hsplit in Hcont.
    apply contiguous_boundary in Hcont. simpl in Hcont.
    apply Forall_app in Hrem as [_ Hx]. apply Forall_inv in Hx.
    unfold endsBelow in Hx. lia. }
  assert (Hfirst : removed = [] -> begin d = from (dp_range h)).
  { intros Hr. unfold begin. rewrite Hsplit, Hr. reflexivity. }
  assert (Hh : validRange (k, h)).
  { rewrite Hsplit in Hvalid. apply Forall_app in Hvalid as [_ Hv].
    now apply Forall_inv in Hv. }
  unfold validRange in Hh. simpl in Hh.
  assert (Hkept : Forall (fun e => upto <= to (dp_range (snd e)))
                    (removelast ((k, h) :: rest))).
  { destruct rest as [|e2 rest']; [constructor|].
    simpl in Hhead.
    assert (Hends : Forall (fun x => to (dp_range h) <= to (dp_range (snd x)))
                      (e2 :: rest')).
    { apply (contiguous_ends (k, h)).
      - rewrite Hsplit in Hvalid. now apply Forall_app in Hvalid as [_ Hv].
      - rewrite Hsplit in Hcont. now apply contiguous_app_r in Hcont. }
    change (removelast ((k, h) :: e2 :: rest'))
      with ((k, h) :: removelast (e2 :: rest')).
    constructor; [exact Hhead|].
    assert (Hsub : Forall (fun x => to (dp_range h) <= to (dp_range (snd x)))
                     (removelast (e2 :: rest'))).
    { apply Forall_forall. intros x Hin. rewrite Forall_forall in Hends.
      apply Hends. apply list_elem_of_In. apply list_elem_of_In in Hin.
      clear - Hin. revert Hin. generalize (e2 :: rest'). intros l.
      induction l as [|a [|b l] IH]; simpl; [tauto | tauto |].
      intros [->|Hin]; [now left | right; now apply IH]. }
    revert Hsub. apply List.Forall_impl. intros x. lia. }
  exists removed, k, h, rest.
  unfold erase, bind, modify, get, ret. simpl_fields.
  rewrite Hloop. cbn [head].
  destruct (upto <=? to (dp_range h)) eqn:Hle.
  - apply N.leb_le in Hle.
    eexists. split; [reflexivity|]. simpl_fields. rewrite update_head.
    split; [exact Hsplit|]. split; [exact Hrem|]. split; [exact Hkept|].
    split; [reflexivity|].
    match goal with
    | |- begin ?d' = _ /\ _ =>
        assert (Hb : begin d' = N.max upto (from (dp_range h)))
    end.
    { unfold begin. simpl_fields. cbn [head].
      now rewrite (erase_from upto h Hle). }
    rewrite !Hb. split; [reflexivity|].
    destruct removed as [|x removed'].
    + rewrite (Hfirst eq_refl). lia.
    + assert (from (dp_range h) <= upto) by (apply Hafter; congruence). lia.
  - apply N.leb_gt in Hle.
    eexists. split; [reflexivity|]. simpl_fields.
    split; [exact Hsplit|]. split; [exact Hrem|]. split; [exact Hkept|].
    split; [reflexivity|].
    match goal with
    | |- begin ?d' = _ /\ _ =>
        assert (Hb : begin d' = from (dp_range h)) by reflexivity
    end.
    rewrite !Hb. split; [reflexivity|]. lia.
Qed.

Lemma erase_spec_witness :
  exists d',
    erase 8 (Sample.domain
               [(0, Sample.part 0 5 true); (6, Sample.part 6 9 true);
                (10, Sample.part 10 12 false)] 12) = Returned true d'
    /\ _parts d' <> []
    /\ begin d' <= 8.
Proof.
  destruct (erase_spec 8
              (Sample.domain
                 [(0, Sample.part 0 5 true); (6, Sample.part 6 9 true);
                  (10, Sample.part 10 12 false)] 12))
    as (removed & k & h & rest & d' & Hrun & _ & _ & _ & Hparts & _ & _ & _ & Hle).
  - discriminate.
  - repeat constructor; vm_compute; discriminate.
  - simpl. repeat split; vm_compute; discriminate.
  - exists d'. split; [exact Hrun|]. split.
    + rewrite Hparts. discriminate.
    + apply Hle. vm_compute. discriminate.
Defined.

(** C4 fails as stated.  With one segment of range 5..10, [erase 3] returns
    and leaves the segment as it is: the first range start is 5 after the
    call, which is not at most 3. *)
Lemma erase_below_first_start :
  exists d',
    erase 3 (Sample.domain [(5, Sample.part 5 10 false)] 10) = Returned true d'
    /\ begin (Sample.domain [(5, Sample.part 5 10 false)] 10) = 5
    /\ begin d' = 5
    /\ ~ (begin d' <= 3).
Proof.
  eexists. split; [reflexivity|]. split; [reflexivity|].
  split; [reflexivity|]. vm_compute. intros H. apply H. reflexivity.
Qed.

(** ** C8: scanDir *)

Section CStrings.

Lemma streq_eq (a b : cstring) : C.streq a b = true <-> a = b.
Proof.
  revert b. induction a as [|x a IH]; intros [|y b]; simpl;
    try (split; [discriminate | congruence]); [tauto|].
  rewrite andb_true_iff, IH. split.
  - intros [Hxy ->]. apply Ascii.eqb_eq in Hxy. now subst.
  - intros [= -> ->]. split; [apply Ascii.eqb_refl | reflexivity].
Qed.

Lemma streq_refl (a : cstring) : C.streq a a = true.
Proof. now apply streq_eq. Qed.

Lemma strneq_prefix (a b : cstring) : C.strneq (a ++ b) a (length a) = true.
Proof.
  induction a as [|x a IH]; simpl; [reflexivity|].
  now rewrite Ascii.eqb_refl, IH.
Qed.

Lemma digit_cases (v : N) :
  v < 10 ->
  v = 0 \/ v = 1 \/ v = 2 \/ v = 3 \/ v = 4 \/ v = 5 \/ v = 6 \/ v = 7
  \/ v = 8 \/ v = 9.
Proof. lia. Qed.

Lemma digit_digitChar (v : N) : v < 10 -> C.digit (C.digitChar v) = Some v.
Proof.
  intros H. destruct (digit_cases v H) as
    [->|[->|[->|[->|[->|[->|[->|[->|[->| ->]]]]]]]]]; reflexivity.
Qed.

Lemma digitChar_plain (v : N) :
  v < 10 ->
  C.isspace (C.digitChar v) = false
  /\ Ascii.eqb (C.digitChar v) "-" = false
  /\ Ascii.eqb (C.digitChar v) "+" = false.
Proof.
  intros H. destruct (digit_cases v H) as
    [->|[->|[->|[->|[->|[->|[->|[->|[->| ->]]]]]]]]];
    repeat split; reflexivity.
Qed.

Lemma digitsValue_digits (ds : list N) (acc : N) :
  Forall (fun v => v < 10) ds ->
  C.digitsValue (map C.digitChar ds) acc = digitsNumber ds acc.
Proof.
  intros H. revert acc. induction H as [|v ds Hv _ IH]; intros acc;
    [reflexivity|].
  simpl. rewrite (digit_digitChar v Hv). apply IH.
Qed.

Lemma decimalDigits_lt10 (fuel : nat) (n : N) :
  Forall (fun v => v < 10) (C.decimalDigits fuel n).
Proof.
  revert n. induction fuel as [|fuel IH]; intros n; simpl; [constructor|].
  destruct (n <? 10) eqn:Hn.
  - apply N.ltb_lt in Hn. repeat constructor. exact Hn.
  - apply Forall_app. split; [apply IH|].
    repeat constructor. apply N.mod_lt. discriminate.
Qed.

Lemma decimalDigits_nonempty (fuel : nat) (n : N) :
  C.decimalDigits (S fuel) n <> [].
Proof.
  simpl. destruct (n <? 10); [discriminate|].
  destruct (C.decimalDigits fuel (n / 10)); discriminate.
Qed.

Lemma decimalDigits_value (fuel : nat) (n : N) :
  n < 2 ^ N.of_nat fuel ->
  digitsNumber (C.decimalDigits fuel n) 0 = n.
Proof.
  revert n. induction fuel as [|fuel IH]; intros n Hn.
  - simpl in Hn. assert (n = 0) by lia. now subst.
  - cbn [C.decimalDigits]. destruct (n <? 10) eqn:H10.
    + unfold digitsNumber. simpl. lia.
    + apply N.ltb_ge in H10.
      unfold digitsNumber. rewrite fold_left_app. simpl.
      fold (digitsNumber (C.decimalDigits fuel (n / 10)) 0).
      rewrite IH.
      * rewrite (N.div_mod n 10) at 3 by discriminate. reflexivity.
      * rewrite Nat2N.inj_succ, N.pow_succ_r' in Hn.
        apply N.Div0.div_lt_upper_bound. lia.
Qed.

Lemma digitsNumber_zeros (k : nat) (ds : list N) :
  digitsNumber (repeat 0 k ++ ds) 0 = digitsNumber ds 0.
Proof. induction k as [|k IH]; [reflexivity | exact IH]. Qed.

Lemma decimalDigits_length_le (k fuel : nat) (n : N) :
  n < 10 ^ N.of_nat (S k) -> (length (C.decimalDigits fuel n) <= S k)%nat.
Proof.
  revert k n. induction fuel as [|fuel IH]; intros k n Hn; simpl; [lia|].
  destruct (n <? 10) eqn:H10; [simpl; lia|].
  apply N.ltb_ge in H10. rewrite length_app. simpl.
  destruct k as [|k].
  - change (10 ^ N.of_nat 1) with 10 in Hn. lia.
  - assert (n / 10 < 10 ^ N.of_nat (S k)).
    { apply N.Div0.div_lt_upper_bound.
      rewrite (Nat2N.inj_succ (S k)), N.pow_succ_r' in Hn. exact Hn. }
    specialize (IH k (n / 10) H). lia.
Qed.

Lemma decimalDigits_length_gt (k fuel : nat) (n : N) :
  10 ^ N.of_nat k <= n -> n < 2 ^ N.of_nat fuel ->
  (k < length (C.decimalDigits fuel n))%nat.
Proof.
  revert k n. induction fuel as [|fuel IH]; intros k n Hlo Hhi.
  - simpl in Hhi. assert (10 ^ N.of_nat k <> 0) by (apply N.pow_nonzero; discriminate).
    lia.
  - cbn [C.decimalDigits]. destruct (n <? 10) eqn:H10.
    + apply N.ltb_lt in H10. destruct k as [|k]; [simpl; lia|].
      rewrite Nat2N.inj_succ, N.pow_succ_r' in Hlo.
      assert (10 ^ N.of_nat k <> 0) by (apply N.pow_nonzero; discriminate). lia.
    + apply N.ltb_ge in H10. rewrite length_app. simpl.
      destruct k as [|k]; [lia|].
      assert (Hlo' : 10 ^ N.of_nat k <= n / 10).
      { apply N.div_le_lower_bound; [discriminate|].
        rewrite Nat2N.inj_succ, N.pow_succ_r' in Hlo. exact Hlo. }
      assert (Hhi' : n / 10 < 2 ^ N.of_nat fuel).
      { rewrite Nat2N.inj_succ, N.pow_succ_r' in Hhi.
        apply N.Div0.div_lt_upper_bound. lia. }
      specialize (IH k (n / 10) Hlo' Hhi'). lia.
Qed.

Lemma strtoull_le_max (s : cstring) : C.strtoull s <= C.ULLONG_MAX.
Proof.
  unfold C.strtoull.
  match goal with
  | |- context [C.digitsValue (snd ?x) 0] => generalize x
  end.
  intros [neg r]. cbn [fst snd].
  destruct (C.ULLONG_MAX <? C.digitsValue r 0) eqn:Hsat; [lia|].
  apply N.ltb_ge in Hsat. destruct neg; [|exact Hsat].
  assert (Hmod : (2 ^ 64 - C.digitsValue r 0) mod 2 ^ 64 < 2 ^ 64)
    by (apply N.mod_lt; discriminate).
  unfold C.ULLONG_MAX. revert Hmod.
  generalize ((2 ^ 64 - C.digitsValue r 0) mod 2 ^ 64).
  intros m Hm. change (2 ^ 64) with 18446744073709551616 in Hm. lia.
Qed.

Lemma strtoull_fmt016 (n : N) :
  n <= C.ULLONG_MAX -> C.strtoull (C.fmt016 n) = n.
Proof.
  intros Hn. unfold C.fmt016.
  set (ds := repeat 0 (16 - length (C.decimalDigits 64 n))
             ++ C.decimalDigits 64 n).
  assert (Hall : Forall (fun v => v < 10) ds).
  { apply Forall_app. split; [|apply decimalDigits_lt10].
    apply Forall_forall. intros v Hv. apply list_elem_of_In in Hv.
    apply repeat_spec in Hv. subst. reflexivity. }
  assert (Hval : digitsNumber ds 0 = n).
  { unfold ds. rewrite digitsNumber_zeros. apply decimalDigits_value.
    unfold C.ULLONG_MAX in Hn.
    change (2 ^ N.of_nat 64) with 18446744073709551616. lia. }
  destruct ds as [|v ds'] eqn:Hds.
  { exfalso. apply app_eq_nil in Hds as [_ Hds].
    now apply (decimalDigits_nonempty 63 n). }
  assert (Hv : v < 10) by now apply Forall_inv in Hall.
  destruct (digitChar_plain v Hv) as (Hsp & Hminus & Hplus).
  unfold C.strtoull.
  cbn [map C.skipSpaces]. rewrite Hsp, Hminus, Hplus. cbn [fst snd].
  change (C.digitChar v :: map C.digitChar ds')
    with (map C.digitChar (v :: ds')).
  rewrite (digitsValue_digits (v :: ds') 0 Hall), Hval.
  apply N.ltb_ge in Hn. now rewrite Hn.
Qed.

Lemma fmt016_length (n : N) :
  length (C.fmt016 n) = Nat.max 16 (length (C.decimalDigits 64 n)).
Proof.
  unfold C.fmt016. rewrite length_map, length_app, repeat_length. lia.
Qed.

End CStrings.

Lemma scanEntry_accepts (name ename : cstring) (num : SerialNum) :
  scanEntry name ename = Some num
  <-> num <= C.ULLONG_MAX /\ ename = partFileName name num.
Proof.
  split.
  - unfold scanEntry. intros H.
    destruct (C.streq ename ["."%char] || C.streq ename ["."%char; "."%char]);
      [discriminate|].
    destruct (negb (C.strneq ename name (length name))); [discriminate|].
    destruct (negb (Ascii.eqb (C.at_ ename (length name)) "-"));
      [discriminate|].
    destruct (C.streq (partFileName name
                         (C.strtoull (drop (length name + 1) ename))) ename)
      eqn:Hcheck; [|discriminate].
    cbn [negb] in H. injection H as <-.
    split; [apply strtoull_le_max|].
    symmetry. now apply streq_eq.
  - intros [Hmax ->]. unfold scanEntry.
    assert (Hlen : (16 <= length (C.fmt016 num))%nat)
      by (rewrite fmt016_length; lia).
    assert (Hdot : C.streq (partFileName name num) ["."%char] = false).
    { apply not_true_is_false. intros Heq. apply streq_eq in Heq.
      apply (f_equal (@length ascii)) in Heq. unfold partFileName in Heq.
      rewrite length_app in Heq. simpl in Heq. lia. }
    assert (Hdots : C.streq (partFileName name num) ["."%char; "."%char]
                    = false).
    { apply not_true_is_false. intros Heq. apply streq_eq in Heq.
      apply (f_equal (@length ascii)) in Heq. unfold partFileName in Heq.
      rewrite length_app in Heq. simpl in Heq. lia. }
    rewrite Hdot, Hdots. cbn [orb].
    unfold partFileName at 1. rewrite strneq_prefix. cbn [negb].
    unfold C.at_, partFileName at 1. rewrite nth_middle.
    rewrite Ascii.eqb_refl. cbn [negb].
    assert (Hdrop : drop (length name + 1) (partFileName name num)
                    = C.fmt016 num).
    { unfold partFileName.
      change (name ++ "-"%char :: C.fmt016 num)
        with (name ++ ["-"%char] ++ C.fmt016 num).
      rewrite app_assoc.
      replace (length name + 1)%nat with (length (name ++ ["-"%char]))
        by (rewrite length_app; reflexivity).
      apply drop_app_length. }
    rewrite Hdrop, (strtoull_fmt016 num Hmax), streq_refl. reflexivity.
Qed.

(** C8, as the code has it.  An entry is taken exactly when it is the
    domain name, a '-', and a 64-bit number in decimal padded with zeros to
    a width of 16; the number is the serial pushed.  The padded number has
    exactly 16 digits below 10^16 and more than 16 from 10^16 on.  The
    result holds the serials of the entries taken, each as often as its
    entry occurs, in ascending order. *)
Theorem scanDir_spec (name : cstring) (listing : list cstring) :
  (forall ename num,
      scanEntry name ename = Some num
      <-> num <= C.ULLONG_MAX /\ ename = partFileName name num)
  /\ (forall num, num < 10 ^ 16 -> length (C.fmt016 num) = 16%nat)
  /\ (forall num, 10 ^ 16 <= num <= C.ULLONG_MAX ->
        (16 < length (C.fmt016 num))%nat)
  /\ StronglySorted N.le (scanDir name listing)
  /\ Permutation (scanDir name listing) (omap (scanEntry name) listing)
  /\ (forall num,
        In num (scanDir name listing)
        <-> num <= C.ULLONG_MAX /\ In (partFileName name num) listing).
Proof.
  split; [apply scanEntry_accepts|].
  split.
  { intros num Hnum. rewrite fmt016_length.
    assert (length (C.decimalDigits 64 num) <= 16)%nat
      by (apply decimalDigits_length_le; exact Hnum).
    lia. }
  split.
  { intros num [Hlo Hhi]. rewrite fmt016_length.
    assert (16 < length (C.decimalDigits 64 num))%nat.
    { apply decimalDigits_length_gt; [exact Hlo|].
      unfold C.ULLONG_MAX in Hhi.
      change (2 ^ N.of_nat 64) with 18446744073709551616. lia. }
    lia. }
  split; [apply StronglySorted_merge_sort; apply _|].
  split; [apply merge_sort_Permutation|].
  intros num. unfold scanDir.
  rewrite <- list_elem_of_In, merge_sort_Permutation, list_elem_of_omap.
  split.
  - intros (ename & Hin & Hacc). apply scanEntry_accepts in Hacc as [Hmax ->].
    split; [exact Hmax | now apply list_elem_of_In].
  - intros [Hmax Hin]. exists (partFileName name num).
    split; [now apply list_elem_of_In | now apply scanEntry_accepts].
Qed.

Lemma scanDir_spec_witness :
  scanEntry (list_ascii_of_string "dom")
    (list_ascii_of_string "dom-0000000000000012") = Some 12
  /\ length (C.fmt016 12) = 16%nat
  /\ (16 < length (C.fmt016 (10 ^ 16)))%nat
  /\ In 12 (scanDir (list_ascii_of_string "dom")
              [list_ascii_of_string "dom-0000000000000012";
               list_ascii_of_string "..";
               list_ascii_of_string "dom-0000000000000003";
               list_ascii_of_string "dom-7"]).
Proof.
  destruct (scanDir_spec (list_ascii_of_string "dom")
              [list_ascii_of_string "dom-0000000000000012";
               list_ascii_of_string "..";
               list_ascii_of_string "dom-0000000000000003";
               list_ascii_of_string "dom-7"])
    as (Hacc & Hfix & Hlong & _ & _ & Hin).
  split; [|split; [|split]].
  - apply Hacc. split; [vm_compute; discriminate | reflexivity].
  - apply Hfix. reflexivity.
  - apply Hlong. split; vm_compute; discriminate.
  - apply Hin. split; [vm_compute; discriminate|]. left. reflexivity.
Defined.

(** C8 fails as stated.  The entry "dom-10000000000000000" is taken for the
    domain "dom", with serial 10^16, although what follows the '-' has 17
    digits: the entry is not the name, a '-' and 16 characters. *)
Lemma scanEntry_takes_17_digits :
  scanEntry (list_ascii_of_string "dom")
    (list_ascii_of_string "dom-10000000000000000") = Some (10 ^ 16)
  /\ ~ exists digits : cstring,
         length digits = 16%nat
         /\ list_ascii_of_string "dom-10000000000000000"
            = list_ascii_of_string "dom" ++ "-"%char :: digits.
Proof.
  split; [vm_compute; reflexivity|].
  intros (digits & Hlen & Heq).
  apply (f_equal (@length ascii)) in Heq.
  rewrite length_app in Heq. simpl in Heq. lia.
Qed.

(** ** The segment map *)

Section PartMapFacts.
Implicit Types (m init : DomainPartList) (k key : SerialNum).

Lemma update_absent k f m :
  Forall (fun e => fst e <> k) m -> PartMap.update k f m = m.
Proof.
  induction 1 as [|[k' v] m Hk _ IH]; [reflexivity|].
  simpl in *. destruct (k =? k') eqn:E.
  - apply N.eqb_eq in E. congruence.
  - now rewrite IH.
Qed.

Lemma update_keys k f m :
  PartMap.keys (PartMap.update k f m) = PartMap.keys m.
Proof.
  unfold PartMap.keys.
  induction m as [|[k' v] m IH]; [reflexivity|].
  simpl. destruct (k =? k'); simpl; [reflexivity | now rewrite IH].
Qed.

Lemma update_snoc_tail key f dp init :
  Forall (fun e => fst e < key) init ->
  PartMap.update key f (init ++ [(key, dp)]) = init ++ [(key, f dp)].
Proof.
  induction 1 as [|[k' v] m Hk _ IH]; simpl.
  - now rewrite N.eqb_refl.
  - simpl in Hk. destruct (key =? k') eqn:E.
    + apply N.eqb_eq in E. lia.
    + now rewrite IH.
Qed.

(** Updating under any key leaves a last segment of another key alone,
    and changes a last segment of that key only when no earlier one has
    it. *)
Lemma update_snoc k f key dp init :
  Forall (fun e => fst e < key) init ->
  PartMap.update k f (init ++ [(key, dp)])
  = PartMap.update k f init ++ [(key, if k =? key then f dp else dp)].
Proof.
  intros Hinit. destruct (k =? key) eqn:E.
  - apply N.eqb_eq in E. subst k.
    rewrite update_snoc_tail by exact Hinit.
    rewrite update_absent; [reflexivity|].
    revert Hinit. apply List.Forall_impl. intros e. lia.
  - clear Hinit. induction init as [|[k' v] m IH]; simpl.
    + now rewrite E.
    + destruct (k =? k'); [reflexivity | now rewrite IH].
Qed.

Lemma update_below key k f init :
  Forall (fun e => fst e < key) init ->
  Forall (fun e => fst e < key) (PartMap.update k f init).
Proof.
  intros H. apply (proj1 (List.Forall_map fst (fun x => x < key) _)).
  change (map fst (PartMap.update k f init))
    with (PartMap.keys (PartMap.update k f init)).
  rewrite update_keys.
  now apply (proj2 (List.Forall_map fst (fun x => x < key) _)).
Qed.

Lemma assign_above k v m :
  Forall (fun e => fst e < k) m -> PartMap.assign k v m = m ++ [(k, v)].
Proof.
  induction 1 as [|[k' v'] m Hk _ IH]; [reflexivity|].
  simpl in *.
  replace (k <? k') with false by (symmetry; apply N.ltb_ge; lia).
  replace (k =? k') with false by (symmetry; apply N.eqb_neq; lia).
  now rewrite IH.
Qed.

End PartMapFacts.

(** ** Waiting for a sync *)

Lemma waitPendingSync_idle (d : Domain) :
  _pendingSync d = false -> waitPendingSync d = Returned tt d.
Proof.
  intros H. unfold waitPendingSync.
  destruct (ex_tasks (_commitExecutor d)); simpl; now rewrite H.
Qed.

Lemma waitPendingSync_one (d : Domain) (part : SerialNum) :
  _pendingSync d = true ->
  ex_tasks (_commitExecutor d) = [part] ->
  waitPendingSync d
  = Returned tt
      (runSync part
         (with_commitExecutor
            {| ex_tasks := []; ex_closed := ex_closed (_commitExecutor d) |}
            d)).
Proof.
  intros Hp Hq. unfold waitPendingSync. rewrite Hq. simpl. now rewrite Hp.
Qed.

(** ** C3: rotation in doCommit *)

Lemma triggerSyncNow_run (d : Domain) (init : DomainPartList)
    (key : SerialNum) (dp : DomainPart) :
  _pendingSync d = false ->
  _parts d = init ++ [(key, dp)] ->
  ex_closed (_commitExecutor d) = false ->
  triggerSyncNow d
  = Returned tt
      (with_commitExecutor
         {| ex_tasks := ex_tasks (_commitExecutor d) ++ [key];
            ex_closed := false |}
         (with_pendingSync true d)).
Proof.
  intros Hp Hparts Hopen. unfold triggerSyncNow, bind, get, modify, ret.
  rewrite Hp. simpl. rewrite Hparts, last_snoc.
  unfold Executor.execute. simpl_fields. rewrite Hopen. reflexivity.
Qed.

Lemma doCommit_rotation_quiet (chunk : Chunk) (d : Domain)
    (init : DomainPartList) (key : SerialNum) (dp : DomainPart)
    (first : SerialNum) :
  _parts d = init ++ [(key, dp)] ->
  Forall (fun e => fst e < key) init ->
  Packet.firstSerial (Chunk.getPacket chunk) = Some first ->
  key < first ->
  getPartSizeLimit (_config d) < DomainPart.byteSize dp ->
  ex_closed (_commitExecutor d) = false ->
  ex_tasks (_commitExecutor d) = [] ->
  _pendingSync d = false ->
  exists d',
    doCommit chunk d = Returned tt d'
    /\ io d'
       = io d ++ [EvSync key; EvClose key; EvOpen first; EvDirSync;
                  EvWrite first first]
              ++ (if getFSyncOnCommit (_config d) then [EvSync first] else [])
    /\ _pendingSync d' = false
    /\ ex_tasks (_commitExecutor d') = []
    /\ _parts d'
       = init
         ++ [(key, DomainPart.close (DomainPart.sync dp));
             (first,
              {| dp_range := {| from := first;
                                to := to (range (Chunk.getPacket chunk)) |};
                 dp_size := Packet.size (Chunk.getPacket chunk);
                 dp_byteSize := Packet.sizeBytes (Chunk.getPacket chunk);
                 dp_synced := if getFSyncOnCommit (_config d)
                              then to (range (Chunk.getPacket chunk)) else 0;
                 dp_closed := false; dp_deleted := false |})]
    /\ writeFrame d d'.
Proof.
  intros Hparts Hinit Hfirst Hkey Hbig Hopen Hqueue Hquiet.
  unfold doCommit. cbv zeta.
  unfold bind at 1. unfold get at 1. rewrite Hparts, last_snoc, Hfirst.
  unfold bind at 1. unfold get at 1.
  apply N.ltb_lt in Hbig. rewrite Hbig.
  unfold bind at 1. unfold bind at 1.
  rewrite (waitPendingSync_idle d Hquiet).
  unfold bind at 1.
  rewrite (triggerSyncNow_run d init key dp Hquiet Hparts Hopen).
  unfold bind at 1.
  rewrite (waitPendingSync_one _ key);
    [|reflexivity|simpl_fields; now rewrite Hqueue].
  match goal with |- context [runSync key ?x] => set (d2 := runSync key x) end.
  assert (Hparts2 : _parts d2 = init ++ [(key, DomainPart.sync dp)]).
  { unfold d2, runSync. simpl_fields. rewrite Hparts.
    apply update_snoc_tail, Hinit. }
  assert (Hio2 : io d2 = io d ++ [EvSync key]) by reflexivity.
  assert (Hcfg2 : _config d2 = _config d) by reflexivity.
  assert (Hp2 : _pendingSync d2 = false) by reflexivity.
  assert (Hq2 : ex_tasks (_commitExecutor d2) = []) by reflexivity.
  assert (Hframe2 : writeFrame d d2).
  { unfold writeFrame, d2, runSync. simpl_fields.
    repeat split; try reflexivity. now rewrite Hopen. }
  clearbody d2.
  assert (Hbelow : Forall (fun e : SerialNum * DomainPart => fst e < first)
                     (init ++ [(key, DomainPart.close (DomainPart.sync dp))])).
  { apply Forall_app. split.
    - revert Hinit. apply List.Forall_impl. intros e. lia.
    - repeat constructor. exact Hkey. }
  unfold bind, modify, get, ret, cleanSessions. simpl_fields.
  rewrite Hparts2, (update_snoc_tail key _ _ init Hinit).
  rewrite (assign_above first _ _ Hbelow), last_snoc.
  unfold DomainPart.commit, DomainPart.new. cbn [dp_closed].
  simpl_fields.
  cbn [dp_range dp_size dp_byteSize dp_synced dp_deleted from to N.add].
  rewrite (update_snoc_tail first _ _ _ Hbelow), Hcfg2.
  destruct (getFSyncOnCommit (_config d)).
  - eexists. split; [reflexivity|]. unfold writeFrame in *. simpl_fields.
    rewrite (update_snoc_tail first _ _ _ Hbelow), Hio2, Hp2, Hq2.
    split; [now rewrite <- !app_assoc|].
    split; [reflexivity|]. split; [reflexivity|].
    split; [now rewrite <- app_assoc | exact Hframe2].
  - eexists. split; [reflexivity|]. unfold writeFrame in *. simpl_fields.
    rewrite Hio2, Hp2, Hq2.
    split; [now rewrite <- !app_assoc|].
    split; [reflexivity|]. split; [reflexivity|].
    split; [now rewrite <- app_assoc | exact Hframe2].
Qed.

Lemma doCommit_rotation_any (chunk : Chunk) (d : Domain)
    (init : DomainPartList) (key : SerialNum) (dp : DomainPart)
    (first pending : SerialNum) :
  _parts d = init ++ [(key, dp)] ->
  Forall (fun e => fst e < key) init ->
  Packet.firstSerial (Chunk.getPacket chunk) = Some first ->
  key < first ->
  getPartSizeLimit (_config d) < DomainPart.byteSize dp ->
  ex_closed (_commitExecutor d) = false ->
  ex_tasks (_commitExecutor d) = (if _pendingSync d then [pending] else []) ->
  let packet := Chunk.getPacket chunk in
  let fsync := getFSyncOnCommit (_config d) in
  let written :=
    {| dp_range := {| from := first; to := to (range packet) |};
       dp_size := Packet.size packet;
       dp_byteSize := Packet.sizeBytes packet;
       dp_synced := if fsync then to (range packet) else 0;
       dp_closed := false; dp_deleted := false |} in
  exists d',
    doCommit chunk d = Returned tt d'
    /\ io d'
       = io d ++ (if _pendingSync d then [EvSync pending] else [])
              ++ [EvSync key; EvClose key; EvOpen first; EvDirSync;
                  EvWrite first first]
              ++ (if fsync then [EvSync first] else [])
    /\ _pendingSync d' = false
    /\ ex_tasks (_commitExecutor d') = []
    /\ _parts d'
       = (if _pendingSync d
          then PartMap.update pending DomainPart.sync init else init)
         ++ [(key, DomainPart.close (DomainPart.sync dp)); (first, written)]
    /\ writeFrame d d'.
Proof.
  intros Hparts Hinit Hfirst Hkey Hbig Hopen Hqueue packet fsync written.
  subst packet fsync written.
  destruct (_pendingSync d) eqn:Hp.
  - set (d1 := runSync pending
                 (with_commitExecutor
                    {| ex_tasks := [];
                       ex_closed := ex_closed (_commitExecutor d) |} d)).
    set (dp1 := if pending =? key then DomainPart.sync dp else dp).
    assert (Hparts1 : _parts d1
                      = PartMap.update pending DomainPart.sync init
                        ++ [(key, dp1)]).
    { unfold d1, runSync. simpl_fields. rewrite Hparts.
      apply update_snoc, Hinit. }
    assert (Hsame : DomainPart.byteSize dp1 = DomainPart.byteSize dp)
      by (unfold dp1; destruct (pending =? key); reflexivity).
    assert (Hsync : DomainPart.sync dp1 = DomainPart.sync dp)
      by (unfold dp1; destruct (pending =? key); reflexivity).
    assert (Hsteps : doCommit chunk d = doCommit chunk d1).
    { assert (Hbig' := proj2 (N.ltb_lt _ _) Hbig).
      etransitivity.
      - unfold doCommit. cbv zeta.
        unfold bind at 1. unfold get at 1. rewrite Hparts, last_snoc, Hfirst.
        unfold bind at 1. unfold get at 1. rewrite Hbig'.
        unfold bind at 1. unfold bind at 1.
        rewrite (waitPendingSync_one d pending Hp Hqueue). fold d1.
        reflexivity.
      - symmetry. unfold doCommit. cbv zeta.
        unfold bind at 1. unfold get at 1. rewrite Hparts1, last_snoc, Hfirst.
        unfold bind at 1. unfold get at 1.
        change (_config d1) with (_config d). rewrite Hsame, Hbig'.
        unfold bind at 1. unfold bind at 1.
        rewrite (waitPendingSync_idle d1 eq_refl). reflexivity. }
    destruct (doCommit_rotation_quiet chunk d1
                (PartMap.update pending DomainPart.sync init) key dp1 first)
      as (d' & Hrun & Hio & Hpend & Htasks & Hfinal & Hframe);
      try reflexivity; try assumption.
    { apply update_below, Hinit. }
    { rewrite Hsame. exact Hbig. }
    exists d'. rewrite Hsteps. split; [exact Hrun|].
    split; [rewrite Hio; unfold d1, runSync; simpl_fields;
            now rewrite <- !app_assoc|].
    split; [exact Hpend|]. split; [exact Htasks|].
    split; [rewrite Hfinal, Hsync; reflexivity|].
    exact Hframe.
  - destruct (doCommit_rotation_quiet chunk d init key dp first)
      as (d' & Hrun & Hio & Hpend & Htasks & Hfinal & Hframe);
      try assumption.
    exists d'. split; [exact Hrun|]. split; [exact Hio|].
    split; [exact Hpend|]. split; [exact Htasks|].
    split; [exact Hfinal | exact Hframe].
Qed.

(** C3. Let the single writer process a chunk while the last segment [key]
    is over the size limit, the chunk's first serial being above [key], and
    the commit executor running with at most the one [Sync] in flight.
    Then [doCommit] returns, and what it did, in order, is: the sync in
    flight (if any) ran; a sync of segment [key] ran; segment [key] was
    closed; a segment was opened under the chunk's first serial and the
    directory synced; the packet was written to that new segment; the new
    segment was synced if fsync-on-commit is set.  No sync is pending
    afterwards.  The segment map ends with segment [key], closed and synced
    up to the end of its range, followed by the new segment, open, holding
    the packet. *)
Theorem doCommit_rotation (chunk : Chunk) (d : Domain)
    (init : DomainPartList) (key : SerialNum) (dp : DomainPart)
    (first pending : SerialNum) :
  _parts d = init ++ [(key, dp)] ->
  Forall (fun e => fst e < key) init ->
  Packet.firstSerial (Chunk.getPacket chunk) = Some first ->
  key < first ->
  getPartSizeLimit (_config d) < DomainPart.byteSize dp ->
  ex_closed (_commitExecutor d) = false ->
  ex_tasks (_commitExecutor d) = (if _pendingSync d then [pending] else []) ->
  let packet := Chunk.getPacket chunk in
  let fsync := getFSyncOnCommit (_config d) in
  let written :=
    {| dp_range := {| from := first; to := to (range packet) |};
       dp_size := Packet.size packet;
       dp_byteSize := Packet.sizeBytes packet;
       dp_synced := if fsync then to (range packet) else 0;
       dp_closed := false; dp_deleted := false |} in
  exists d',
    doCommit chunk d = Returned tt d'
    /\ io d'
       = io d ++ (if _pendingSync d then [EvSync pending] else [])
              ++ [EvSync key; EvClose key; EvOpen first; EvDirSync;
                  EvWrite first first]
              ++ (if fsync then [EvSync first] else [])
    /\ _pendingSync d' = false
    /\ ex_tasks (_commitExecutor d') = []
    /\ _parts d'
       = (if _pendingSync d
          then PartMap.update pending DomainPart.sync init else init)
         ++ [(key, DomainPart.close (DomainPart.sync dp)); (first, written)].
Proof.
  intros Hparts Hinit Hfirst Hkey Hbig Hopen Hqueue packet fsync written.
  destruct (doCommit_rotation_any chunk d init key dp first pending
              Hparts Hinit Hfirst Hkey Hbig Hopen Hqueue)
    as (d' & Hrun & Hio & Hpend & Htasks & Hfinal & _).
  exists d'. split; [exact Hrun|]. split; [exact Hio|].
  split; [exact Hpend|]. split; [exact Htasks | exact Hfinal].
Qed.

Lemma doCommit_rotation_witness :
  exists d',
    doCommit (Chunk.add 7%Z (Sample.packet 6 7) 1 Chunk.new)
      (with_commitExecutor {| ex_tasks := [0]; ex_closed := false |}
         (with_pendingSync true
            (Sample.domain [(0, Sample.part 0 5 false)] 5)))
    = Returned tt d'
    /\ io d' = [EvSync 0; EvSync 0; EvClose 0; EvOpen 6; EvDirSync;
                EvWrite 6 6; EvSync 6]
    /\ map fst (_parts d') = [0; 6]
    /\ end_ d' = 7.
Proof.
  destruct (doCommit_rotation
              (Chunk.add 7%Z (Sample.packet 6 7) 1 Chunk.new)
              (with_commitExecutor {| ex_tasks := [0]; ex_closed := false |}
                 (with_pendingSync true
                    (Sample.domain [(0, Sample.part 0 5 false)] 5)))
              [] 0 (Sample.part 0 5 false) 6 0)
    as (d' & Hrun & Hio & _ & _ & Hparts).
  - reflexivity.
  - constructor.
  - reflexivity.
  - reflexivity.
  - reflexivity.
  - reflexivity.
  - reflexivity.
  - exists d'. split; [exact Hrun|]. split; [exact Hio|].
    unfold end_. rewrite Hparts. split; reflexivity.
Defined.

(** ** C2: end() after the writer has drained *)

Lemma chain_weaken lo lo' e pend last :
  lo' <= lo -> chain lo e pend last -> chain lo' e pend last.
Proof.
  intros Hle. destruct pend as [|c rest]; simpl.
  - intros [H1 H2]. split; [lia | exact H2].
  - intros (first & Hf & Hlo & Hrest). exists first.
    split; [exact Hf|]. split; [lia | exact Hrest].
Qed.

Lemma chain_snoc lo e q last c first :
  chain lo e q last ->
  Packet.firstSerial (_data c) = Some first ->
  last < first -> first <= to (range (_data c)) ->
  chain lo e (q ++ [c]) (to (range (_data c))).
Proof.
  intros Hq Hf Hlast Hto. revert lo e Hq.
  induction q as [|c0 q IH]; intros lo e Hq; simpl in *.
  - destruct Hq as [Hlo _]. exists first.
    split; [exact Hf|]. split; [lia|]. split; [exact Hto|].
    split; [lia | reflexivity].
  - destruct Hq as (f0 & Hf0 & Hlo & Hle & Hrest). exists f0.
    split; [exact Hf0|]. split; [exact Hlo|]. split; [exact Hle|].
    apply IH, Hrest.
Qed.

Lemma chain_grow_last lo e q last c c' :
  chain lo e (q ++ [c]) last ->
  Packet.firstSerial (_data c') = Packet.firstSerial (_data c) ->
  last <= to (range (_data c')) ->
  chain lo e (q ++ [c']) (to (range (_data c'))).
Proof.
  intros Hq Hf Hlast. revert lo e Hq.
  induction q as [|c0 q IH]; intros lo e Hq; simpl in *.
  - destruct Hq as (first & Hfirst & Hlo & Hle & _ & Hend). exists first.
    split; [congruence|]. split; [exact Hlo|]. split; [lia|].
    split; [lia | reflexivity].
  - destruct Hq as (f0 & Hf0 & Hlo & Hle & Hrest). exists f0.
    split; [exact Hf0|]. split; [exact Hlo|]. split; [exact Hle|].
    apply IH, Hrest.
Qed.

Lemma wfPacket_nonempty p : wfPacket p -> Packet.empty p = false.
Proof.
  intros (first & Hf & _). unfold Packet.firstSerial, Packet.empty in *.
  destruct (entries p); [discriminate | reflexivity].
Qed.

Lemma merge_nonempty c p :
  Packet.empty p = false -> Packet.empty (Packet.merge c p) = false.
Proof.
  unfold Packet.empty. simpl. intros H.
  destruct (entries c); simpl; [exact H | reflexivity].
Qed.

Lemma merge_first_fresh c p :
  Packet.empty c = true ->
  Packet.firstSerial (Packet.merge c p) = Packet.firstSerial p.
Proof.
  unfold Packet.empty, Packet.firstSerial. simpl.
  destruct (entries c); [reflexivity | discriminate].
Qed.

Lemma merge_first_kept c p :
  Packet.empty c = false ->
  Packet.firstSerial (Packet.merge c p) = Packet.firstSerial c.
Proof.
  unfold Packet.empty, Packet.firstSerial. simpl.
  destruct (entries c); [discriminate | reflexivity].
Qed.

Lemma commit_run (now : Time) (p : Packet) (cb : DoneCallback) (d : Domain) :
  _lastSerial d < from (range p) ->
  Packet.empty p = false ->
  ex_closed (_singleCommiter d) = false ->
  let cur' := Chunk.add now p cb (_currentChunk d) in
  let d1 := with_currentChunk cur' (with_lastSerial (to (range p)) d) in
  commit now p cb d
  = Returned tt
      (if getChunkSizeLimit (_config d) <? Chunk.sizeBytes cur'
       then with_singleCommiter
              {| ex_tasks := ex_tasks (_singleCommiter d) ++ [cur'];
                 ex_closed := false |}
              (with_currentChunk Chunk.new d1)
       else d1).
Proof.
  intros Hlt Hne Hopen cur' d1. subst d1. unfoldM.
  replace (from (range p) <=? _lastSerial d) with false
    by (symmetry; apply N.leb_gt; exact Hlt).
  simpl_fields. fold cur'.
  destruct (getChunkSizeLimit (_config d) <? Chunk.sizeBytes cur');
    [|reflexivity].
  simpl_fields.
  assert (Hne' : Packet.empty (Chunk.getPacket cur') = false)
    by (apply merge_nonempty, Hne).
  rewrite Hne'. cbn [negb]. unfold Executor.execute. simpl_fields.
  rewrite Hopen. reflexivity.
Qed.

Lemma commit_consistent (now : Time) (p : Packet) (cb : DoneCallback)
    (d : Domain) :
  consistent d -> wfPacket p -> _lastSerial d < from (range p) ->
  exists d',
    commit now p cb d = Returned tt d'
    /\ consistent d' /\ _lastSerial d' = to (range p).
Proof.
  intros (init & key & tail & Hparts & Hinit & Htail & Hcx & Hsync & Hsc & Hchain)
         Hwf Hlt.
  assert (Hne := wfPacket_nonempty p Hwf).
  rewrite (commit_run now p cb d Hlt Hne Hsc).
  set (cur' := Chunk.add now p cb (_currentChunk d)).
  assert (Hcur' : Packet.empty (_data cur') = false)
    by (apply merge_nonempty, Hne).
  assert (Hpend : chain key (to (dp_range tail))
                    (ex_tasks (_singleCommiter d) ++ [cur'])
                    (to (range p))).
  { destruct Hwf as (first & Hf & Hfrom & Hto).
    unfold pendingChunks in Hchain.
    destruct (Packet.empty (_data (_currentChunk d))) eqn:Hcur.
    - rewrite app_nil_r in Hchain.
      apply (chain_snoc _ _ _ (_lastSerial d) cur' first); try assumption.
      + unfold cur'. simpl. rewrite (merge_first_fresh _ _ Hcur). exact Hf.
      + lia.
    - apply (chain_grow_last _ _ _ (_lastSerial d) (_currentChunk d) cur').
      + exact Hchain.
      + unfold cur'. simpl. apply merge_first_kept, Hcur.
      + change (to (range (_data cur'))) with (to (range p)). lia. }
  eexists. split; [reflexivity|].
  destruct (getChunkSizeLimit (_config d) <? Chunk.sizeBytes cur').
  - split; [|reflexivity].
    exists init, key, tail. simpl_fields.
    repeat (split; [assumption || reflexivity|]).
    unfold pendingChunks. simpl_fields. cbn [ex_tasks].
    change (Packet.empty (_data Chunk.new)) with true. cbn iota.
    rewrite app_nil_r. exact Hpend.
  - split; [|reflexivity].
    exists init, key, tail. simpl_fields.
    repeat (split; [assumption || reflexivity|]).
    unfold pendingChunks. simpl_fields. rewrite Hcur'. exact Hpend.
Qed.

Lemma commitIfStale_consistent (now : Time) (d : Domain) :
  consistent d ->
  exists b d',
    commitIfStale now d = Returned b d'
    /\ consistent d' /\ _lastSerial d' = _lastSerial d.
Proof.
  intros (init & key & tail & Hparts & Hinit & Htail & Hcx & Hsync & Hsc & Hchain).
  unfold commitIfStale, bind, get. 
  destruct ((getChunkAgeLimit (_config d) <? Chunk.age now (_currentChunk d))%Z
            && negb (Packet.empty (Chunk.getPacket (_currentChunk d))))
    eqn:Hstale.
  - apply andb_true_iff in Hstale as [_ Hne].
    apply negb_true_iff in Hne.
    unfoldM. simpl_fields. rewrite Hne. cbn [negb].
    unfold Executor.execute. simpl_fields. rewrite Hsc. simpl_fields.
    eexists _, _. split; [reflexivity|]. split; [|reflexivity].
    exists init, key, tail. simpl_fields.
    repeat (split; [assumption || reflexivity|]).
    unfold pendingChunks in *. simpl_fields. cbn [ex_tasks].
    change (Packet.empty (_data Chunk.new)) with true. cbn iota.
    unfold Chunk.getPacket in Hne. rewrite Hne in Hchain.
    rewrite app_nil_r. exact Hchain.
  - eexists _, _. split; [reflexivity|]. split; [|reflexivity].
    exists init, key, tail. repeat (split; [assumption|]). exact Hchain.
Qed.

Lemma syncStep_consistent (d : Domain) :
  consistent d ->
  exists d',
    syncStep d = Returned tt d'
    /\ consistent d' /\ _lastSerial d' = _lastSerial d.
Proof.
  intros (init & key & tail & Hparts & Hinit & Htail & Hcx & Hsync & Hsc & Hchain).
  unfold syncStep. destruct Hsync as [k Hq].
  destruct (_pendingSync d) eqn:Hp; rewrite Hq.
  - eexists. split; [reflexivity|]. split; [|reflexivity].
    exists (PartMap.update k DomainPart.sync init), key,
           (if k =? key then DomainPart.sync tail else tail).
    unfold runSync. simpl_fields.
    split; [rewrite Hparts; apply update_snoc, Hinit|].
    split; [apply update_below, Hinit|].
    split; [destruct (k =? key); exact Htail|].
    split; [exact Hcx|].
    split; [exists k; reflexivity|].
    split; [exact Hsc|].
    replace (to (dp_range (if k =? key then DomainPart.sync tail else tail)))
      with (to (dp_range tail)) by (destruct (k =? key); reflexivity).
    exact Hchain.
  - eexists. split; [reflexivity|]. split; [|reflexivity].
    exists init, key, tail. repeat (split; [assumption|]).
    split; [exists k; now rewrite Hp|]. split; assumption.
Qed.

Lemma doCommit_append (chunk : Chunk) (d : Domain)
    (init : DomainPartList) (key : SerialNum) (tail : DomainPart)
    (first : SerialNum) :
  _parts d = init ++ [(key, tail)] ->
  Forall (fun e => fst e < key) init ->
  Packet.firstSerial (Chunk.getPacket chunk) = Some first ->
  DomainPart.byteSize tail <= getPartSizeLimit (_config d) ->
  dp_closed tail = false ->
  exists d' tail',
    doCommit chunk d = Returned tt d'
    /\ _parts d' = init ++ [(key, tail')]
    /\ dp_closed tail' = false
    /\ to (dp_range tail') = to (range (Chunk.getPacket chunk))
    /\ io d'
       = io d ++ [EvWrite key first]
              ++ (if getFSyncOnCommit (_config d) then [EvSync key] else [])
    /\ _pendingSync d' = _pendingSync d
    /\ _commitExecutor d' = _commitExecutor d
    /\ writeFrame d d'.
Proof.
  intros Hparts Hinit Hfirst Hsmall Hopen.
  unfold doCommit. cbv zeta.
  unfold bind at 1. unfold get at 1. rewrite Hparts, last_snoc, Hfirst.
  unfold bind at 1. unfold get at 1.
  apply N.ltb_ge in Hsmall. rewrite Hsmall.
  unfold bind, get, modify, ret, cleanSessions. simpl_fields.
  rewrite Hparts, last_snoc.
  unfold DomainPart.commit. rewrite Hopen. simpl_fields.
  rewrite Hparts, (update_snoc_tail key _ _ init Hinit).
  destruct (getFSyncOnCommit (_config d)).
  - eexists _, _. split; [reflexivity|]. unfold writeFrame. simpl_fields.
    rewrite (update_snoc_tail key _ _ init Hinit).
    split; [reflexivity|]. split; [reflexivity|]. split; [reflexivity|].
    split; [now rewrite <- app_assoc|].
    repeat split; reflexivity.
  - eexists _, _. split; [reflexivity|]. unfold writeFrame. simpl_fields.
    split; [reflexivity|]. split; [reflexivity|]. split; [reflexivity|].
    split; [now rewrite app_nil_r|].
    repeat split; reflexivity.
Qed.

Lemma writerStep_consistent (d : Domain) :
  consistent d ->
  exists b d',
    writerStep d = Returned b d'
    /\ consistent d'
    /\ _lastSerial d' = _lastSerial d
    /\ _currentChunk d' = _currentChunk d
    /\ ex_tasks (_singleCommiter d') = tl (ex_tasks (_singleCommiter d))
    /\ b = match ex_tasks (_singleCommiter d) with
           | [] => false
           | _ :: _ => true
           end.
Proof.
  intros (init & key & tail & Hparts & Hinit & Htail & Hcx & Hsync & Hsc & Hchain).
  unfold writerStep. unfold bind at 1. unfold get at 1.
  destruct (ex_tasks (_singleCommiter d)) as [|chunk rest] eqn:Hq.
  { exists false, d. split; [reflexivity|]. split.
    - exists init, key, tail. repeat (split; [assumption|]). exact Hchain.
    - rewrite Hq. repeat split. }
  unfold pendingChunks in Hchain. rewrite Hq in Hchain.
  destruct Hchain as (first & Hfirst & Hlo & Hle & Hrest).
  unfold bind at 1. unfold modify at 1.
  set (d0 := with_singleCommiter
               {| ex_tasks := rest;
                  ex_closed := ex_closed (_singleCommiter d) |} d).
  destruct Hsync as [pending Hpending].
  unfold bind at 1.
  destruct (getPartSizeLimit (_config d) <? DomainPart.byteSize tail) eqn:Hbig.
  - apply N.ltb_lt in Hbig.
    destruct (doCommit_rotation_any chunk d0 init key tail first pending)
      as (d' & Hrun & _ & Hpend' & Htasks' & Hparts' & Hframe);
      try assumption.
    destruct Hframe as (Hcfg & Hcur & Hlast & Hsingle & Hclosed).
    rewrite Hrun. unfold ret.
    exists true, d'. split; [reflexivity|].
    split; [|split; [exact Hlast|split; [exact Hcur|
                      split; [now rewrite Hsingle|reflexivity]]]].
    eexists _, first, _.
    split; [rewrite Hparts'; apply (app_assoc _ [_] [_])|].
    split.
    { apply Forall_app. split.
      - assert (Hbelow : Forall (fun e : SerialNum * DomainPart => fst e < key)
                           (if _pendingSync d0
                            then PartMap.update pending DomainPart.sync init
                            else init))
          by (destruct (_pendingSync d0); [apply update_below|]; exact Hinit).
        revert Hbelow. apply List.Forall_impl. intros e. lia.
      - repeat constructor. exact Hlo. }
    split; [reflexivity|].
    split; [rewrite Hclosed; exact Hcx|].
    split; [exists pending; now rewrite Hpend', Htasks'|].
    split; [rewrite Hsingle; exact Hsc|].
    unfold pendingChunks. rewrite Hsingle, Hcur, Hlast. simpl_fields.
    cbn [ex_tasks dp_range to].
    apply (chain_weaken (to (range (_data chunk)))); [exact Hle | exact Hrest].
  - apply N.ltb_ge in Hbig.
    destruct (doCommit_append chunk d0 init key tail first)
      as (d' & tail' & Hrun & Hparts' & Hopen' & Hto' & _ & Hpend' & Hcx' & Hframe);
      try assumption.
    destruct Hframe as (Hcfg & Hcur & Hlast & Hsingle & Hclosed).
    rewrite Hrun. unfold ret.
    exists true, d'. split; [reflexivity|].
    split; [|split; [exact Hlast|split; [exact Hcur|
                      split; [now rewrite Hsingle|reflexivity]]]].
    exists init, key, tail'.
    split; [exact Hparts'|]. split; [exact Hinit|]. split; [exact Hopen'|].
    split; [rewrite Hcx'; exact Hcx|].
    split; [exists pending; rewrite Hcx', Hpend'; exact Hpending|].
    split; [rewrite Hsingle; exact Hsc|].
    unfold pendingChunks. rewrite Hsingle, Hcur, Hlast, Hto'. simpl_fields.
    cbn [ex_tasks].
    apply (chain_weaken (to (range (_data chunk)))); [lia | exact Hrest].
Qed.

Lemma step_consistent (a : Action) (d : Domain) :
  consistent d ->
  commitsValid [a] (_lastSerial d) ->
  exists d',
    step a d = Returned tt d'
    /\ consistent d' /\ _lastSerial d' = lastTo [a] (_lastSerial d).
Proof.
  intros Hc Hv. destruct a as [now p cb|now| |]; simpl in Hv |- *.
  - destruct Hv as (Hwf & Hlt & _). now apply commit_consistent.
  - destruct (commitIfStale_consistent now d Hc) as (b & d' & Hrun & H).
    exists d'. unfold bind, ret. now rewrite Hrun.
  - destruct (writerStep_consistent d Hc) as (b & d' & Hrun & Hc' & Hl & _).
    exists d'. unfold bind, ret. now rewrite Hrun.
  - now apply syncStep_consistent.
Qed.

Lemma run_consistent (acts : list Action) (d : Domain) :
  consistent d ->
  commitsValid acts (_lastSerial d) ->
  exists d',
    run acts d = Returned tt d'
    /\ consistent d' /\ _lastSerial d' = lastTo acts (_lastSerial d).
Proof.
  revert d. induction acts as [|a acts IH]; intros d Hc Hv.
  - exists d. repeat split. exact Hc.
  - destruct (step_consistent a d Hc) as (d1 & Hstep & Hc1 & Hl1).
    { destruct a; simpl in Hv |- *; tauto. }
    destruct (IH d1 Hc1) as (d' & Hrun & Hc' & Hl').
    { rewrite Hl1. destruct a; simpl in Hv |- *; tauto. }
    exists d'. simpl. unfold bind. rewrite Hstep.
    split; [exact Hrun|]. split; [exact Hc'|].
    rewrite Hl', Hl1. destruct a; reflexivity.
Qed.

Lemma flushOnDestroy_consistent (d : Domain) :
  consistent d ->
  exists b d',
    flushOnDestroy d = Returned b d'
    /\ consistent d'
    /\ _lastSerial d' = _lastSerial d
    /\ Packet.empty (_data (_currentChunk d')) = true.
Proof.
  intros (init & key & tail & Hparts & Hinit & Htail & Hcx & Hsync & Hsc & Hchain).
  unfoldM. simpl_fields. unfold pendingChunks, Chunk.getPacket in *.
  destruct (Packet.empty (_data (_currentChunk d))) eqn:Hcur; cbn [negb].
  - eexists _, _. split; [reflexivity|]. simpl_fields.
    split; [|split; reflexivity].
    exists init, key, tail. simpl_fields.
    repeat (split; [assumption|]). unfold pendingChunks. simpl_fields.
    exact Hchain.
  - unfold Executor.execute. simpl_fields. rewrite Hsc. simpl_fields.
    eexists _, _. split; [reflexivity|]. simpl_fields.
    split; [|split; reflexivity].
    exists init, key, tail. simpl_fields.
    repeat (split; [assumption || reflexivity|]).
    unfold pendingChunks. simpl_fields. cbn [ex_tasks].
    change (Packet.empty (_data Chunk.new)) with true. cbn iota.
    rewrite app_nil_r. exact Hchain.
Qed.

Lemma drain_consistent (fuel : nat) (d : Domain) :
  consistent d ->
  length (ex_tasks (_singleCommiter d)) = fuel ->
  exists d',
    drain fuel d = Returned tt d'
    /\ consistent d'
    /\ _lastSerial d' = _lastSerial d
    /\ _currentChunk d' = _currentChunk d
    /\ ex_tasks (_singleCommiter d') = [].
Proof.
  revert d. induction fuel as [|fuel IH]; intros d Hc Hlen.
  - exists d. split; [reflexivity|]. split; [exact Hc|].
    split; [reflexivity|]. split; [reflexivity|].
    destruct (ex_tasks (_singleCommiter d)); [reflexivity | discriminate].
  - destruct (writerStep_consistent d Hc)
      as (b & d1 & Hstep & Hc1 & Hl1 & Hcur1 & Hq1 & Hb).
    destruct (ex_tasks (_singleCommiter d)) as [|c rest] eqn:Hq;
      [discriminate|].
    subst b. simpl in Hq1, Hlen.
    destruct (IH d1 Hc1) as (d' & Hrun & Hc' & Hl' & Hcur' & Hq').
    { rewrite Hq1. lia. }
    exists d'. simpl. unfold bind. rewrite Hstep.
    split; [exact Hrun|]. split; [exact Hc'|].
    split; [congruence|]. split; [congruence | exact Hq'].
Qed.

Lemma consistent_end (d : Domain) :
  consistent d -> pendingChunks d = [] -> end_ d = _lastSerial d.
Proof.
  intros (init & key & tail & Hparts & _ & _ & _ & _ & _ & Hchain) Hnone.
  rewrite Hnone in Hchain. destruct Hchain as [_ Hend].
  unfold end_. now rewrite Hparts, last_snoc.
Qed.

(** C2, as the code has it.  Start from a consistent domain and let
    producers commit packets that hold records, each [from] above the
    [to] of the commit before, while the stale check, the single committer
    and the commit executor run in any order in between.  Every step
    returns.  Once the active chunk has then been handed over (as the
    destructor does) and the single committer has drained, [end()] is the
    [to] of the last packet committed. *)
Theorem end_after_flush_and_drain (acts : list Action) (d : Domain) :
  consistent d ->
  commitsValid acts (_lastSerial d) ->
  exists d1 flushed d2 d3,
    run acts d = Returned tt d1
    /\ flushOnDestroy d1 = Returned flushed d2
    /\ syncCommitter d2 = Returned tt d3
    /\ ex_tasks (_singleCommiter d3) = []
    /\ end_ d3 = lastTo acts (_lastSerial d).
Proof.
  intros Hc Hv.
  destruct (run_consistent acts d Hc Hv) as (d1 & Hrun & Hc1 & Hl1).
  destruct (flushOnDestroy_consistent d1 Hc1)
    as (flushed & d2 & Hflush & Hc2 & Hl2 & Hempty2).
  destruct (drain_consistent (length (ex_tasks (_singleCommiter d2))) d2
              Hc2 eq_refl)
    as (d3 & Hdrain & Hc3 & Hl3 & Hcur3 & Hq3).
  exists d1, flushed, d2, d3.
  split; [exact Hrun|]. split; [exact Hflush|]. split; [exact Hdrain|].
  split; [exact Hq3|].
  rewrite (consistent_end d3 Hc3).
  - congruence.
  - unfold pendingChunks. now rewrite Hq3, Hcur3, Hempty2.
Qed.

Lemma end_after_flush_and_drain_witness :
  exists d1 flushed d2 d3,
    run [ACommit 7%Z (Sample.packet 6 7) 1; AWrite; ASync;
         ACommit 9%Z (Sample.packet 8 8) 2]
      (Sample.domain [(0, Sample.part 0 5 false)] 5) = Returned tt d1
    /\ flushOnDestroy d1 = Returned flushed d2
    /\ syncCommitter d2 = Returned tt d3
    /\ end_ d3 = 8.
Proof.
  destruct (end_after_flush_and_drain
              [ACommit 7%Z (Sample.packet 6 7) 1; AWrite; ASync;
               ACommit 9%Z (Sample.packet 8 8) 2]
              (Sample.domain [(0, Sample.part 0 5 false)] 5))
    as (d1 & flushed & d2 & d3 & Hrun & Hflush & Hdrain & _ & Hend).
  - exists [], 0, (Sample.part 0 5 false).
    split; [reflexivity|]. split; [constructor|]. split; [reflexivity|].
    split; [reflexivity|]. split; [exists 0; reflexivity|].
    split; [reflexivity|]. simpl. split; [vm_compute; discriminate|reflexivity].
  - simpl. repeat split; try (vm_compute; reflexivity).
    + exists 6. repeat split; vm_compute; discriminate.
    + exists 8. repeat split; vm_compute; discriminate.
  - exists d1, flushed, d2, d3. repeat split; assumption.
Defined.

(** C2 fails as stated.  One packet of range 6..6 is committed to a domain
    whose log ends at 5; it stays in the active chunk, below the chunk size
    limit.  The single committer drains (it has nothing to do), and
    [end()] is still 5, not 6. *)
Lemma end_before_flush :
  exists d1 d2,
    commit 7%Z (Sample.packet 6 6) 1
      (Sample.domain [(0, Sample.part 0 5 false)] 5) = Returned tt d1
    /\ syncCommitter d1 = Returned tt d2
    /\ ex_tasks (_singleCommiter d2) = []
    /\ to (range (Sample.packet 6 6)) = 6
    /\ end_ d2 = 5.
Proof.
  eexists _, _. split; [reflexivity|]. split; [reflexivity|].
  repeat split.
Qed.

(** * Further properties *)

Ltac simpl_state :=
  cbn [_config _currentChunk _lastSerial _singleCommiter _commitExecutor
       _sessionExecutor _sessionId _pendingSync _parts _sessions io
       with_config with_currentChunk with_lastSerial with_singleCommiter
       with_commitExecutor with_sessionExecutor with_pendingSync with_parts
       with_sessions with_sessionId emit fst snd] in *.

(** ** Sessions *)

Lemma oldestActive_fold (sessions : gmap Z Session) :
  let r :=
    map_fold
      (fun (_ : Z) (session : Session) (oldestActive : SerialNum) =>
         if negb (s_inSync session)
         then N.min oldestActive (from (s_range session))
         else oldestActive)
      C.ULLONG_MAX sessions in
  r <= C.ULLONG_MAX
  /\ (forall id s, sessions !! id = Some s -> s_inSync s = false ->
        r <= from (s_range s))
  /\ (r = C.ULLONG_MAX
      \/ exists id s, sessions !! id = Some s /\ s_inSync s = false
                      /\ from (s_range s) = r).
Proof.
  cbv zeta.
  apply (map_fold_weak_ind
           (fun r (m : gmap Z Session) =>
              r <= C.ULLONG_MAX
              /\ (forall id s, m !! id = Some s -> s_inSync s = false ->
                    r <= from (s_range s))
              /\ (r = C.ULLONG_MAX
                  \/ exists id s, m !! id = Some s /\ s_inSync s = false
                                  /\ from (s_range s) = r))).
  - split; [lia|]. split; [|now left].
    intros id s Hs. rewrite lookup_empty in Hs. discriminate.
  - intros i x m r Hfresh (Hmax & Hlow & Hatt).
    destruct (s_inSync x) eqn:Hx; cbn [negb].
    + split; [exact Hmax|]. split.
      * intros id s Hs Hact. destruct (decide (i = id)) as [->|Hne].
        -- rewrite lookup_insert_eq in Hs. congruence.
        -- rewrite lookup_insert_ne in Hs by exact Hne. eauto.
      * destruct Hatt as [->|(id & s & Hs & Hact & Hfrom)]; [now left|].
        right. exists id, s. split; [|tauto].
        rewrite lookup_insert_ne; [exact Hs | congruence].
    + split; [lia|]. split.
      * intros id s Hs Hact. destruct (decide (i = id)) as [->|Hne].
        -- rewrite lookup_insert_eq in Hs. injection Hs as <-. lia.
        -- rewrite lookup_insert_ne in Hs by exact Hne.
           specialize (Hlow id s Hs Hact). lia.
      * destruct (N.min_spec r (from (s_range x))) as [[Hlt ->]|[Hge ->]].
        -- destruct Hatt as [->|(id & s & Hs & Hact & Hfrom)]; [now left|].
           right. exists id, s. split; [|tauto].
           rewrite lookup_insert_ne; [exact Hs | congruence].
        -- right. exists i, x. rewrite lookup_insert_eq. tauto.
Qed.

(** X1. [findOldestActiveVisit] is at most the [from] of every session
    that is not in sync; it is the [from] of one of them, or the largest
    serial when no session is active. *)
Theorem findOldestActiveVisit_spec (d : Domain) :
  findOldestActiveVisit d <= C.ULLONG_MAX
  /\ (forall id s, _sessions d !! id = Some s -> s_inSync s = false ->
        findOldestActiveVisit d <= from (s_range s))
  /\ (findOldestActiveVisit d = C.ULLONG_MAX
      \/ exists id s, _sessions d !! id = Some s /\ s_inSync s = false
                      /\ from (s_range s) = findOldestActiveVisit d)
  /\ ((forall id s, _sessions d !! id = Some s -> s_inSync s = true) ->
      findOldestActiveVisit d = C.ULLONG_MAX).
Proof.
  destruct (oldestActive_fold (_sessions d)) as (Hmax & Hlow & Hatt).
  split; [exact Hmax|]. split; [exact Hlow|]. split; [exact Hatt|].
  intros Hall. destruct Hatt as [H|(id & s & Hs & Hact & _)]; [exact H|].
  rewrite (Hall id s Hs) in Hact. discriminate.
Qed.

Lemma cleanSessions_lookup (d : Domain) (id : Z) (s : Session) :
  _sessions (stateOf (cleanSessions d)) !! id = Some s
  <-> _sessions d !! id = Some s
      /\ s_inSync s = false /\ s_finished s = false.
Proof.
  unfold cleanSessions, modify. cbn [stateOf]. simpl_fields.
  rewrite map_lookup_filter_Some. reflexivity.
Qed.

(** X2. [cleanSessions] returns; afterwards the map holds exactly the
    sessions it held that are neither in sync nor finished, each as it was;
    nothing but the session map changes; and the oldest active visit is not
    lowered by it. *)
Theorem cleanSessions_spec (d : Domain) :
  exists d',
    cleanSessions d = Returned tt d'
    /\ (forall id s,
          _sessions d' !! id = Some s
          <-> _sessions d !! id = Some s
              /\ s_inSync s = false /\ s_finished s = false)
    /\ d' = with_sessions (_sessions d') d
    /\ findOldestActiveVisit d <= findOldestActiveVisit d'.
Proof.
  eexists. split; [reflexivity|].
  split; [intros id s; apply (cleanSessions_lookup d)|].
  split; [reflexivity|].
  destruct (oldestActive_fold (_sessions d)) as (_ & Hlow & _).
  match goal with |- _ <= findOldestActiveVisit ?d' => set (d1 := d') end.
  destruct (oldestActive_fold (_sessions d1)) as (Hmax' & _ & Hatt').
  fold (findOldestActiveVisit d) in Hlow.
  fold (findOldestActiveVisit d1) in Hmax', Hatt'.
  destruct Hatt' as [->|(id & s & Hs & Hact & <-)].
  - destruct (oldestActive_fold (_sessions d)) as (Hmax & _). exact Hmax.
  - apply (Hlow id s); [|exact Hact].
    apply (cleanSessions_lookup d id s). exact Hs.
Qed.

Lemma wrapInt_id (z : Z) : (- 2 ^ 31 <= z < 2 ^ 31)%Z -> wrapInt z = z.
Proof.
  intros H. unfold wrapInt.
  rewrite Z.mod_small; [lia|].
  change (2 ^ 32)%Z with 4294967296%Z. change (2 ^ 31)%Z with 2147483648%Z in *.
  lia.
Qed.

(** X3. On a domain whose session ids are all below the next id, that one
    short of [INT_MAX], [visit] returns the next id, registers under it a
    new session with the asked range, and moves the next id up by one; the
    id was not in use, so no session is replaced; the other sessions kept
    are the ones that were neither in sync nor finished; and the ids in use
    are again below the next id. *)
Theorem visit_spec (lo hi : SerialNum) (d : Domain) :
  idsBelowNext d ->
  (0 <= _sessionId d < INT_MAX)%Z ->
  exists d',
    visit lo hi d = Returned (_sessionId d) d'
    /\ _sessions d !! _sessionId d = None
    /\ _sessions d' !! _sessionId d
       = Some (newSession (_sessionId d) {| from := lo; to := hi |})
    /\ _sessionId d' = (_sessionId d + 1)%Z
    /\ (forall id s,
          id <> _sessionId d ->
          (_sessions d' !! id = Some s
           <-> _sessions d !! id = Some s
               /\ s_inSync s = false /\ s_finished s = false))
    /\ idsBelowNext d'
    /\ _parts d' = _parts d /\ _lastSerial d' = _lastSerial d.
Proof.
  intros Hids Hnext.
  assert (Hwrap : wrapInt (_sessionId d + 1) = (_sessionId d + 1)%Z).
  { apply wrapInt_id. unfold INT_MAX in Hnext.
    change (2 ^ 31)%Z with 2147483648%Z. lia. }
  assert (Hfresh : _sessions d !! _sessionId d = None).
  { destruct (_sessions d !! _sessionId d) as [s|] eqn:Hs; [|reflexivity].
    specialize (Hids _ _ Hs). lia. }
  unfold visit, bind, get, modify, ret, cleanSessions. simpl_state.
  eexists. split; [reflexivity|]. simpl_state.
  split; [exact Hfresh|].
  split; [apply lookup_insert_eq|].
  split; [exact Hwrap|].
  split.
  { intros id s Hne. rewrite lookup_insert_ne by congruence.
    rewrite map_lookup_filter_Some. reflexivity. }
  split; [|split; reflexivity].
  intros id s. unfold idsBelowNext in Hids. simpl_state. rewrite Hwrap.
  destruct (decide (_sessionId d = id)) as [<-|Hne].
  - intros _. lia.
  - rewrite lookup_insert_ne by exact Hne.
    rewrite map_lookup_filter_Some. intros [Hs _].
    specialize (Hids _ _ Hs). lia.
Qed.

Lemma visit_spec_witness :
  exists d',
    visit 2 9 (with_sessionId 4%Z Sample.visited) = Returned 4%Z d'
    /\ _sessions d' !! 4%Z
       = Some (newSession 4 {| from := 2; to := 9 |})
    /\ _sessions d' !! 3%Z = Some (Sample.session 3 0 9)
    /\ _sessionId d' = 5%Z.
Proof.
  destruct (visit_spec 2 9 (with_sessionId 4%Z Sample.visited))
    as (d' & Hrun & _ & Hnew & Hnext & Hold & _).
  - intros id s Hs.
    change (_sessions (with_sessionId 4%Z Sample.visited))
      with ({[ 3%Z := Sample.session 3 0 9 ]} : gmap Z Session) in Hs.
    apply lookup_singleton_Some in Hs as [<- _]. reflexivity.
  - vm_compute. split; [discriminate | reflexivity].
  - exists d'. split; [exact Hrun|]. split; [exact Hnew|].
    split; [|exact Hnext].
    apply (Hold 3%Z (Sample.session 3 0 9)); [discriminate|].
    split; [reflexivity | split; reflexivity].
Defined.

(** X4. A visit can be started right away: with a session executor that
    takes tasks, [startSession] on the id [visit] returned gives 0, queues
    the session, leaves it registered with its start time set, and from
    then on the oldest active visit is at most the visit's [from]. *)
Theorem visit_then_startSession (lo hi : SerialNum) (now : Time) (d : Domain) :
  ex_closed (_sessionExecutor d) = false ->
  exists d1 d2,
    visit lo hi d = Returned (_sessionId d) d1
    /\ startSession now (_sessionId d) d1 = Returned 0%Z d2
    /\ _sessions d2 !! _sessionId d
       = Some (setStartTime now
                 (newSession (_sessionId d) {| from := lo; to := hi |}))
    /\ ex_tasks (_sessionExecutor d2)
       = ex_tasks (_sessionExecutor d) ++ [_sessionId d]
    /\ findOldestActiveVisit d2 <= lo.
Proof.
  intros Hopen.
  unfold visit, bind, get, modify, ret, cleanSessions. simpl_state.
  eexists. eexists. split; [reflexivity|].
  unfold startSession, bind, get, modify, ret. simpl_state.
  rewrite lookup_insert_eq. simpl_state.
  unfold Executor.execute. rewrite Hopen. simpl_state.
  split; [reflexivity|]. simpl_state.
  split; [apply lookup_insert_eq|]. split; [reflexivity|].
  match goal with |- findOldestActiveVisit ?x <= _ => set (d2 := x) end.
  destruct (oldestActive_fold (_sessions d2)) as (_ & Hlow & _).
  apply (Hlow (_sessionId d)
           (setStartTime now
              (newSession (_sessionId d) {| from := lo; to := hi |})));
    [|reflexivity].
  unfold d2. simpl_state. apply lookup_insert_eq.
Qed.

Lemma visit_then_startSession_witness :
  exists d1 d2,
    visit 2 9 Sample.log5 = Returned 1%Z d1
    /\ startSession 11%Z 1%Z d1 = Returned 0%Z d2
    /\ ex_tasks (_sessionExecutor d2) = [1%Z]
    /\ findOldestActiveVisit d2 <= 2.
Proof.
  destruct (visit_then_startSession 2 9 11%Z Sample.log5 eq_refl)
    as (d1 & d2 & Hvisit & Hstart & _ & Htasks & Hold).
  exists d1, d2. repeat split; assumption.
Defined.

(** ** Chunks and commits *)

Lemma addAll_started (adds : list (Time * Packet * DoneCallback)) (c : Chunk) :
  _callBacks c <> [] ->
  _firstArrivalTime (addAll adds c) = _firstArrivalTime c
  /\ _callBacks (addAll adds c) = _callBacks c ++ map snd adds
  /\ entries (_data (addAll adds c))
     = entries (_data c)
       ++ concat (map (fun a => entries (snd (fst a))) adds).
Proof.
  revert c. induction adds as [|[[now p] cb] adds IH]; intros c Hc.
  - simpl. now rewrite !app_nil_r.
  - cbn [addAll].
    destruct (IH (Chunk.add now p cb c)) as (Htime & Hcbs & Hents).
    { simpl. destruct (_callBacks c); discriminate. }
    rewrite Htime, Hcbs, Hents. cbn [map concat snd fst].
    split; [|split].
    + simpl. destruct (_callBacks c); [congruence | reflexivity].
    + simpl. now rewrite <- app_assoc.
    + simpl. now rewrite <- app_assoc.
Qed.

(** X5. The age of a chunk runs from its first packet: after any number of
    [add]s to a new chunk, [age] is the time since the first one, however
    late the others came; the chunk holds every callback and every record
    added, in the order of arrival. *)
Theorem chunk_age_from_first_add (first : Time) (p : Packet)
    (cb : DoneCallback) (rest : list (Time * Packet * DoneCallback))
    (now : Time) :
  Chunk.age now (addAll ((first, p, cb) :: rest) Chunk.new)
  = (now - first)%Z
  /\ _callBacks (addAll ((first, p, cb) :: rest) Chunk.new)
     = cb :: map snd rest
  /\ entries (Chunk.getPacket (addAll ((first, p, cb) :: rest) Chunk.new))
     = entries p ++ concat (map (fun a => entries (snd (fst a))) rest).
Proof.
  cbn [addAll].
  destruct (addAll_started rest (Chunk.add first p cb Chunk.new))
    as (Htime & Hcbs & Hents); [discriminate|].
  unfold Chunk.age, Chunk.getPacket. rewrite Htime, Hcbs, Hents.
  repeat split.
Qed.

Lemma commit_returns_inv (now : Time) (p : Packet) (cb : DoneCallback)
    (d d' : Domain) :
  commit now p cb d = Returned tt d' ->
  _lastSerial d < from (range p) /\ _lastSerial d' = to (range p).
Proof.
  unfoldM. destruct (from (range p) <=? _lastSerial d) eqn:Hle;
    [discriminate|].
  apply N.leb_gt in Hle. simpl_fields.
  destruct (getChunkSizeLimit (_config d) <? _); simpl_fields.
  - destruct (negb _); simpl_fields; intros [= <-]; split;
      [exact Hle | reflexivity | exact Hle | reflexivity].
  - intros [= <-]. split; [exact Hle | reflexivity].
Qed.

(** X6. No packet is taken twice: once [commit] has returned for a packet
    whose range is not inverted, a second [commit] of the same packet
    throws and changes nothing. *)
Theorem commit_twice_rejected (now now' : Time) (p : Packet)
    (cb cb' : DoneCallback) (d d' : Domain) :
  commit now p cb d = Returned tt d' ->
  from (range p) <= to (range p) ->
  commit now' p cb' d'
  = Thrown (SerialNotIncreasing (from (range p)) (to (range p))) d'.
Proof.
  intros Hrun Hrange.
  destruct (commit_returns_inv now p cb d d' Hrun) as [_ Hlast].
  unfoldM. rewrite Hlast.
  apply N.leb_le in Hrange. now rewrite Hrange.
Qed.

Lemma commit_twice_rejected_witness :
  exists d',
    commit 7%Z (Sample.packet 6 7) 1 Sample.log5 = Returned tt d'
    /\ commit 8%Z (Sample.packet 6 7) 2 d'
       = Thrown (SerialNotIncreasing 6 7) d'.
Proof.
  eexists. split; [reflexivity|].
  apply (commit_twice_rejected 7%Z 8%Z (Sample.packet 6 7) 1 2 Sample.log5).
  - reflexivity.
  - vm_compute. discriminate.
Defined.

Lemma run_app (acts1 acts2 : list Action) (d : Domain) :
  run (acts1 ++ acts2) d
  = match run acts1 d with
    | Returned _ d1 => run acts2 d1
    | Thrown e d1 => Thrown e d1
    | Blocked d1 => Blocked d1
    end.
Proof.
  revert d. induction acts1 as [|a acts1 IH]; intros d; [reflexivity|].
  simpl. unfold bind. destruct (step a d); [apply IH | reflexivity..].
Qed.

Lemma commitsValid_app (acts1 acts2 : list Action) (last : SerialNum) :
  commitsValid (acts1 ++ acts2) last
  <-> commitsValid acts1 last /\ commitsValid acts2 (lastTo acts1 last).
Proof.
  revert last. induction acts1 as [|a acts1 IH]; intros last; simpl.
  - tauto.
  - destruct a; simpl; rewrite IH; tauto.
Qed.

Lemma lastTo_ge (acts : list Action) (last : SerialNum) :
  commitsValid acts last -> last <= lastTo acts last.
Proof.
  revert last. induction acts as [|a acts IH]; intros last Hv; simpl; [lia|].
  destruct a as [now p cb| | |]; simpl in Hv; try (now apply IH).
  destruct Hv as ((first & _ & Hlo & Hhi) & Hlt & Hrest).
  specialize (IH _ Hrest). lia.
Qed.

(** X7. The last accepted serial never goes back: along a run of valid
    commits, stale checks, writes and syncs from a consistent domain, every
    step returns, and [_lastSerial] after any prefix of the run is at least
    what it was at the start and at most what it is at the end. *)
Theorem lastSerial_monotone (acts1 acts2 : list Action) (d : Domain) :
  consistent d ->
  commitsValid (acts1 ++ acts2) (_lastSerial d) ->
  exists d1 d2,
    run acts1 d = Returned tt d1
    /\ run (acts1 ++ acts2) d = Returned tt d2
    /\ _lastSerial d <= _lastSerial d1
    /\ _lastSerial d1 <= _lastSerial d2.
Proof.
  intros Hc Hv. apply commitsValid_app in Hv as [Hv1 Hv2].
  destruct (run_consistent acts1 d Hc Hv1) as (d1 & Hrun1 & Hc1 & Hl1).
  rewrite <- Hl1 in Hv2.
  destruct (run_consistent acts2 d1 Hc1 Hv2) as (d2 & Hrun2 & _ & Hl2).
  exists d1, d2. split; [exact Hrun1|].
  split; [rewrite run_app, Hrun1; exact Hrun2|].
  split.
  - rewrite Hl1. now apply lastTo_ge.
  - rewrite Hl2. now apply lastTo_ge.
Qed.

Lemma lastSerial_monotone_witness :
  exists d1 d2,
    run [ACommit 7%Z (Sample.packet 6 7) 1; AWrite] Sample.log5
    = Returned tt d1
    /\ run ([ACommit 7%Z (Sample.packet 6 7) 1; AWrite]
            ++ [ASync; ACommit 9%Z (Sample.packet 8 8) 2]) Sample.log5
       = Returned tt d2
    /\ 5 <= _lastSerial d1
    /\ _lastSerial d1 <= _lastSerial d2.
Proof.
  apply (lastSerial_monotone
           [ACommit 7%Z (Sample.packet 6 7) 1; AWrite]
           [ASync; ACommit 9%Z (Sample.packet 8 8) 2] Sample.log5).
  - exists [], 0, (Sample.part 0 5 false).
    split; [reflexivity|]. split; [constructor|]. split; [reflexivity|].
    split; [reflexivity|]. split; [exists 0; reflexivity|].
    split; [reflexivity|]. simpl.
    split; [vm_compute; discriminate | reflexivity].
  - simpl. repeat split; try (vm_compute; reflexivity).
    + exists 6. repeat split; vm_compute; discriminate.
    + exists 8. repeat split; vm_compute; discriminate.
Defined.

(** ** What a write does to the segment map *)

Lemma doCommit_append_parts (chunk : Chunk) (d : Domain)
    (init : DomainPartList) (key : SerialNum) (tail : DomainPart)
    (first : SerialNum) :
  _parts d = init ++ [(key, tail)] ->
  Forall (fun e => fst e < key) init ->
  Packet.firstSerial (Chunk.getPacket chunk) = Some first ->
  DomainPart.byteSize tail <= getPartSizeLimit (_config d) ->
  dp_closed tail = false ->
  exists d' c,
    doCommit chunk d = Returned tt d'
    /\ DomainPart.commit first (Chunk.getPacket chunk) tail = Some c
    /\ _parts d'
       = init ++ [(key, if getFSyncOnCommit (_config d)
                        then DomainPart.sync c else c)]
    /\ _pendingSync d' = _pendingSync d
    /\ _commitExecutor d' = _commitExecutor d
    /\ writeFrame d d'.
Proof.
  intros Hparts Hinit Hfirst Hsmall Hopen.
  unfold doCommit. cbv zeta.
  unfold bind at 1. unfold get at 1. rewrite Hparts, last_snoc, Hfirst.
  unfold bind at 1. unfold get at 1.
  apply N.ltb_ge in Hsmall. rewrite Hsmall.
  unfold bind, get, modify, ret, cleanSessions. simpl_fields.
  rewrite Hparts, last_snoc.
  unfold DomainPart.commit. rewrite Hopen. simpl_fields.
  rewrite Hparts, (update_snoc_tail key _ _ init Hinit).
  destruct (getFSyncOnCommit (_config d)).
  - eexists _, _. split; [reflexivity|]. unfold writeFrame. simpl_fields.
    rewrite (update_snoc_tail key _ _ init Hinit).
    repeat split; reflexivity.
  - eexists _, _. split; [reflexivity|]. unfold writeFrame. simpl_fields.
    repeat split; reflexivity.
Qed.

(** One task of the single committer on a consistent domain: the packet
    goes to [target], which is the last segment or, past the size limit, a
    new one behind it. *)
Lemma writerStep_parts (d : Domain) (chunk : Chunk) (rest : list Chunk)
    (init : DomainPartList) (key : SerialNum) (tail : DomainPart)
    (first pending : SerialNum) :
  ex_tasks (_singleCommiter d) = chunk :: rest ->
  _parts d = init ++ [(key, tail)] ->
  Forall (fun e => fst e < key) init ->
  dp_closed tail = false ->
  Packet.firstSerial (_data chunk) = Some first ->
  key < first ->
  ex_closed (_commitExecutor d) = false ->
  ex_tasks (_commitExecutor d) = (if _pendingSync d then [pending] else []) ->
  exists d' kept target c,
    writerStep d = Returned true d'
    /\ DomainPart.commit first (_data chunk) (snd target) = Some c
    /\ _parts d'
       = kept ++ [(fst target, if getFSyncOnCommit (_config d)
                               then DomainPart.sync c else c)]
    /\ Forall (fun e => fst e < fst target) kept
    /\ (getPartSizeLimit (_config d) < DomainPart.byteSize tail
        /\ kept = (if _pendingSync d
                   then PartMap.update pending DomainPart.sync init
                   else init)
                  ++ [(key, DomainPart.close (DomainPart.sync tail))]
        /\ target = (first, DomainPart.new first)
        \/ DomainPart.byteSize tail <= getPartSizeLimit (_config d)
           /\ kept = init /\ target = (key, tail))
    /\ _config d' = _config d
    /\ _currentChunk d' = _currentChunk d
    /\ _lastSerial d' = _lastSerial d
    /\ ex_tasks (_singleCommiter d') = rest.
Proof.
  intros Hq Hparts Hinit Hopen Hfirst Hkey Hcx Hpending.
  unfold writerStep. unfold bind at 1. unfold get at 1. rewrite Hq.
  unfold bind at 1. unfold modify at 1.
  set (d0 := with_singleCommiter
               {| ex_tasks := rest;
                  ex_closed := ex_closed (_singleCommiter d) |} d).
  unfold bind at 1.
  destruct (getPartSizeLimit (_config d) <? DomainPart.byteSize tail) eqn:Hbig.
  - apply N.ltb_lt in Hbig.
    destruct (doCommit_rotation_any chunk d0 init key tail first pending)
      as (d' & Hrun & _ & _ & _ & Hparts' & Hframe); try assumption.
    destruct Hframe as (Hcfg & Hcur & Hlast & Hsingle & _).
    rewrite Hrun. unfold ret.
    exists d',
      ((if _pendingSync d
        then PartMap.update pending DomainPart.sync init else init)
       ++ [(key, DomainPart.close (DomainPart.sync tail))]),
      (first, DomainPart.new first),
      {| dp_range := {| from := first; to := to (range (_data chunk)) |};
         dp_size := Packet.size (_data chunk);
         dp_byteSize := Packet.sizeBytes (_data chunk);
         dp_synced := 0; dp_closed := false; dp_deleted := false |}.
    split; [reflexivity|]. split; [reflexivity|].
    split.
    { rewrite Hparts'. change (_config d0) with (_config d).
      change (_pendingSync d0) with (_pendingSync d).
      rewrite <- app_assoc. unfold Chunk.getPacket. cbn [fst app].
      destruct (getFSyncOnCommit (_config d)); reflexivity. }
    split.
    { cbn [fst]. apply Forall_app. split.
      - assert (Hbelow : Forall (fun e : SerialNum * DomainPart => fst e < key)
                           (if _pendingSync d
                            then PartMap.update pending DomainPart.sync init
                            else init))
          by (destruct (_pendingSync d); [apply update_below|]; exact Hinit).
        revert Hbelow. apply List.Forall_impl. intros e. lia.
      - repeat constructor. exact Hkey. }
    split; [left; repeat split; exact Hbig|].
    split; [exact Hcfg|]. split; [exact Hcur|]. split; [exact Hlast|].
    now rewrite Hsingle.
  - apply N.ltb_ge in Hbig.
    destruct (doCommit_append_parts chunk d0 init key tail first)
      as (d' & c & Hrun & Hc & Hparts' & _ & _ & Hframe); try assumption.
    destruct Hframe as (Hcfg & Hcur & Hlast & Hsingle & _).
    rewrite Hrun. unfold ret.
    exists d', init, (key, tail), c.
    split; [reflexivity|]. split; [exact Hc|]. split; [exact Hparts'|].
    split; [exact Hinit|].
    split; [right; repeat split; exact Hbig|].
    split; [exact Hcfg|]. split; [exact Hcur|]. split; [exact Hlast|].
    now rewrite Hsingle.
Qed.

(** ** Nothing is lost and nothing is written twice *)

Section Accounting.

(** A measure of what a segment holds and of what a packet carries, such
    that a write adds the one to the other. *)
Variable held : DomainPart -> N.
Variable carried : Packet -> N.
Hypothesis held_new : forall s, held (DomainPart.new s) = 0.
Hypothesis held_commit :
  forall first p dp c,
    DomainPart.commit first p dp = Some c -> held c = held dp + carried p.
Hypothesis held_sync : forall dp, held (DomainPart.sync dp) = held dp.
Hypothesis held_close : forall dp, held (DomainPart.close dp) = held dp.
Hypothesis carried_merge :
  forall c p, carried (Packet.merge c p) = carried c + carried p.
Hypothesis carried_empty : forall p, Packet.empty p = true -> carried p = 0.

Lemma stored_shift (m : DomainPartList) (a : N) :
  fold_left (fun sz part => sz + held (snd part)) m a = a + storedIn held m.
Proof.
  unfold storedIn. revert a. induction m as [|e m IH]; intros a.
  - simpl. lia.
  - cbn [fold_left].
    rewrite (IH (a + held (snd e))), (IH (0 + held (snd e))). lia.
Qed.

Lemma stored_app (l r : DomainPartList) :
  storedIn held (l ++ r) = storedIn held l + storedIn held r.
Proof.
  unfold storedIn at 1. rewrite fold_left_app.
  fold (storedIn held l). apply stored_shift.
Qed.

Lemma stored_one (e : SerialNum * DomainPart) :
  storedIn held [e] = held (snd e).
Proof. reflexivity. Qed.

Lemma stored_update (k : SerialNum) (f : DomainPart -> DomainPart)
    (m : DomainPartList) :
  (forall dp, held (f dp) = held dp) ->
  storedIn held (PartMap.update k f m) = storedIn held m.
Proof.
  intros Hf. induction m as [|[k' v] m IH]; [reflexivity|].
  simpl. destruct (k =? k').
  - change ((k', f v) :: m) with ([(k', f v)] ++ m).
    change ((k', v) :: m) with ([(k', v)] ++ m).
    rewrite !stored_app, !stored_one. simpl. now rewrite Hf.
  - change ((k', v) :: PartMap.update k f m)
      with ([(k', v)] ++ PartMap.update k f m).
    change ((k', v) :: m) with ([(k', v)] ++ m).
    rewrite !stored_app, IH. reflexivity.
Qed.

Lemma waiting_app (l r : list Chunk) :
  waitingIn carried (l ++ r) = waitingIn carried l + waitingIn carried r.
Proof.
  unfold waitingIn. induction l as [|c l IH]; simpl; [reflexivity|].
  rewrite IH. lia.
Qed.

Lemma waiting_current (c : Chunk) :
  waitingIn carried (if Packet.empty (_data c) then [] else [c])
  = carried (_data c).
Proof.
  destruct (Packet.empty (_data c)) eqn:He; simpl.
  - symmetry. now apply carried_empty.
  - lia.
Qed.

Lemma waiting_pending (d : Domain) :
  waitingIn carried (pendingChunks d)
  = waitingIn carried (ex_tasks (_singleCommiter d))
    + carried (_data (_currentChunk d)).
Proof. unfold pendingChunks. now rewrite waiting_app, waiting_current. Qed.

Lemma commit_total (now : Time) (p : Packet) (cb : DoneCallback)
    (d d' : Domain) :
  consistent d -> wfPacket p ->
  commit now p cb d = Returned tt d' ->
  _parts d' = _parts d
  /\ waitingIn carried (pendingChunks d')
     = waitingIn carried (pendingChunks d) + carried p.
Proof.
  intros (init & key & tail & _ & _ & _ & _ & _ & Hsc & _) Hwf Hrun.
  destruct (commit_returns_inv now p cb d d' Hrun) as [Hlt _].
  rewrite (commit_run now p cb d Hlt (wfPacket_nonempty p Hwf) Hsc) in Hrun.
  injection Hrun as <-.
  rewrite (waiting_pending d).
  destruct (getChunkSizeLimit (_config d) <? _);
    rewrite waiting_pending; simpl_fields; cbn [ex_tasks].
  - split; [reflexivity|].
    rewrite waiting_app. cbn [waitingIn fold_right Chunk.add _data].
    rewrite carried_merge.
    assert (carried (_data Chunk.new) = 0)
      by (apply carried_empty; reflexivity).
    lia.
  - split; [reflexivity|]. cbn [Chunk.add _data].
    rewrite carried_merge. lia.
Qed.

Lemma commitIfStale_total (now : Time) (d : Domain) (b : bool) (d' : Domain) :
  consistent d ->
  commitIfStale now d = Returned b d' ->
  _parts d' = _parts d
  /\ waitingIn carried (pendingChunks d')
     = waitingIn carried (pendingChunks d).
Proof.
  intros (init & key & tail & _ & _ & _ & _ & _ & Hsc & _).
  unfold commitIfStale, bind, get.
  destruct ((getChunkAgeLimit (_config d) <? Chunk.age now (_currentChunk d))%Z
            && negb (Packet.empty (Chunk.getPacket (_currentChunk d))))
    eqn:Hstale.
  - apply andb_true_iff in Hstale as [_ Hne]. apply negb_true_iff in Hne.
    unfoldM. simpl_fields. rewrite Hne. cbn [negb].
    unfold Executor.execute. simpl_fields. rewrite Hsc. simpl_fields.
    intros [= _ <-]. split; [reflexivity|].
    rewrite !waiting_pending. simpl_fields. cbn [ex_tasks].
    rewrite waiting_app. cbn [waitingIn fold_right].
    assert (carried (_data Chunk.new) = 0)
      by (apply carried_empty; reflexivity).
    lia.
  - intros [= _ <-]. split; reflexivity.
Qed.

Lemma flushOnDestroy_total (d : Domain) (b : bool) (d' : Domain) :
  consistent d ->
  flushOnDestroy d = Returned b d' ->
  _parts d' = _parts d
  /\ waitingIn carried (pendingChunks d')
     = waitingIn carried (pendingChunks d).
Proof.
  intros (init & key & tail & _ & _ & _ & _ & _ & Hsc & _).
  unfoldM. simpl_fields.
  assert (Hnew : carried (_data Chunk.new) = 0)
    by (apply carried_empty; reflexivity).
  destruct (Packet.empty (Chunk.getPacket (_currentChunk d))) eqn:Hcur;
    cbn [negb].
  - intros [= _ <-]. split; [reflexivity|].
    rewrite !waiting_pending. simpl_fields.
    unfold Chunk.getPacket in Hcur. rewrite (carried_empty _ Hcur). lia.
  - unfold Executor.execute. simpl_fields. rewrite Hsc. simpl_fields.
    intros [= _ <-]. split; [reflexivity|].
    rewrite !waiting_pending. simpl_fields. cbn [ex_tasks].
    rewrite waiting_app. cbn [waitingIn fold_right]. lia.
Qed.

Lemma syncStep_total (d d' : Domain) :
  syncStep d = Returned tt d' ->
  storedIn held (_parts d') = storedIn held (_parts d)
  /\ pendingChunks d' = pendingChunks d.
Proof.
  unfold syncStep. destruct (ex_tasks (_commitExecutor d)) as [|k rest].
  - intros [= <-]. split; reflexivity.
  - intros [= <-]. unfold runSync. simpl_fields.
    split; [now apply stored_update | reflexivity].
Qed.

Lemma writerStep_total (d : Domain) (b : bool) (d' : Domain) :
  consistent d ->
  writerStep d = Returned b d' ->
  storedIn held (_parts d') + waitingIn carried (pendingChunks d')
  = storedIn held (_parts d) + waitingIn carried (pendingChunks d).
Proof.
  intros (init & key & tail & Hparts & Hinit & Htail & Hcx & [pending Hsync]
          & Hsc & Hchain) Hrun.
  destruct (ex_tasks (_singleCommiter d)) as [|chunk rest] eqn:Hq.
  { unfold writerStep, bind, get in Hrun. rewrite Hq in Hrun.
    injection Hrun as _ <-. reflexivity. }
  unfold pendingChunks in Hchain. rewrite Hq in Hchain.
  destruct Hchain as (first & Hfirst & Hlo & _).
  destruct (writerStep_parts d chunk rest init key tail first pending
              Hq Hparts Hinit Htail Hfirst Hlo Hcx Hsync)
    as (d1 & kept & target & c & Hrun1 & Hc & Hparts1 & _ & Hcase & _ & Hcur
        & _ & Hq1).
  rewrite Hrun1 in Hrun. injection Hrun as _ <-.
  rewrite !waiting_pending, Hq1, Hcur, Hq, Hparts1, Hparts.
  rewrite !stored_app, !stored_one. cbn [snd waitingIn fold_right].
  assert (Hfinal : held (if getFSyncOnCommit (_config d)
                         then DomainPart.sync c else c)
                   = held (snd target) + carried (_data chunk)).
  { rewrite <- (held_commit _ _ _ _ Hc).
    destruct (getFSyncOnCommit (_config d)); [apply held_sync | reflexivity]. }
  rewrite Hfinal.
  destruct Hcase as [(_ & -> & ->)|(_ & -> & ->)]; cbn [snd].
  - rewrite stored_app, stored_one. cbn [snd].
    rewrite held_close, held_sync, held_new.
    assert (Hsame : storedIn held
                      (if _pendingSync d
                       then PartMap.update pending DomainPart.sync init
                       else init)
                    = storedIn held init)
      by (destruct (_pendingSync d); [now apply stored_update | reflexivity]).
    rewrite Hsame. unfold waitingIn. lia.
  - unfold waitingIn. lia.
Qed.

Lemma step_total (a : Action) (d d' : Domain) :
  consistent d ->
  commitsValid [a] (_lastSerial d) ->
  step a d = Returned tt d' ->
  storedIn held (_parts d') + waitingIn carried (pendingChunks d')
  = storedIn held (_parts d) + waitingIn carried (pendingChunks d)
    + committedIn carried [a].
Proof.
  intros Hc Hv Hrun. destruct a as [now p cb|now| |]; simpl in Hv, Hrun |- *.
  - destruct Hv as (Hwf & _ & _).
    destruct (commit_total now p cb d d' Hc Hwf Hrun) as [-> ->]. lia.
  - unfold bind, ret in Hrun.
    destruct (commitIfStale now d) as [b d1| |] eqn:Hstale; try discriminate.
    injection Hrun as <-.
    destruct (commitIfStale_total now d b d1 Hc Hstale) as [-> ->]. lia.
  - unfold bind, ret in Hrun.
    destruct (writerStep d) as [b d1| |] eqn:Hw; try discriminate.
    injection Hrun as <-.
    rewrite (writerStep_total d b d1 Hc Hw). lia.
  - destruct (syncStep_total d d' Hrun) as [-> ->]. lia.
Qed.

Lemma run_total (acts : list Action) (d d' : Domain) :
  consistent d ->
  commitsValid acts (_lastSerial d) ->
  run acts d = Returned tt d' ->
  storedIn held (_parts d') + waitingIn carried (pendingChunks d')
  = storedIn held (_parts d) + waitingIn carried (pendingChunks d)
    + committedIn carried acts.
Proof.
  revert d. induction acts as [|a acts IH]; intros d Hc Hv Hrun.
  - injection Hrun as <-. simpl. lia.
  - assert (Hva : commitsValid [a] (_lastSerial d))
      by (destruct a; simpl in Hv |- *; tauto).
    destruct (step_consistent a d Hc Hva) as (d1 & Hstep & Hc1 & Hl1).
    simpl in Hrun. unfold bind in Hrun. rewrite Hstep in Hrun.
    rewrite (IH d1 Hc1); [| |exact Hrun].
    + rewrite (step_total a d d1 Hc Hva Hstep).
      destruct a; simpl; lia.
    + rewrite Hl1. destruct a; simpl in Hv |- *; tauto.
Qed.

Lemma drain_total (fuel : nat) (d d' : Domain) :
  consistent d ->
  drain fuel d = Returned tt d' ->
  storedIn held (_parts d') + waitingIn carried (pendingChunks d')
  = storedIn held (_parts d) + waitingIn carried (pendingChunks d).
Proof.
  revert d. induction fuel as [|fuel IH]; intros d Hc Hrun.
  - injection Hrun as <-. reflexivity.
  - destruct (writerStep_consistent d Hc) as (b & d1 & Hstep & Hc1 & _).
    simpl in Hrun. unfold bind in Hrun. rewrite Hstep in Hrun.
    rewrite <- (writerStep_total d b d1 Hc Hstep).
    destruct b.
    + now apply IH.
    + injection Hrun as <-. reflexivity.
Qed.

Lemma stored_after_drain (acts : list Action) (d d1 d2 d3 : Domain)
    (flushed : bool) :
  consistent d ->
  commitsValid acts (_lastSerial d) ->
  run acts d = Returned tt d1 ->
  flushOnDestroy d1 = Returned flushed d2 ->
  syncCommitter d2 = Returned tt d3 ->
  pendingChunks d3 = [] ->
  storedIn held (_parts d3)
  = storedIn held (_parts d) + waitingIn carried (pendingChunks d)
    + committedIn carried acts.
Proof.
  intros Hc Hv Hrun Hflush Hdrain Hnone.
  destruct (run_consistent acts d Hc Hv) as (d1' & Hrun' & Hc1 & _).
  rewrite Hrun in Hrun'. injection Hrun' as <-.
  destruct (flushOnDestroy_consistent d1 Hc1)
    as (b & d2' & Hflush' & Hc2 & _).
  rewrite Hflush in Hflush'. injection Hflush' as <- <-.
  pose proof (run_total acts d d1 Hc Hv Hrun) as H1.
  destruct (flushOnDestroy_total d1 flushed d2 Hc1 Hflush) as [H2a H2b].
  pose proof (drain_total _ d2 d3 Hc2 Hdrain) as H3.
  rewrite Hnone in H3. cbn [waitingIn fold_right] in H3.
  rewrite H2a, H2b in H3. lia.
Qed.

End Accounting.

Lemma commit_size first p dp c :
  DomainPart.commit first p dp = Some c ->
  dp_size c = dp_size dp + Packet.size p
  /\ DomainPart.byteSize c = DomainPart.byteSize dp + Packet.sizeBytes p
  /\ to (dp_range c) = to (range p).
Proof.
  unfold DomainPart.commit. destruct (dp_closed dp); [discriminate|].
  intros [= <-]. repeat split.
Qed.

Lemma merge_size c p :
  Packet.size (Packet.merge c p) = Packet.size c + Packet.size p.
Proof. unfold Packet.size. simpl. rewrite length_app. lia. Qed.

Lemma merge_sizeBytes c p :
  Packet.sizeBytes (Packet.merge c p)
  = Packet.sizeBytes c + Packet.sizeBytes p.
Proof.
  unfold Packet.sizeBytes. simpl.
  induction (entries c) as [|e l IH]; simpl; [reflexivity|].
  rewrite IH. lia.
Qed.

Lemma empty_size p : Packet.empty p = true -> Packet.size p = 0.
Proof.
  unfold Packet.empty, Packet.size.
  destruct (entries p); [reflexivity | discriminate].
Qed.

(** X8. Every record committed is written once: after a run of valid
    commits, stale checks, writes and syncs from a consistent domain, the
    hand-over of the active chunk and the drain of the single committer,
    [size()] has grown by the number of records of the chunks that were
    waiting and of the packets committed, and [byteSize()] by their
    bytes. *)
Theorem records_conserved (acts : list Action) (d : Domain) :
  consistent d ->
  commitsValid acts (_lastSerial d) ->
  exists d1 flushed d2 d3,
    run acts d = Returned tt d1
    /\ flushOnDestroy d1 = Returned flushed d2
    /\ syncCommitter d2 = Returned tt d3
    /\ size d3
       = size d + waitingIn Packet.size (pendingChunks d)
         + committedIn Packet.size acts
    /\ byteSize d3
       = byteSize d + waitingIn Packet.sizeBytes (pendingChunks d)
         + committedIn Packet.sizeBytes acts.
Proof.
  intros Hc Hv.
  destruct (run_consistent acts d Hc Hv) as (d1 & Hrun & Hc1 & _).
  destruct (flushOnDestroy_consistent d1 Hc1)
    as (flushed & d2 & Hflush & Hc2 & _ & Hempty2).
  destruct (drain_consistent (length (ex_tasks (_singleCommiter d2))) d2
              Hc2 eq_refl)
    as (d3 & Hdrain & _ & _ & Hcur3 & Hq3).
  assert (Hnone : pendingChunks d3 = [])
    by (unfold pendingChunks; now rewrite Hq3, Hcur3, Hempty2).
  exists d1, flushed, d2, d3.
  split; [exact Hrun|]. split; [exact Hflush|]. split; [exact Hdrain|].
  split.
  - apply (stored_after_drain dp_size Packet.size) with d1 d2 flushed;
      try assumption; try reflexivity.
    + intros first p dp c Hcommit. now apply (commit_size first p dp c).
    + apply merge_size.
    + apply empty_size.
  - apply (stored_after_drain DomainPart.byteSize Packet.sizeBytes)
      with d1 d2 flushed; try assumption; try reflexivity.
    + intros first p dp c Hcommit. now apply (commit_size first p dp c).
    + apply merge_sizeBytes.
    + apply Packet_empty_sizeBytes.
Qed.

Lemma records_conserved_witness :
  exists d1 flushed d2 d3,
    run [ACommit 7%Z (Sample.packet 6 7) 1; AWrite; ASync;
         ACommit 9%Z (Sample.packet 8 8) 2] Sample.log5 = Returned tt d1
    /\ flushOnDestroy d1 = Returned flushed d2
    /\ syncCommitter d2 = Returned tt d3
    /\ size d3 = 8
    /\ byteSize d3 = 24.
Proof.
  destruct (records_conserved
              [ACommit 7%Z (Sample.packet 6 7) 1; AWrite; ASync;
               ACommit 9%Z (Sample.packet 8 8) 2] Sample.log5)
    as (d1 & flushed & d2 & d3 & Hrun & Hflush & Hdrain & Hsize & Hbytes).
  - exists [], 0, (Sample.part 0 5 false).
    split; [reflexivity|]. split; [constructor|]. split; [reflexivity|].
    split; [reflexivity|]. split; [exists 0; reflexivity|].
    split; [reflexivity|]. simpl.
    split; [vm_compute; discriminate | reflexivity].
  - simpl. repeat split; try (vm_compute; reflexivity).
    + exists 6. repeat split; vm_compute; discriminate.
    + exists 8. repeat split; vm_compute; discriminate.
  - exists d1, flushed, d2, d3.
    split; [exact Hrun|]. split; [exact Hflush|]. split; [exact Hdrain|].
    split; [rewrite Hsize | rewrite Hbytes]; reflexivity.
Defined.

Lemma getSynced_last (d : Domain) (ps : DomainPartList) (k : SerialNum)
    (tail : DomainPart) :
  _parts d = ps ++ [(k, tail)] ->
  dp_synced tail <> 0 ->
  getSynced d = dp_synced tail.
Proof.
  intros Hparts Hnz. unfold getSynced. rewrite Hparts.
  destruct (ps ++ [(k, tail)]) eqn:Happ; [destruct ps; discriminate Happ|].
  rewrite <- Happ.
  replace (length (ps ++ [(k, tail)]) - 1)%nat with (length ps)
    by (rewrite length_app; simpl; lia).
  assert (Hmid : (ps ++ [(k, tail)]) !! length ps = Some (k, tail))
    by (apply list_lookup_middle; reflexivity).
  rewrite Hmid. cbn [from_option snd]. unfold DomainPart.getSynced.
  apply N.eqb_neq in Hnz. now rewrite Hnz.
Qed.

(** X9. With fsync-on-commit, a write is durable when it is done: on a
    consistent domain, the single committer's next task returns, and right
    after it [end()] is the [to] of the chunk written and [getSynced()]
    equals [end()]. *)
Theorem fsync_write_is_durable (d : Domain) (chunk : Chunk)
    (rest : list Chunk) :
  consistent d ->
  getFSyncOnCommit (_config d) = true ->
  ex_tasks (_singleCommiter d) = chunk :: rest ->
  exists d',
    writerStep d = Returned true d'
    /\ end_ d' = to (range (_data chunk))
    /\ getSynced d' = end_ d'.
Proof.
  intros (init & key & tail & Hparts & Hinit & Htail & Hcx & [pending Hsync]
          & Hsc & Hchain) Hfsync Hq.
  unfold pendingChunks in Hchain. rewrite Hq in Hchain.
  destruct Hchain as (first & Hfirst & Hlo & Hle & _).
  destruct (writerStep_parts d chunk rest init key tail first pending
              Hq Hparts Hinit Htail Hfirst Hlo Hcx Hsync)
    as (d' & kept & target & c & Hrun & Hc & Hparts' & _).
  rewrite Hfsync in Hparts'.
  destruct (commit_size _ _ _ _ Hc) as (_ & _ & Hto).
  exists d'. split; [exact Hrun|].
  assert (Hend : end_ d' = to (range (_data chunk)))
    by (unfold end_; rewrite Hparts', last_snoc; exact Hto).
  split; [exact Hend|].
  rewrite Hend, (getSynced_last d' kept (fst target) (DomainPart.sync c) Hparts').
  - exact Hto.
  - cbn [DomainPart.sync dp_synced]. rewrite Hto. lia.
Qed.

Lemma fsync_write_is_durable_witness :
  exists d',
    writerStep (with_singleCommiter
                  {| ex_tasks := [Sample.chunk6]; ex_closed := false |}
                  (with_lastSerial 6 Sample.log5)) = Returned true d'
    /\ end_ d' = 6
    /\ getSynced d' = end_ d'.
Proof.
  apply (fsync_write_is_durable
           (with_singleCommiter
              {| ex_tasks := [Sample.chunk6]; ex_closed := false |}
              (with_lastSerial 6 Sample.log5)) Sample.chunk6 []).
  - exists [], 0, (Sample.part 0 5 false).
    split; [reflexivity|]. split; [constructor|]. split; [reflexivity|].
    split; [reflexivity|]. split; [exists 0; reflexivity|].
    split; [reflexivity|].
    exists 6. repeat split; vm_compute; discriminate.
  - reflexivity.
  - reflexivity.
Defined.

(** ** Pruning *)

Lemma erase_run (upto : SerialNum) (d : Domain) :
  _parts d <> [] ->
  exists removed k h rest d',
    _parts d = removed ++ (k, h) :: rest
    /\ Forall (endsBelow upto) removed
    /\ (rest <> [] -> upto <= to (dp_range h))
    /\ erase upto d = Returned true d'
    /\ _parts d'
       = (k, if upto <=? to (dp_range h)
             then DomainPart.erase upto h else h) :: rest
    /\ _lastSerial d' = _lastSerial d
    /\ _currentChunk d' = _currentChunk d
    /\ _singleCommiter d' = _singleCommiter d
    /\ _commitExecutor d' = _commitExecutor d
    /\ _pendingSync d' = _pendingSync d.
Proof.
  intros Hne.
  destruct (eraseLoop_split upto (_parts d) Hne)
    as (removed & kept & Hsplit & Hloop & Hk & Hrem & Hhead).
  destruct kept as [|[k h] rest]; [congruence|]. clear Hk.
  exists removed, k, h, rest.
  unfold erase, bind, modify, get, ret. simpl_fields.
  rewrite Hloop. cbn [head].
  assert (Hrest : rest <> [] -> upto <= to (dp_range h))
    by (destruct rest; [congruence | intros _; exact Hhead]).
  destruct (upto <=? to (dp_range h)) eqn:Hle;
    eexists; (split; [exact Hsplit|]); (split; [exact Hrem|]);
    (split; [exact Hrest|]); (split; [reflexivity|]); simpl_fields;
    rewrite ?update_head; repeat split.
Qed.

Lemma erase_keeps_to (upto : SerialNum) (h : DomainPart) :
  to (dp_range (if upto <=? to (dp_range h)
                then DomainPart.erase upto h else h))
  = to (dp_range h).
Proof.
  destruct (upto <=? to (dp_range h)) eqn:Hle; [|reflexivity].
  apply N.leb_le in Hle. now rewrite (erase_from upto h Hle).
Qed.

Lemma erase_keeps_open (upto : SerialNum) (h : DomainPart) :
  dp_closed (if upto <=? to (dp_range h)
             then DomainPart.erase upto h else h)
  = dp_closed h.
Proof.
  destruct (upto <=? to (dp_range h)) eqn:Hle; [|reflexivity].
  apply N.leb_le in Hle. unfold DomainPart.erase.
  apply N.ltb_ge in Hle. now rewrite Hle.
Qed.

Lemma erase_again (upto : SerialNum) (h : DomainPart) :
  upto <= to (dp_range h) ->
  DomainPart.erase upto (DomainPart.erase upto h) = DomainPart.erase upto h.
Proof.
  intros Hle. unfold DomainPart.erase at 1.
  rewrite (erase_from upto h Hle). cbn [to from].
  apply N.ltb_ge in Hle. rewrite Hle.
  unfold DomainPart.erase. rewrite Hle. cbn.
  f_equal. f_equal. lia.
Qed.

(** X10. [erase] can run beside the writers: on a consistent domain it
    returns true and leaves the domain consistent, with the same [end()],
    the same last serial and the same chunks waiting; the open last segment
    is never removed or closed. *)
Theorem erase_consistent (upto : SerialNum) (d : Domain) :
  consistent d ->
  exists d',
    erase upto d = Returned true d'
    /\ consistent d'
    /\ end_ d' = end_ d
    /\ _lastSerial d' = _lastSerial d
    /\ pendingChunks d' = pendingChunks d.
Proof.
  intros (init & key & tail & Hparts & Hinit & Htail & Hcx & Hsync
          & Hsc & Hchain).
  assert (Hne : _parts d <> [])
    by (rewrite Hparts; destruct init; discriminate).
  destruct (erase_run upto d Hne)
    as (removed & k & h & rest & d' & Hsplit & _ & _ & Hrun & Hparts'
        & Hlast & Hcur & Hq & Hce & Hps).
  assert (Hpend : pendingChunks d' = pendingChunks d)
    by (unfold pendingChunks; now rewrite Hq, Hcur).
  exists d'. split; [exact Hrun|].
  rewrite Hparts in Hsplit.
  destruct rest as [|x rest'] using rev_ind.
  - apply app_inj_tail in Hsplit as [-> [= -> ->]].
    split; [|split; [|split; [exact Hlast | exact Hpend]]].
    + exists [], k, (if upto <=? to (dp_range h)
                     then DomainPart.erase upto h else h).
      split; [exact Hparts'|]. split; [constructor|].
      split; [now rewrite erase_keeps_open|].
      split; [now rewrite Hce|]. split; [now rewrite Hce, Hps|].
      split; [now rewrite Hq|].
      now rewrite erase_keeps_to, Hpend, Hlast.
    + unfold end_. rewrite Hparts', Hparts, last_snoc. simpl.
      apply erase_keeps_to.
  - clear IHrest'.
    change (removed ++ (k, h) :: rest' ++ [x])
      with (removed ++ ((k, h) :: rest') ++ [x]) in Hsplit.
    rewrite app_assoc in Hsplit.
    apply app_inj_tail in Hsplit as [Hi Hx]. subst init x.
    change ((k, ?a) :: rest' ++ [(key, tail)])
      with (((k, a) :: rest') ++ [(key, tail)]) in Hparts'.
    split; [|split; [|split; [exact Hlast | exact Hpend]]].
    + exists ((k, if upto <=? to (dp_range h)
                  then DomainPart.erase upto h else h) :: rest'), key, tail.
      split; [exact Hparts'|].
      split.
      { apply Forall_app in Hinit as [_ Hinit].
        apply Forall_cons in Hinit as [Hk Hrest].
        constructor; assumption. }
      split; [exact Htail|].
      split; [now rewrite Hce|]. split; [now rewrite Hce, Hps|].
      split; [now rewrite Hq|].
      now rewrite Hpend, Hlast.
    + unfold end_. now rewrite Hparts', Hparts, !last_snoc.
Qed.

Lemma erase_consistent_witness :
  exists d',
    erase 4 (with_lastSerial 6 Sample.staged) = Returned true d'
    /\ consistent d'
    /\ end_ d' = 5
    /\ _lastSerial d' = 6
    /\ pendingChunks d' = [Sample.chunk6].
Proof.
  apply (erase_consistent 4 (with_lastSerial 6 Sample.staged)).
  exists [], 0, (Sample.part 0 5 false).
  split; [reflexivity|]. split; [constructor|]. split; [reflexivity|].
  split; [reflexivity|]. split; [exists 0; reflexivity|].
  split; [reflexivity|].
  exists 6. repeat split; vm_compute; discriminate.
Defined.

Lemma eraseLoop_stop (upto k : SerialNum) (h : DomainPart)
    (rest : DomainPartList) :
  (rest <> [] -> upto <= to (dp_range h)) ->
  eraseLoop upto ((k, h) :: rest) = ((k, h) :: rest, []).
Proof.
  intros Hrest. destruct rest as [|e rest]; [reflexivity|].
  cbn [eraseLoop].
  assert (Hle : upto <= to (dp_range h)) by (apply Hrest; discriminate).
  apply N.ltb_ge in Hle. now rewrite Hle.
Qed.

Lemma erase_kept (upto : SerialNum) (d : Domain) (k : SerialNum)
    (h : DomainPart) (rest : DomainPartList) :
  _parts d = (k, h) :: rest ->
  (rest <> [] -> upto <= to (dp_range h)) ->
  exists d',
    erase upto d = Returned true d'
    /\ _parts d'
       = (k, if upto <=? to (dp_range h)
             then DomainPart.erase upto h else h) :: rest.
Proof.
  intros Hparts Hrest.
  unfold erase, bind, modify, get, ret. simpl_fields.
  rewrite Hparts, (eraseLoop_stop upto k h rest Hrest). simpl_fields.
  cbn [head].
  destruct (upto <=? to (dp_range h)); eexists; (split; [reflexivity|]);
    simpl_fields; rewrite ?update_head; reflexivity.
Qed.

(** X11. [erase] is idempotent on the segment map: on a domain with a
    segment, a second [erase] with the same serial returns true and leaves
    the segments, and so every range, as the first call left them. *)
Theorem erase_idempotent (upto : SerialNum) (d : Domain) :
  _parts d <> [] ->
  exists d' d'',
    erase upto d = Returned true d'
    /\ erase upto d' = Returned true d''
    /\ _parts d'' = _parts d'.
Proof.
  intros Hne.
  destruct (erase_run upto d Hne)
    as (removed & k & h & rest & d' & _ & _ & Hrest & Hrun & Hparts' & _).
  destruct (erase_kept upto d' k _ rest Hparts') as (d'' & Hrun' & Hparts'').
  { rewrite erase_keeps_to. exact Hrest. }
  exists d', d''. split; [exact Hrun|]. split; [exact Hrun'|].
  rewrite Hparts'', Hparts', erase_keeps_to.
  destruct (upto <=? to (dp_range h)) eqn:Hle; [|reflexivity].
  apply N.leb_le in Hle. now rewrite (erase_again upto h Hle).
Qed.

Lemma erase_idempotent_witness :
  exists d' d'',
    erase 8 Sample.two = Returned true d'
    /\ erase 8 d' = Returned true d''
    /\ _parts d'' = _parts d'.
Proof.
  apply (erase_idempotent 8 Sample.two). discriminate.
Defined.

(** X12. [erase] at or below the start of the log changes no segment: when
    the first segment's range is valid and starts at or above the serial
    given, the call returns true and the segment map is as before. *)
Theorem erase_up_to_begin (upto : SerialNum) (d : Domain) :
  _parts d <> [] ->
  Forall validRange (_parts d) ->
  upto <= begin d ->
  exists d', erase upto d = Returned true d' /\ _parts d' = _parts d.
Proof.
  intros Hne Hvalid Hlow. unfold begin in Hlow.
  destruct (_parts d) as [|[k h] rest] eqn:Hparts; [congruence|].
  cbn [head] in Hlow. apply Forall_inv in Hvalid.
  unfold validRange in Hvalid. cbn [snd] in Hvalid.
  destruct (erase_kept upto d k h rest Hparts) as (d' & Hrun & Hparts').
  { intros _. lia. }
  exists d'. split; [exact Hrun|]. rewrite Hparts'.
  assert (Hle : upto <= to (dp_range h)) by lia.
  apply N.leb_le in Hle. rewrite Hle. apply N.leb_le in Hle.
  unfold DomainPart.erase. apply N.ltb_ge in Hle. rewrite Hle.
  rewrite N.max_r by exact Hlow.
  destruct h as [[lo hi] sz bytes synced closed deleted]. reflexivity.
Qed.

Lemma erase_up_to_begin_witness :
  exists d', erase 10 Sample.lone = Returned true d'
             /\ _parts d' = _parts Sample.lone.
Proof.
  apply (erase_up_to_begin 10 Sample.lone).
  - discriminate.
  - repeat constructor. vm_compute. discriminate.
  - vm_compute. discriminate.
Defined.

(** ** Scanning the directory *)

Lemma fmt016_digits (n : N) :
  Forall (fun c => Ascii.eqb c "-" = false) (C.fmt016 n).
Proof.
  unfold C.fmt016.
  apply (proj2 (List.Forall_map C.digitChar
                  (fun c => Ascii.eqb c "-" = false) _)).
  assert (Hall : Forall (fun v => v < 10)
                   (repeat 0 (16 - length (C.decimalDigits 64 n))
                    ++ C.decimalDigits 64 n)).
  { apply Forall_app. split; [|apply decimalDigits_lt10].
    apply Forall_forall. intros v Hv. apply list_elem_of_In in Hv.
    apply repeat_spec in Hv. subst. reflexivity. }
  revert Hall. apply List.Forall_impl. intros v Hv.
  now destruct (digitChar_plain v Hv) as (_ & Hminus & _).
Qed.

(** A list is split in one way only around a separator that its right
    part does not hold. *)
Lemma split_at_last {A} (x : A) (l1 l2 r1 r2 : list A) :
  l1 ++ x :: r1 = l2 ++ x :: r2 ->
  ~ In x r1 -> ~ In x r2 ->
  l1 = l2 /\ r1 = r2.
Proof.
  revert l2. induction l1 as [|a l1 IH]; intros [|b l2] Heq H1 H2.
  - injection Heq as ->. split; reflexivity.
  - injection Heq as -> ->. exfalso. apply H1.
    apply in_or_app. right. now left.
  - injection Heq as -> <-. exfalso. apply H2.
    apply in_or_app. right. now left.
  - injection Heq as -> Heq.
    destruct (IH l2 Heq H1 H2) as [-> ->]. split; reflexivity.
Qed.

Lemma fmt016_no_minus (n : N) : ~ In "-"%char (C.fmt016 n).
Proof.
  intros Hin. assert (H := fmt016_digits n).
  rewrite List.Forall_forall in H. specialize (H _ Hin). discriminate.
Qed.


Lemma sorted_le_NoDup (l : list SerialNum) :
  StronglySorted N.le l -> NoDup l -> StronglySorted N.lt l.
Proof.
  induction 1 as [|x l Hl IH Hall]; intros Hnd; [constructor|].
  apply NoDup_cons in Hnd as [Hx Hnd].
  constructor; [exact (IH Hnd)|].
  apply Forall_forall. intros y Hy.
  rewrite Forall_forall in Hall. specialize (Hall y Hy).
  assert (x <> y) by (intros ->; exact (Hx Hy)). lia.
Qed.



(** X14. A directory holds no name twice, and then [scanDir] returns no
    serial twice: on a listing without duplicates the result is strictly
    ascending. *)
Theorem scanDir_strictly_ascending (name : cstring) (listing : list cstring) :
  NoDup listing ->
  StronglySorted N.lt (scanDir name listing).
Proof.
  intros Hnd. unfold scanDir. apply sorted_le_NoDup.
  - apply StronglySorted_merge_sort; apply _.
  - rewrite merge_sort_Permutation.
    induction Hnd as [|ename listing Hnew _ IH]; [constructor|].
    simpl omap.
    change (list_omap cstring SerialNum) with (@omap list _ cstring SerialNum).
    destruct (scanEntry name ename) as [num|] eqn:Hacc; [|exact IH].
    apply NoDup_cons. split; [|exact IH].
    intros Hin. apply list_elem_of_omap in Hin as (other & Hother & Hacc').
    apply scanEntry_accepts in Hacc as [_ ->].
    apply scanEntry_accepts in Hacc' as [_ ->].
    exact (Hnew Hother).
Qed.

Lemma scanDir_strictly_ascending_witness :
  StronglySorted N.lt
    (scanDir (list_ascii_of_string "dom")
       [list_ascii_of_string "dom-0000000000000012";
        list_ascii_of_string "..";
        list_ascii_of_string "dom-0000000000000003"]).
Proof.
  apply scanDir_strictly_ascending.
  repeat (apply NoDup_cons; split;
          [rewrite list_elem_of_In; simpl; intuition discriminate|]).
  constructor.
Defined.

(** X15. A file belongs to one domain and one serial: when [scanDir]'s
    loop takes an entry for two domain names, the names are the same and
    so are the serials. *)
Theorem scanEntry_one_domain (name name' ename : cstring)
    (num num' : SerialNum) :
  scanEntry name ename = Some num ->
  scanEntry name' ename = Some num' ->
  name = name' /\ num = num'.
Proof.
  intros Hacc Hacc'.
  apply scanEntry_accepts in Hacc as [Hmax ->].
  apply scanEntry_accepts in Hacc' as [Hmax' Heq].
  unfold partFileName in Heq.
  destruct (split_at_last "-"%char name name' _ _ Heq
              (fmt016_no_minus num) (fmt016_no_minus num')) as [Hn Hf].
  split; [exact Hn|].
  rewrite <- (strtoull_fmt016 num Hmax), <- (strtoull_fmt016 num' Hmax').
  now rewrite Hf.
Qed.

Lemma scanEntry_one_domain_witness :
  list_ascii_of_string "dom" = list_ascii_of_string "dom" /\ 12 = 12.
Proof.
  apply (scanEntry_one_domain (list_ascii_of_string "dom")
           (list_ascii_of_string "dom")
           (list_ascii_of_string "dom-0000000000000012") 12 12);
    vm_compute; reflexivity.
Defined.

(** ** Construction *)

Lemma update_assign (k : SerialNum) (f : DomainPart -> DomainPart)
    (v : DomainPart) (m : DomainPartList) :
  PartMap.update k f (PartMap.assign k v m) = PartMap.assign k (f v) m.
Proof.
  induction m as [|[k' v'] m IH]; simpl.
  - now rewrite N.eqb_refl.
  - destruct (k <? k') eqn:E1; [simpl; now rewrite N.eqb_refl|].
    destruct (k =? k') eqn:E2; simpl.
    + now rewrite N.eqb_refl.
    + now rewrite E2, IH.
Qed.

Lemma assign_Forall (P : SerialNum * DomainPart -> Prop) (k : SerialNum)
    (v : DomainPart) (m : DomainPartList) :
  P (k, v) -> Forall P m -> Forall P (PartMap.assign k v m).
Proof.
  intros Hk. induction 1 as [|[k' v'] m Hx Hm IH]; simpl.
  - repeat constructor. exact Hk.
  - destruct (k <? k'); [repeat constructor; assumption|].
    destruct (k =? k'); constructor; assumption.
Qed.

Lemma assign_ordered (k : SerialNum) (v : DomainPart) (m : DomainPartList) :
  PartMap.ordered m -> PartMap.ordered (PartMap.assign k v m).
Proof.
  unfold PartMap.ordered, PartMap.keys.
  induction m as [|[k' v'] m IH]; intros Hs; simpl.
  - repeat constructor.
  - simpl in Hs. apply StronglySorted_inv in Hs as [Hs Hall].
    destruct (k <? k') eqn:E1.
    + apply N.ltb_lt in E1. simpl.
      constructor; [constructor; assumption|].
      constructor; [exact E1|].
      revert Hall. apply List.Forall_impl. intros x. lia.
    + apply N.ltb_ge in E1. destruct (k =? k') eqn:E2.
      * apply N.eqb_eq in E2. subst k'. simpl. constructor; assumption.
      * apply N.eqb_neq in E2. simpl.
        constructor; [exact (IH Hs)|].
        change (Forall (fun x => k' < x) (map fst (PartMap.assign k v m))).
        change (Forall (fun x => k' < x) (map fst m)) in Hall.
        apply (proj2 (List.Forall_map fst (fun x => k' < x) _)).
        apply assign_Forall; [simpl; lia|].
        now apply (proj1 (List.Forall_map fst (fun x => k' < x) _)).
Qed.

Lemma ordered_snoc (init : DomainPartList) (e : SerialNum * DomainPart) :
  PartMap.ordered (init ++ [e]) -> Forall (fun x => fst x < fst e) init.
Proof.
  unfold PartMap.ordered, PartMap.keys.
  induction init as [|x init IH]; intros Hs; [constructor|].
  simpl in Hs. apply StronglySorted_inv in Hs as [Hs Hall].
  constructor; [|exact (IH Hs)].
  rewrite map_app in Hall. apply Forall_app in Hall as [_ Hall].
  now apply Forall_inv in Hall.
Qed.

(** Assigning a key that no key of the map exceeds puts it last. *)
Lemma assign_last (k : SerialNum) (v : DomainPart) (m : DomainPartList) :
  PartMap.ordered m ->
  Forall (fun e => fst e <= k) m ->
  exists init,
    PartMap.assign k v m = init ++ [(k, v)]
    /\ Forall (fun e => fst e < k) init.
Proof.
  unfold PartMap.ordered, PartMap.keys.
  induction m as [|[k' v'] m IH]; intros Hs Hle.
  - exists []. split; [reflexivity | constructor].
  - simpl in Hs. apply StronglySorted_inv in Hs as [Hs Hall].
    apply Forall_cons in Hle as [Hk Hle]. simpl in Hk. simpl.
    replace (k <? k') with false by (symmetry; apply N.ltb_ge; lia).
    destruct (k =? k') eqn:E.
    + apply N.eqb_eq in E. subst k'.
      destruct m as [|[k2 v2] m].
      * exists []. split; [reflexivity | constructor].
      * exfalso. apply Forall_inv in Hall. apply Forall_inv in Hle.
        simpl in Hall, Hle. lia.
    + apply N.eqb_neq in E.
      destruct (IH Hs Hle) as (init & -> & Hinit).
      exists ((k', v') :: init). split; [reflexivity|].
      constructor; [simpl; lia | exact Hinit].
Qed.

Lemma sorted_last_max (l : list SerialNum) :
  StronglySorted N.le l -> Forall (fun x => x <= List.last l 0) l.
Proof.
  induction 1 as [|x l Hl IH Hall]; [constructor|].
  destruct l as [|y l]; [repeat constructor; simpl; lia|].
  change (List.last (x :: y :: l) 0) with (List.last (y :: l) 0).
  constructor; [|exact IH].
  apply Forall_inv in Hall. apply Forall_inv in IH. lia.
Qed.

Lemma loadFrame_refl (d : Domain) : loadFrame d d.
Proof. repeat split. Qed.

Lemma loadFrame_trans (d1 d2 d3 : Domain) :
  loadFrame d1 d2 -> loadFrame d2 d3 -> loadFrame d1 d3.
Proof.
  unfold loadFrame. intros (? & ? & ? & ? & ? & ? & ?) (? & ? & ? & ? & ? & ? & ?).
  repeat split; congruence.
Qed.

Section ConstructFacts.
Variable openPart : SerialNum -> bool -> DomainPart.
Variable reopenPart : SerialNum -> DomainPart.

Lemma addPart_parts (lastPart partId : SerialNum) (d d' : Domain) :
  addPart openPart partId (partId =? lastPart) d = Some d' ->
  loadFrame d d'
  /\ (_parts d' = _parts d
      \/ _parts d'
         = PartMap.assign partId (loadedPart openPart lastPart partId)
             (_parts d)).
Proof.
  unfold addPart, loadedPart.
  destruct (dp_size (openPart partId (partId =? lastPart)) =? 0).
  - destruct (partId =? lastPart); [|discriminate].
    intros [= <-]. split; [repeat split | left; reflexivity].
  - intros [= <-].
    destruct (partId =? lastPart); cbn [negb]; simpl_fields.
    + split; [repeat split | right; reflexivity].
    + split; [repeat split | right; apply update_assign].
Qed.

Lemma addParts_inv (P : SerialNum * DomainPart -> Prop)
    (lastPart : SerialNum) (partIds : list SerialNum) (d d' : Domain) :
  (forall partId,
      In partId partIds -> P (partId, loadedPart openPart lastPart partId)) ->
  addParts openPart lastPart partIds d = inl d' ->
  PartMap.ordered (_parts d) ->
  Forall P (_parts d) ->
  PartMap.ordered (_parts d') /\ Forall P (_parts d') /\ loadFrame d d'.
Proof.
  revert d. induction partIds as [|partId rest IH]; intros d Hnew Hrun Hord Hall.
  - injection Hrun as <-. split; [exact Hord|]. split; [exact Hall|].
    apply loadFrame_refl.
  - cbn [addParts] in Hrun.
    destruct (addPart openPart partId (partId =? lastPart) d) as [d1|] eqn:Hadd;
      [|discriminate].
    destruct (addPart_parts lastPart partId d d1 Hadd) as [Hframe Hparts].
    assert (Hd1 : PartMap.ordered (_parts d1) /\ Forall P (_parts d1)).
    { destruct Hparts as [-> | ->]; [split; assumption|].
      split; [now apply assign_ordered|].
      apply assign_Forall; [|exact Hall]. apply Hnew. now left. }
    destruct (IH d1) as (Hord' & Hall' & Hframe');
      [intros p Hp; apply Hnew; now right | exact Hrun | tauto | tauto|].
    split; [exact Hord'|]. split; [exact Hall'|].
    exact (loadFrame_trans d d1 d' Hframe Hframe').
Qed.

Lemma addParts_fails (lastPart : SerialNum) (partIds : list SerialNum)
    (d : Domain) (partId : SerialNum) :
  addParts openPart lastPart partIds d = inr partId ->
  In partId partIds
  /\ partId <> lastPart
  /\ dp_size (openPart partId false) = 0.
Proof.
  revert d. induction partIds as [|p rest IH]; intros d Hrun; [discriminate|].
  cbn [addParts] in Hrun.
  destruct (addPart openPart p (p =? lastPart) d) as [d1|] eqn:Hadd.
  - destruct (IH d1 Hrun) as (Hin & Hne & Hsize).
    split; [now right | split; assumption].
  - injection Hrun as <-. unfold addPart in Hadd.
    destruct (dp_size (openPart p (p =? lastPart)) =? 0) eqn:Hsz;
      [|discriminate].
    destruct (p =? lastPart) eqn:Hlast; [discriminate|].
    apply N.eqb_neq in Hlast. apply N.eqb_eq in Hsz.
    split; [now left | split; assumption].
Qed.

(** What a successful construction went through: the directories were
    made, the segments loaded into [d1], and the last segment opened anew
    when none was left open. *)
Lemma construct_built_inv (name : cstring) (cfg : DomainConfig)
    (commitExecutor : Executor SerialNum) (sessionExecutor : Executor Z)
    (mkBase mkDomain : Z) (listing : list cstring) (d : Domain) :
  construct openPart reopenPart name cfg commitExecutor sessionExecutor
    mkBase mkDomain listing = Built d ->
  mkBase = 0%Z /\ mkDomain = 0%Z
  /\ exists d1,
       PartMap.ordered (_parts d1)
       /\ (forall P : SerialNum * DomainPart -> Prop,
             (forall partId,
                 In partId (scanDir name listing) ->
                 P (partId,
                    loadedPart openPart (List.last (scanDir name listing) 0)
                      partId)) ->
             Forall P (_parts d1))
       /\ _currentChunk d1 = Chunk.new
       /\ _singleCommiter d1 = {| ex_tasks := []; ex_closed := false |}
       /\ _commitExecutor d1 = commitExecutor
       /\ _pendingSync d1 = false
       /\ _sessions d1 = ∅
       /\ _config d1 = cfg
       /\ exists d2,
            d = with_lastSerial (end_ d2) d2
            /\ d2
               = if match last (_parts d1) with
                    | None => true
                    | Some (_, dp) => DomainPart.isClosed dp
                    end
                 then emit [EvOpen (List.last (scanDir name listing) 0);
                            EvDirSync]
                        (with_parts
                           (PartMap.assign
                              (List.last (scanDir name listing) 0)
                              (reopenPart
                                 (List.last (scanDir name listing) 0))
                              (_parts d1)) d1)
                 else d1.
Proof.
  unfold construct. cbv zeta.
  destruct (mkBase =? 0)%Z eqn:Hb; cbn [negb]; [|discriminate].
  destruct (mkDomain =? 0)%Z eqn:Hd; cbn [negb]; [|discriminate].
  apply Z.eqb_eq in Hb, Hd.
  match goal with
  | |- context [addParts _ _ ?ids ?d0] =>
      set (taken := ids); set (D0 := d0)
  end.
  destruct (addParts openPart (List.last (scanDir name listing) 0) taken D0)
    as [d1|k] eqn:Hadd; [|discriminate].
  intros [= <-]. split; [exact Hb|]. split; [exact Hd|].
  exists d1.
  assert (Htaken : forall partId, In partId taken ->
                                  In partId (scanDir name listing)).
  { intros partId. unfold taken.
    destruct (ex_closed sessionExecutor); [intros []|].
    intros Hin. now apply List.filter_In in Hin as [Hin _]. }
  assert (Hinv : forall P : SerialNum * DomainPart -> Prop,
             (forall partId,
                 In partId (scanDir name listing) ->
                 P (partId,
                    loadedPart openPart (List.last (scanDir name listing) 0)
                      partId)) ->
             PartMap.ordered (_parts d1) /\ Forall P (_parts d1)
             /\ loadFrame D0 d1).
  { intros P HP.
    apply (addParts_inv P (List.last (scanDir name listing) 0) taken D0 d1).
    - intros partId Hin. apply HP, Htaken, Hin.
    - exact Hadd.
    - constructor.
    - constructor. }
  destruct (Hinv (fun _ => True) (fun _ _ => I))
    as (Hord & _ & Hcfg & Hcur & _ & Hsc & Hce & Hps & Hss).
  split; [exact Hord|].
  split; [intros P HP; now destruct (Hinv P HP) as (_ & HallP & _)|].
  split; [exact Hcur|]. split; [exact Hsc|]. split; [exact Hce|].
  split; [exact Hps|]. split; [exact Hss|]. split; [exact Hcfg|].
  eexists. split; reflexivity.
Qed.

End ConstructFacts.

Lemma assign_nonempty (k : SerialNum) (v : DomainPart) (m : DomainPartList) :
  PartMap.assign k v m <> [].
Proof.
  destruct m as [|[k' v'] m]; simpl; [discriminate|].
  destruct (k <? k'); [discriminate|]. destruct (k =? k'); discriminate.
Qed.

(** X16. How the constructor ends.  When it throws for a directory, that
    directory's [makeDirectory] returned the non-zero value reported; when
    its assertion fails, the part is a scanned one other than the last
    whose file holds no record.  When it returns, both directories were
    made, the segment map is not empty, its keys ascend, the last serial
    is [end()], and every segment but the one of the last scanned id comes
    from the scan and is closed. *)
Theorem construct_outcome (openPart : SerialNum -> bool -> DomainPart)
    (reopenPart : SerialNum -> DomainPart) (name : cstring)
    (cfg : DomainConfig) (commitExecutor : Executor SerialNum)
    (sessionExecutor : Executor Z) (mkBase mkDomain : Z)
    (listing : list cstring) :
  match construct openPart reopenPart name cfg commitExecutor sessionExecutor
          mkBase mkDomain listing with
  | Built d =>
      mkBase = 0%Z /\ mkDomain = 0%Z
      /\ _parts d <> []
      /\ PartMap.ordered (_parts d)
      /\ _lastSerial d = end_ d
      /\ Forall (fun e =>
                   fst e <> List.last (scanDir name listing) 0 ->
                   In (fst e) (scanDir name listing)
                   /\ dp_closed (snd e) = true) (_parts d)
  | BaseDirFailed retval => retval = mkBase /\ mkBase <> 0%Z
  | DomainDirFailed retval =>
      retval = mkDomain /\ mkBase = 0%Z /\ mkDomain <> 0%Z
  | EmptyPartNotLast partId =>
      mkBase = 0%Z /\ mkDomain = 0%Z
      /\ In partId (scanDir name listing)
      /\ partId <> List.last (scanDir name listing) 0
      /\ dp_size (openPart partId false) = 0
  end.
Proof.
  destruct (construct openPart reopenPart name cfg commitExecutor
              sessionExecutor mkBase mkDomain listing) as [d|r|r|k] eqn:Hc.
  - destruct (construct_built_inv _ _ _ _ _ _ _ _ _ _ Hc)
      as (Hb & Hd & d1 & Hord & Hall & _ & _ & _ & _ & _ & _ & d2 & -> & Hd2).
    split; [exact Hb|]. split; [exact Hd|].
    specialize (Hall
      (fun e => fst e <> List.last (scanDir name listing) 0 ->
                In (fst e) (scanDir name listing)
                /\ dp_closed (snd e) = true)).
    assert (HP : Forall (fun e =>
                   fst e <> List.last (scanDir name listing) 0 ->
                   In (fst e) (scanDir name listing)
                   /\ dp_closed (snd e) = true) (_parts d1)).
    { apply Hall. intros partId Hin Hne. cbn [fst snd] in *.
      split; [exact Hin|]. unfold loadedPart.
      apply N.eqb_neq in Hne. rewrite Hne. reflexivity. }
    simpl_fields.
    destruct (last (_parts d1)) as [[key tail]|] eqn:Hlast.
    + destruct (DomainPart.isClosed tail); subst d2; simpl_fields.
      * split; [apply assign_nonempty|].
        split; [now apply assign_ordered|]. split; [reflexivity|].
        apply assign_Forall; [|exact HP]. cbn [fst]. congruence.
      * split; [intros E; rewrite E in Hlast; discriminate|].
        split; [exact Hord|]. split; [reflexivity | exact HP].
    + subst d2; simpl_fields.
      split; [apply assign_nonempty|].
      split; [now apply assign_ordered|]. split; [reflexivity|].
      apply assign_Forall; [|exact HP]. cbn [fst]. congruence.
  - unfold construct in Hc. cbv zeta in Hc.
    destruct (mkBase =? 0)%Z eqn:Hb; cbn [negb] in Hc.
    + destruct (mkDomain =? 0)%Z; cbn [negb] in Hc; [|discriminate].
      destruct (addParts _ _ _ _); discriminate.
    + injection Hc as <-. apply Z.eqb_neq in Hb. split; [reflexivity | exact Hb].
  - unfold construct in Hc. cbv zeta in Hc.
    destruct (mkBase =? 0)%Z eqn:Hb; cbn [negb] in Hc; [|discriminate].
    destruct (mkDomain =? 0)%Z eqn:Hd; cbn [negb] in Hc.
    + destruct (addParts _ _ _ _); discriminate.
    + injection Hc as <-. apply Z.eqb_eq in Hb. apply Z.eqb_neq in Hd.
      repeat split; assumption.
  - unfold construct in Hc. cbv zeta in Hc.
    destruct (mkBase =? 0)%Z eqn:Hb; cbn [negb] in Hc; [|discriminate].
    destruct (mkDomain =? 0)%Z eqn:Hd; cbn [negb] in Hc; [|discriminate].
    apply Z.eqb_eq in Hb, Hd.
    match type of Hc with
    | context [addParts _ _ ?ids ?d0] =>
        destruct (addParts openPart (List.last (scanDir name listing) 0)
                    ids d0) as [d1|k'] eqn:Hadd; [discriminate|]
    end.
    injection Hc as ->.
    apply addParts_fails in Hadd as (Hin & Hne & Hsize).
    split; [exact Hb|]. split; [exact Hd|].
    split; [|split; assumption].
    destruct (ex_closed sessionExecutor); [destruct Hin|].
    now apply List.filter_In in Hin as [Hin _].
Qed.

(** X17. A constructed domain is ready to run: when every segment file
    opened has a range that ends at or above its id, the segment opened
    anew is open, and the commit executor is open and idle, the domain the
    constructor returns is consistent and has no chunk waiting. *)
Theorem construct_consistent (openPart : SerialNum -> bool -> DomainPart)
    (reopenPart : SerialNum -> DomainPart) (name : cstring)
    (cfg : DomainConfig) (commitExecutor : Executor SerialNum)
    (sessionExecutor : Executor Z) (mkBase mkDomain : Z)
    (listing : list cstring) (d : Domain) :
  (forall partId isLastPart,
      partId <= to (dp_range (openPart partId isLastPart))) ->
  (forall partId,
      partId <= to (dp_range (reopenPart partId))
      /\ dp_closed (reopenPart partId) = false) ->
  ex_closed commitExecutor = false ->
  ex_tasks commitExecutor = [] ->
  construct openPart reopenPart name cfg commitExecutor sessionExecutor
    mkBase mkDomain listing = Built d ->
  consistent d /\ pendingChunks d = [].
Proof.
  intros Hopen Hre Hcx Hidle Hc.
  destruct (construct_built_inv _ _ _ _ _ _ _ _ _ _ Hc)
    as (_ & _ & d1 & Hord & Hall & Hcur & Hsc & Hce & Hps & _ & _
        & d2 & -> & Hd2).
  set (lastPart := List.last (scanDir name listing) 0) in *.
  assert (HP : Forall (fun e => fst e <= lastPart
                                /\ fst e <= to (dp_range (snd e)))
                 (_parts d1)).
  { apply Hall. intros partId Hin. cbn [fst snd]. split.
    - assert (Hmax := sorted_last_max (scanDir name listing)).
      rewrite List.Forall_forall in Hmax. apply Hmax; [|exact Hin].
      apply StronglySorted_merge_sort; apply _.
    - unfold loadedPart.
      destruct (negb (partId =? lastPart)); [cbn [DomainPart.close dp_range]|];
        apply Hopen. }
  assert (Hpend2 : pendingChunks d2 = []).
  { assert (E : pendingChunks d1 = [])
      by (unfold pendingChunks; rewrite Hsc, Hcur; reflexivity).
    destruct (match last (_parts d1) with
              | Some (_, dp) => DomainPart.isClosed dp
              | None => true
              end); subst d2; exact E. }
  assert (Hshape : exists init key tail,
             _parts d2 = init ++ [(key, tail)]
             /\ Forall (fun e => fst e < key) init
             /\ dp_closed tail = false
             /\ key <= to (dp_range tail)).
  { destruct (Hre lastPart) as [Hto Hop].
    assert (Hnew : exists init,
               PartMap.assign lastPart (reopenPart lastPart) (_parts d1)
               = init ++ [(lastPart, reopenPart lastPart)]
               /\ Forall (fun e => fst e < lastPart) init).
    { apply assign_last; [exact Hord|].
      revert HP. apply List.Forall_impl. tauto. }
    destruct Hnew as (init & Hassign & Hinit).
    destruct (last (_parts d1)) as [[key tail]|] eqn:Hlast.
    - destruct (DomainPart.isClosed tail) eqn:Hclosed; subst d2; simpl_fields.
      + exists init, lastPart, (reopenPart lastPart). tauto.
      + apply last_Some in Hlast as [init1 Hparts].
        exists init1, key, tail.
        split; [exact Hparts|].
        split; [rewrite Hparts in Hord; exact (ordered_snoc _ _ Hord)|].
        split; [exact Hclosed|].
        rewrite Hparts in HP. apply Forall_app in HP as [_ HP].
        apply Forall_inv in HP. tauto.
    - subst d2; simpl_fields.
      exists init, lastPart, (reopenPart lastPart). tauto. }
  assert (Hrest : _commitExecutor d2 = commitExecutor
                  /\ _pendingSync d2 = false
                  /\ _singleCommiter d2
                     = {| ex_tasks := []; ex_closed := false |}).
  { destruct (match last (_parts d1) with
              | Some (_, dp) => DomainPart.isClosed dp
              | None => true
              end); subst d2; simpl_fields; tauto. }
  destruct Hshape as (init & key & tail & Hparts & Hinit & Hop & Hto).
  destruct Hrest as (Hce2 & Hps2 & Hsc2).
  split; [|exact Hpend2].
  exists init, key, tail. simpl_fields.
  split; [exact Hparts|]. split; [exact Hinit|]. split; [exact Hop|].
  split; [now rewrite Hce2|].
  split; [exists 0; now rewrite Hce2, Hps2|].
  split; [now rewrite Hsc2|].
  change (pendingChunks (with_lastSerial (end_ d2) d2))
    with (pendingChunks d2).
  rewrite Hpend2. unfold end_. rewrite Hparts, last_snoc.
  split; [exact Hto | reflexivity].
Qed.

Lemma construct_consistent_witness :
  exists d,
    construct SampleFiles.openPart SampleFiles.reopenPart SampleFiles.name
      Sample.config Sample.idle Sample.idle 0 0 SampleFiles.listing = Built d
    /\ PartMap.keys (_parts d) = [1; 5]
    /\ consistent d
    /\ pendingChunks d = [].
Proof.
  eexists. split; [vm_compute; reflexivity|].
  split; [reflexivity|].
  apply (construct_consistent SampleFiles.openPart SampleFiles.reopenPart
           SampleFiles.name Sample.config Sample.idle Sample.idle 0 0
           SampleFiles.listing).
  - intros partId isLastPart. simpl. lia.
  - intros partId. split; [simpl; lia | reflexivity].
  - reflexivity.
  - reflexivity.
  - vm_compute. reflexivity.
Defined.

(** ** Syncing *)

(** X18. However often [triggerSyncNow] is called, one [Sync] is queued:
    with at most one sync in flight, a segment in the map and the commit
    executor open, the call returns with the flag up and one task queued, a
    second call changes nothing, and [waitPendingSync] then returns with
    the flag down and no task left. *)
Theorem triggerSyncNow_one_in_flight (d : Domain) :
  oneSyncInFlight d ->
  _parts d <> [] ->
  ex_closed (_commitExecutor d) = false ->
  exists part d' d'',
    triggerSyncNow d = Returned tt d'
    /\ _pendingSync d' = true
    /\ ex_tasks (_commitExecutor d') = [part]
    /\ triggerSyncNow d' = Returned tt d'
    /\ waitPendingSync d' = Returned tt d''
    /\ _pendingSync d'' = false
    /\ ex_tasks (_commitExecutor d'') = [].
Proof.
  intros [k Hone] Hne Hopen.
  destruct (_pendingSync d) eqn:Hp.
  - exists k, d.
    assert (Hsame : triggerSyncNow d = Returned tt d)
      by (unfold triggerSyncNow, bind, get, ret; now rewrite Hp).
    eexists. split; [exact Hsame|]. split; [exact Hp|].
    split; [exact Hone|]. split; [exact Hsame|].
    split; [exact (waitPendingSync_one d k Hp Hone)|].
    split; reflexivity.
  - destruct (_parts d) as [|x parts] eqn:Hparts using rev_ind; [congruence|].
    clear IHparts. destruct x as [key tail].
    rewrite (triggerSyncNow_run d parts key tail Hp Hparts Hopen).
    rewrite Hone. cbn [app].
    eexists key, _, _. split; [reflexivity|].
    split; [reflexivity|]. split; [reflexivity|].
    split; [reflexivity|].
    split; [apply waitPendingSync_one; reflexivity|].
    split; reflexivity.
Qed.

Lemma triggerSyncNow_one_in_flight_witness :
  exists part d' d'',
    triggerSyncNow Sample.log5 = Returned tt d'
    /\ _pendingSync d' = true
    /\ ex_tasks (_commitExecutor d') = [part]
    /\ triggerSyncNow d' = Returned tt d'
    /\ waitPendingSync d' = Returned tt d''
    /\ _pendingSync d'' = false
    /\ ex_tasks (_commitExecutor d'') = [].
Proof.
  apply (triggerSyncNow_one_in_flight Sample.log5).
  - exists 0. reflexivity.
  - discriminate.
  - reflexivity.
Defined.

(** X19. A sync asked of a commit executor that has been shut down is never
    done: [triggerSyncNow] raises the flag, the executor hands the task
    back, and [waitPendingSync] waits for a flag nobody will lower. *)
Theorem sync_after_shutdown_blocks (d : Domain) :
  _parts d <> [] ->
  _pendingSync d = false ->
  ex_closed (_commitExecutor d) = true ->
  ex_tasks (_commitExecutor d) = [] ->
  exists d',
    triggerSyncNow d = Returned tt d'
    /\ _pendingSync d' = true
    /\ ex_tasks (_commitExecutor d') = []
    /\ waitPendingSync d' = Blocked d'.
Proof.
  intros Hne Hp Hclosed Hidle.
  destruct (_parts d) as [|x parts] eqn:Hparts using rev_ind; [congruence|].
  clear IHparts. destruct x as [key tail].
  unfold triggerSyncNow, bind, get, modify, ret.
  rewrite Hp. cbn [negb]. simpl_fields. rewrite Hparts, last_snoc.
  unfold Executor.execute. simpl_fields. rewrite Hclosed. simpl_fields.
  eexists. split; [reflexivity|]. simpl_fields.
  split; [reflexivity|]. split; [exact Hidle|].
  unfold waitPendingSync. simpl_fields. rewrite Hidle. reflexivity.
Qed.

Lemma sync_after_shutdown_blocks_witness :
  exists d',
    triggerSyncNow (with_commitExecutor Sample.stopped Sample.log5)
    = Returned tt d'
    /\ _pendingSync d' = true
    /\ ex_tasks (_commitExecutor d') = []
    /\ waitPendingSync d' = Blocked d'.
Proof.
  apply (sync_after_shutdown_blocks
           (with_commitExecutor Sample.stopped Sample.log5));
    [discriminate | reflexivity | reflexivity | reflexivity].
Defined.

(** ** Sessions and the oldest active visit *)

(** X20. What a new visit does to the oldest active visit: after
    [visit lo hi] it is at most [lo], and it is at or above every bound
    that held before the call and holds for [lo]. *)
Theorem visit_bounds_oldest_active (lo hi : SerialNum) (d : Domain) :
  exists d',
    visit lo hi d = Returned (_sessionId d) d'
    /\ findOldestActiveVisit d' <= lo
    /\ (forall bound,
          bound <= lo -> bound <= findOldestActiveVisit d ->
          bound <= findOldestActiveVisit d').
Proof.
  unfold visit, bind, get, modify, ret, cleanSessions. simpl_state.
  eexists. split; [reflexivity|].
  match goal with |- findOldestActiveVisit ?d' <= _ /\ _ => set (d1 := d') end.
  destruct (oldestActive_fold (_sessions d1)) as (_ & Hlow' & Hatt').
  fold (findOldestActiveVisit d1) in Hlow', Hatt'.
  destruct (oldestActive_fold (_sessions d)) as (Hmax & Hlow & _).
  fold (findOldestActiveVisit d) in Hmax, Hlow.
  split.
  - apply (Hlow' (_sessionId d)
             (newSession (_sessionId d) {| from := lo; to := hi |}));
      [|reflexivity].
    unfold d1. simpl_state. apply lookup_insert_eq.
  - intros bound Hlo Hold.
    destruct Hatt' as [-> | (id & s & Hs & Hact & <-)]; [lia|].
    unfold d1 in Hs. simpl_state.
    destruct (decide (_sessionId d = id)) as [<-|Hne].
    + rewrite lookup_insert_eq in Hs. injection Hs as <-. exact Hlo.
    + rewrite lookup_insert_ne in Hs by exact Hne.
      apply map_lookup_filter_Some in Hs as [Hs _].
      specialize (Hlow id s Hs Hact). lia.
Qed.
